(** * Zombie-Game: the multithreaded round engine of [zombie_game_threaded.py]

    A shallow embedding of [GameDBThreaded] (with the parts of
    [zombie_db_layer.py] and [zombie_game4.py] it relies on) and the
    properties of one simulation round, followed by the set-up and the
    loop of [run_game], the statistics of the database layer, the
    sequential engine [GameDB] and the item pickup of the in-memory game
    of [zombie_game4.py].

    Modelling conventions.
    - Python [int]s are [Z].  The float constants of the source
      (0.5, 0.6, 1.5, 2.0, 2.5, and 0.2, 0.3 as thresholds) are rationals
      [Q]; [int(...)] is truncation toward zero ([py_int]).  That the
      binary64 products behave like the exact ones is checked for the
      magnitudes of a game in [float_products_as_exact].
    - [math.sqrt(d)] is kept symbolically as [Sqrt d]; comparisons of
      distances are comparisons of the radicands.  This is what binary64
      does for squared distances up to 2^51, checked in
      [distances_as_exact]; the test [distance <= 1.5] is exact for all.
      The theorem on which target [find_nearest] returns is stated for
      that range.
    - The module-level generator [random] is an interface ([Rng]); the
      theorems hold for every implementation, the examples use a tape
      that replays given draws.
    - The worker tasks of a round are run one after the other in an
      explicit [schedule], the order in which they take [state_lock] to
      append to the buffers.  Since the theorems quantify over the
      generator, they cover the runs in which the draws of several tasks
      interleave: a tape can hand each task the draws it saw.
    - A task returns or raises; with rows of the types below the one
      statement that raises is [random.randint] on an empty range.
    - The tables of the database are lists of rows, the SQL statements
      functions on them; [print] calls are omitted, except that the ids
      reported by the [except] branches of [run_round] are kept.  A
      SERIAL column hands out consecutive ids from a given first one.
      A list fixes an order of the rows that the table does not have;
      no theorem on the state after a round depends on it.  Rows hold
      unbounded integers; the theorems on rounds that complete assume
      limits under which every value written fits its INTEGER column.
    - Where the sequential code changes a dictionary or an object that
      a list holds, the list is updated at the position of that element:
      [find_nearest] on a list returns one of its elements, not a copy. *)

From Stdlib Require Import ZArith QArith Lia List Bool Permutation.
From Corelib Require Import PrimFloat.
From Stdlib Require Import Uint63.
From stdpp Require Import base option list gmap.

Local Open Scope Z_scope.

(** ** Numbers *)

(** [int(q)]: truncation toward zero. *)
Definition py_int (q : Q) : Z := Z.quot (Qnum q) (Z.pos (Qden q)).

(** [n * f] for an [int] n and a [float] f. *)
Definition mul_float (n : Z) (f : Q) : Q := (inject_Z n * f)%Q.

(** [q1 < q2] on floats. *)
Definition Qltb (q1 q2 : Q) : bool := negb (Qle_bool q2 q1).

(** [n < q] for an [int] n and a [float] q. *)
Definition Z_lt_float (n : Z) (q : Q) : bool := Qltb (inject_Z n) q.

(** The binary64 product [n * f] against the exact one [n * num / den]:
    equal when the exact product is an integer, and strictly between its
    floor and the next integer otherwise, so that [int] of both and their
    comparisons with integers agree. *)
Definition float_of_nat (n : nat) : float :=
  Nat.iter n (fun f => PrimFloat.add f 1%float) 0%float.

Definition product_as_exact (f : float) (num den : nat) (n : nat) : bool :=
  let p := PrimFloat.mul (float_of_nat n) f in
  let q := Nat.div (n * num) den in
  if Nat.eqb (Nat.modulo (n * num) den) 0 then PrimFloat.eqb p (float_of_nat q)
  else PrimFloat.ltb (float_of_nat q) p && PrimFloat.ltb p (float_of_nat (S q)).

(** [math.sqrt] of an integer, kept symbolic. *)
Record dist : Type := Sqrt { radicand : Z }.

(** [d1 < d2], the comparison [min] uses over its keys.  The binary64
    square roots of two integers stand in the order of the integers as
    long as these are at most [distance_limit]; above 2^52 the square
    roots of neighbouring integers coincide, and [min] then keeps the
    earlier of two targets of which the later is nearer.  A statement
    about which target [find_nearest] returns is made for radicands up
    to [distance_limit] only. *)
Definition dist_ltb (d1 d2 : dist) : bool := radicand d1 <? radicand d2.

(** Squared distances up to here are compared exactly: coordinates that
    differ by at most 2^25 on each axis. *)
Definition distance_limit : Z := 2 ^ 51.

(** [distance <= 1.5], that is [radicand <= 2.25]: the square root is
    rounded correctly and 1.5 is a binary64 number, so that the test
    holds of the radicands 0, 1 and 2 and of no other. *)
Definition within_reach (d : dist) : bool := 4 * radicand d <=? 9.

(** [math.sqrt(n)] in binary64, and whether it tells [n - 1] from [n]. *)
Definition sqrt_binary64 (n : Z) : float :=
  PrimFloat.sqrt (PrimFloat.of_uint63 (Uint63.of_Z n)).

Definition sqrt_separates (n : Z) : bool :=
  PrimFloat.ltb (sqrt_binary64 (n - 1)) (sqrt_binary64 n).

(** ** The random generator *)

Class Rng : Type := {
  rng_state : Type;
  (** [random.random()]: a float in [0, 1). *)
  rng_random : rng_state -> Q * rng_state;
  (** [random.randint(a, b)] for [a <= b]: an integer in [a, b]. *)
  rng_randint : Z -> Z -> rng_state -> Z * rng_state;
  rng_random_range : forall g, (0 <= fst (rng_random g) /\ fst (rng_random g) < 1)%Q;
  rng_randint_range : forall a b g, a <= b -> a <= fst (rng_randint a b g) <= b
}.

(** ** Data model: rows of the [agents], [items] and [combat_log] tables *)

Inductive agent_type_t : Type := Human | Zombie.

Inductive role : Type := Doctor | Hunter | SpeedZombie | TankZombie.

Inductive item_type_t : Type := MedKit | Sword.

(** The [role_data] dictionary; an absent key is [None]. *)
Record role_data_t : Type := mk_role_data {
  heal_charges : option Z;
  heal_amount : option Q;
  movement_range : option Q;
  attack_multiplier : option Q;
  critical_chance : option Q
}.

Definition empty_role_data : role_data_t := mk_role_data None None None None None.

Record agent : Type := mk_agent {
  agent_id : Z;
  agent_type : agent_type_t;
  health : Z;
  max_health : Z;
  attack_power : Z;
  base_attack_power : Z;
  is_alive : bool;
  x : Z;
  y : Z;
  role_name : option role;
  role_data : role_data_t
}.

Record item : Type := mk_item {
  item_id : Z;
  item_type : item_type_t;
  item_x : Z;
  item_y : Z;
  picked_up : bool;
  picked_by_agent_id : option Z
}.

(** What [calculate_attack] returns (when it is not [None]). *)
Record combat : Type := mk_combat {
  attacker_id : Z;
  target_id : Z;
  damage : Z;
  was_critical : bool
}.

(** A row of [combat_log]. *)
Record combat_event : Type := mk_event {
  ev_round : Z;
  ev_attacker : Z;
  ev_target : Z;
  ev_damage : Z;
  ev_critical : bool
}.

Global Instance agent_type_eq_dec : EqDecision agent_type_t.
Proof. solve_decision. Defined.

Global Instance role_eq_dec : EqDecision role.
Proof. solve_decision. Defined.

Global Instance item_type_eq_dec : EqDecision item_type_t.
Proof. solve_decision. Defined.

(** Field assignments [d['key'] = v]. *)
Definition set_health (v : Z) (a : agent) : agent :=
  mk_agent (agent_id a) (agent_type a) v (max_health a) (attack_power a)
    (base_attack_power a) (is_alive a) (x a) (y a) (role_name a) (role_data a).

Definition set_attack_power (v : Z) (a : agent) : agent :=
  mk_agent (agent_id a) (agent_type a) (health a) (max_health a) v
    (base_attack_power a) (is_alive a) (x a) (y a) (role_name a) (role_data a).

Definition set_is_alive (v : bool) (a : agent) : agent :=
  mk_agent (agent_id a) (agent_type a) (health a) (max_health a) (attack_power a)
    (base_attack_power a) v (x a) (y a) (role_name a) (role_data a).

Definition set_x (v : Z) (a : agent) : agent :=
  mk_agent (agent_id a) (agent_type a) (health a) (max_health a) (attack_power a)
    (base_attack_power a) (is_alive a) v (y a) (role_name a) (role_data a).

Definition set_y (v : Z) (a : agent) : agent :=
  mk_agent (agent_id a) (agent_type a) (health a) (max_health a) (attack_power a)
    (base_attack_power a) (is_alive a) (x a) v (role_name a) (role_data a).

Definition set_role_name (v : option role) (a : agent) : agent :=
  mk_agent (agent_id a) (agent_type a) (health a) (max_health a) (attack_power a)
    (base_attack_power a) (is_alive a) (x a) (y a) v (role_data a).

Definition set_role_data (v : role_data_t) (a : agent) : agent :=
  mk_agent (agent_id a) (agent_type a) (health a) (max_health a) (attack_power a)
    (base_attack_power a) (is_alive a) (x a) (y a) (role_name a) v.

Definition set_heal_charges (v : Z) (d : role_data_t) : role_data_t :=
  mk_role_data (Some v) (heal_amount d) (movement_range d)
    (attack_multiplier d) (critical_chance d).

(** ** Geometry: [calculate_distance], [find_nearest] *)

Definition calculate_distance (x1 y1 x2 y2 : Z) : dist :=
  Sqrt ((x1 - x2) ^ 2 + (y1 - y2) ^ 2).

(** [min(targets, key=...)]: the first element with the least key. *)
Fixpoint min_by {T : Type} (key : T -> dist) (best : T) (rest : list T) : T :=
  match rest with
  | [] => best
  | t :: rest' =>
      min_by key (if dist_ltb (key t) (key best) then t else best) rest'
  end.

Definition find_nearest {T : Type} (pos : T -> Z * Z) (a : agent)
    (targets : list T) : option T :=
  match targets with
  | [] => None
  | t :: rest =>
      Some (min_by (fun t => calculate_distance (x a) (y a) (fst (pos t)) (snd (pos t)))
              t rest)
  end.

Definition agent_pos (a : agent) : Z * Z := (x a, y a).
Definition item_pos (i : item) : Z * Z := (item_x i, item_y i).

(** ** The persistence layer ([zombie_db_layer.py]) as tables *)

Record game : Type := mk_game {
  agents : list agent;              (* table [agents] of the session *)
  items : list item;                (* table [items] *)
  combat_log : list combat_event;   (* table [combat_log], in insertion order *)
  session_round : Z;                (* [game_sessions.round_num] *)
  round_num : Z                     (* [self.round_num] *)
}.

(** [SELECT * FROM agents WHERE is_alive = TRUE AND agent_type = %s] *)
Definition get_alive_agents (t : agent_type_t) (gm : game) : list agent :=
  List.filter (fun a => is_alive a && bool_decide (agent_type a = t)) (agents gm).

(** [SELECT * FROM items WHERE picked_up = FALSE] *)
Definition get_available_items (gm : game) : list item :=
  List.filter (fun i => negb (picked_up i)) (items gm).

(** [UPDATE items SET picked_up = TRUE, picked_by_agent_id = %s WHERE item_id = %s],
    on one row and on the table. *)
Definition mark_picked (iid aid : Z) (i : item) : item :=
  if decide (item_id i = iid)
  then mk_item (item_id i) (item_type i) (item_x i) (item_y i) true (Some aid)
  else i.

Definition pick_up_item (iid aid : Z) (rows : list item) : list item :=
  map (mark_picked iid aid) rows.

(** A tuple of [updates] in [run_round]. *)
Record agent_update : Type := mk_update {
  u_health : Z;
  u_is_alive : bool;
  u_x : Z;
  u_y : Z;
  u_role_name : option role;
  u_role_data : role_data_t;
  u_agent_id : Z
}.

Definition update_of (a : agent) : agent_update :=
  mk_update (health a) (is_alive a) (x a) (y a) (role_name a) (role_data a) (agent_id a).

(** [UPDATE agents SET health, is_alive, x, y, role_name, role_data
    WHERE agent_id = %s], on one row. *)
Definition update_agent (u : agent_update) (row : agent) : agent :=
  if decide (agent_id row = u_agent_id u) then
    mk_agent (agent_id row) (agent_type row) (u_health u) (max_health row)
      (attack_power row) (base_attack_power row) (u_is_alive u) (u_x u) (u_y u)
      (u_role_name u) (u_role_data u)
  else row.

(** [execute_batch(cursor, update_sql, updates)].  The list gives the
    rows of the table in one order; SQL promises none to a SELECT without
    ORDER BY, and PostgreSQL hands rows that were updated back after the
    others.  A theorem about one round holds of the table in every order
    of its rows, hence in the order the SELECT of that round returns; what
    it says of the table after the round identifies rows by id or by a
    position that only names the row, and claims no order of them. *)
Definition batch_update_agents (updates : list agent_update) (rows : list agent) : list agent :=
  fold_left (fun rows u => map (update_agent u) rows) updates rows.

(** The row [log_combat] inserts for a combat result. *)
Definition event_of (round : Z) (c : combat) : combat_event :=
  mk_event round (attacker_id c) (target_id c) (damage c) (was_critical c).

(** [INSERT INTO combat_log ...].  The columns round_num and damage are
    INTEGERs: the statement is accepted when both values fit
    ([logged_within]) and raises otherwise.  The theorems on what the
    merge computes take the row as given; those on whether a round
    completes and on what the log then holds assume the limits of the
    section on the INTEGER columns, under which every row fits. *)
Definition log_combat (round : Z) (c : combat) (log : list combat_event) : list combat_event :=
  log ++ [event_of round c].

(** ** Worker threads: state shared under [state_lock], and exceptions *)

(** The result of a task: [future.result()] returns or raises. *)
Inductive outcome (A : Type) : Type :=
  | Returned (a : A)
  | Raised.
Arguments Returned {A} a.
Arguments Raised {A}.

Section Engine.
Context {R : Rng}.

(** [self.grid_size] *)
Variable grid_size : Z.

(** What the workers of one round share: the generator and the two buffers. *)
Record shared : Type := mk_shared {
  rng : rng_state;
  combat_buffer : list (option combat);
  item_pickups : list (Z * Z)
}.

Definition worker (A : Type) : Type := shared -> outcome A * shared.

Definition ret {A : Type} (a : A) : worker A := fun s => (Returned a, s).

Definition bind {A B : Type} (m : worker A) (k : A -> worker B) : worker B :=
  fun s =>
    match m s with
    | (Returned a, s') => k a s'
    | (Raised, s') => (Raised, s')
    end.

Notation "v <- m ;; k" := (bind m (fun v => k))
  (at level 100, m at next level, right associativity).

(** [random.random()] *)
Definition random_random : worker Q :=
  fun s =>
    let (u, g) := rng_random (rng s) in
    (Returned u, mk_shared g (combat_buffer s) (item_pickups s)).

(** [random.randint(a, b)]; an empty range raises [ValueError]. *)
Definition random_randint (a b : Z) : worker Z :=
  fun s =>
    if a <=? b then
      let (n, g) := rng_randint a b (rng s) in
      (Returned n, mk_shared g (combat_buffer s) (item_pickups s))
    else (Raised, s).

(** [with self.state_lock: self.combat_buffer.append(combat_result)] *)
Definition append_combat (c : option combat) : worker unit :=
  fun s => (Returned tt, mk_shared (rng s) (combat_buffer s ++ [c]) (item_pickups s)).

(** [with self.state_lock: self.item_pickups.append((item_id, agent_id))] *)
Definition append_pickup (p : Z * Z) : worker unit :=
  fun s => (Returned tt, mk_shared (rng s) (combat_buffer s) (item_pickups s ++ [p])).

(** The snapshot [game_state] handed to every worker. *)
Record game_state : Type := mk_game_state {
  gs_humans : list agent;
  gs_zombies : list agent;
  gs_items : list item
}.

(** ** [calculate_attack] *)

Definition calculate_attack (attacker target : agent) : worker (option combat) :=
  miss <- (if decide (agent_type attacker = Zombie)
           then u <- random_random ;; ret (Qltb u (2 # 10))
           else ret false) ;;
  if (miss : bool) then ret None
  else
    damage <- random_randint (py_int (mul_float (attack_power attacker) (1 # 2)))
                (attack_power attacker) ;;
    let attack_multiplier := default 1%Q (attack_multiplier (role_data attacker)) in
    crit <- (if decide (role_name attacker = Some Hunter)
             then u <- random_random ;; ret (Qltb u (3 # 10))
             else ret false) ;;
    let attack_multiplier :=
      if (crit : bool) then (attack_multiplier * (3 # 2))%Q else attack_multiplier in
    let damage := py_int (mul_float damage attack_multiplier) in
    ret (Some (mk_combat (agent_id attacker) (agent_id target) damage crit)).

(** ** [assign_role_to_human] *)

Definition assign_role_to_human (human : agent) (it : item) : agent :=
  match item_type it with
  | MedKit =>
      set_role_data (mk_role_data (Some 3) (Some (1 # 2)) None None None)
        (set_role_name (Some Doctor) human)
  | Sword =>
      set_role_data (mk_role_data None None None (Some (2 # 1)) (Some (3 # 10)))
        (set_attack_power (py_int (mul_float (base_attack_power human) (3 # 2)))
           (set_role_name (Some Hunter) human))
  end.

(** ** Movement *)

(** [max(0, min(self.grid_size - 1, v))] *)
Definition clamp (v : Z) : Z := Z.max 0 (Z.min (grid_size - 1) v).

(** [1 if t > s else -1 if t < s else 0] *)
Definition toward (t s : Z) : Z :=
  if s <? t then 1 else if t <? s then -1 else 0.

(** The two assignments to ['x'] and ['y'] of one step. *)
Definition move_step (dx dy : Z) (a : agent) : agent :=
  set_y (clamp (y a + dy)) (set_x (clamp (x a + dx)) a).

(** ** [process_human_turn] *)

(** Lines 116-124: the Doctor's self-heal. *)
Definition doctor_heal (human_update : agent) : agent :=
  if decide (role_name human_update = Some Doctor) then
    let rd := role_data human_update in
    let charges := default 3 (heal_charges rd) in
    if (0 <? charges)
       && Z_lt_float (health human_update) (mul_float (max_health human_update) (6 # 10))
    then
      let heal := py_int (mul_float (max_health human_update) (1 # 2)) in
      set_role_data (set_heal_charges (charges - 1) rd)
        (set_health (Z.min (health human_update + heal) (max_health human_update))
           human_update)
    else human_update
  else human_update.

(** Lines 139-157: attack the nearest zombie or step toward it. *)
Definition human_fight (human_update : agent) (gs : game_state) : worker agent :=
  match find_nearest agent_pos human_update (gs_zombies gs) with
  | None => ret human_update
  | Some nearest_zombie =>
      let distance := calculate_distance (x human_update) (y human_update)
                        (x nearest_zombie) (y nearest_zombie) in
      if within_reach distance then
        combat_result <- calculate_attack human_update nearest_zombie ;;
        _ <- append_combat combat_result ;;
        ret human_update
      else
        let dx := toward (x nearest_zombie) (x human_update) in
        let dy := toward (y nearest_zombie) (y human_update) in
        ret (move_step dx dy human_update)
  end.

(** Lines 126-137: the nearest item, when the human has no role and the
    item is within reach. *)
Definition item_in_reach (human_update : agent) (gs : game_state) : option item :=
  match role_name human_update with
  | Some _ => None
  | None =>
      match find_nearest item_pos human_update (gs_items gs) with
      | None => None
      | Some nearest_item =>
          if within_reach (calculate_distance (x human_update) (y human_update)
                             (item_x nearest_item) (item_y nearest_item))
          then Some nearest_item else None
      end
  end.

Definition process_human_turn (human : agent) (gs : game_state) : worker agent :=
  let human_update := doctor_heal human in
  match item_in_reach human_update gs with
  | Some nearest_item =>
      let human_update := assign_role_to_human human_update nearest_item in
      _ <- append_pickup (item_id nearest_item, agent_id human_update) ;;
      ret human_update
  | None => human_fight human_update gs
  end.

(** ** [process_zombie_turn] *)

Definition process_zombie_turn (zombie : agent) (gs : game_state) : worker agent :=
  let zombie_update := zombie in
  match find_nearest agent_pos zombie_update (gs_humans gs) with
  | None => ret zombie_update
  | Some nearest_human =>
      let distance := calculate_distance (x zombie_update) (y zombie_update)
                        (x nearest_human) (y nearest_human) in
      if within_reach distance then
        combat_result <- calculate_attack zombie_update nearest_human ;;
        _ <- append_combat combat_result ;;
        ret zombie_update
      else
        let movement_range := default 1%Q (movement_range (role_data zombie_update)) in
        let dx := toward (x nearest_human) (x zombie_update) in
        let dy := toward (y nearest_human) (y zombie_update) in
        if Qle_bool 1 movement_range then
          ret (Nat.iter (Z.to_nat (py_int movement_range)) (move_step dx dy) zombie_update)
        else
          u <- random_random ;;
          if Qltb u movement_range then ret (move_step dx dy zombie_update)
          else ret zombie_update
  end.

(** ** [apply_combat_results] *)

(** Lines 237-240, on the target's dictionary. *)
Definition hit (dmg : Z) (target : agent) : agent :=
  let target := set_health (health target - dmg) target in
  if health target <=? 0 then set_is_alive false (set_health 0 target) else target.

(** One iteration of the loop over [self.combat_buffer]. *)
Definition apply_combat (round : Z) (st : gmap Z agent * list combat_event)
    (c : option combat) : gmap Z agent * list combat_event :=
  match c with
  | None => st
  | Some c => (alter (hit (damage c)) (target_id c) (fst st), log_combat round c (snd st))
  end.

Definition apply_combat_results (round : Z) (agents_dict : gmap Z agent)
    (buffer : list (option combat)) (log : list combat_event)
    : gmap Z agent * list combat_event :=
  fold_left (apply_combat round) buffer (agents_dict, log).

(** ** [run_round] *)

(** The task submitted for an agent of the snapshot: [humans] holds the
    rows of type Human, [zombies] those of type Zombie. *)
Definition task_of (gs : game_state) (a : agent) : worker agent :=
  match agent_type a with
  | Human => process_human_turn a gs
  | Zombie => process_zombie_turn a gs
  end.

Definition find_task (id : Z) (tasks : list agent) : option agent :=
  List.find (fun a => agent_id a =? id) tasks.

(** What the two collection loops build: [updated_agents], and the ids
    reported by the [except] branches ("Error processing ..."). *)
Record collected : Type := mk_collected {
  updated_agents : gmap Z agent;
  errors : list Z
}.

(** One iteration of a collection loop: [try: updated_agents[agent_id] =
    future.result()], [except Exception: print(...)]. *)
Definition collect (c : collected) (id : Z) (out : outcome agent) : collected :=
  match out with
  | Returned updated_agent =>
      mk_collected (<[id := updated_agent]> (updated_agents c)) (errors c)
  | Raised => mk_collected (updated_agents c) (errors c ++ [id])
  end.

(** The tasks run in the order of [schedule], each on the shared state
    its predecessors left; an id that names no task of the round is
    passed over. *)
Fixpoint run_tasks (gs : game_state) (tasks : list agent) (schedule : list Z)
    (c : collected) (s : shared) : collected * shared :=
  match schedule with
  | [] => (c, s)
  | id :: rest =>
      match find_task id tasks with
      | None => run_tasks gs tasks rest c s
      | Some a =>
          let r := task_of gs a s in
          run_tasks gs tasks rest (collect c (agent_id a) (fst r)) (snd r)
      end
  end.

Definition snapshot (gm : game) : game_state :=
  mk_game_state (get_alive_agents Human gm) (get_alive_agents Zombie gm)
    (get_available_items gm).

(** Lines 269-317: snapshot, dispatch and collection. *)
Definition round_workers (schedule : list Z) (g : rng_state) (gm : game)
    : collected * shared :=
  let gs := snapshot gm in
  run_tasks gs (gs_humans gs ++ gs_zombies gs) schedule (mk_collected ∅ [])
    (mk_shared g [] []).

(** Lines 322-324. *)
Definition process_item_pickups (pickups : list (Z * Z)) (rows : list item) : list item :=
  fold_left (fun rows p => pick_up_item (fst p) (snd p) rows) pickups rows.

Definition run_round (schedule : list Z) (g : rng_state) (gm : game) : game * rng_state :=
  let round := round_num gm + 1 in
  let ws := round_workers schedule g gm in
  let merged := apply_combat_results round (updated_agents (fst ws))
                  (combat_buffer (snd ws)) (combat_log gm) in
  let updates := map update_of (map snd (map_to_list (fst merged))) in
  (mk_game (batch_update_agents updates (agents gm))
     (process_item_pickups (item_pickups (snd ws)) (items gm))
     (snd merged) round round,
   rng (snd ws)).

(** ** [is_game_over] and the loop of [run_game] *)

Definition is_game_over (gm : game) : bool :=
  (length (get_alive_agents Human gm) =? 0)%nat
  || (length (get_alive_agents Zombie gm) =? 0)%nat.

(** [while not self.is_game_over() and self.round_num < max_rounds:
    self.run_round()]; [rounds_left] bounds the iterations, each of which
    increments [round_num]. *)
Fixpoint game_loop (rounds_left : nat) (schedule_of : game -> list Z)
    (g : rng_state) (gm : game) : game * rng_state :=
  match rounds_left with
  | O => (gm, g)
  | S n =>
      if is_game_over gm then (gm, g)
      else
        let r := run_round (schedule_of gm) g gm in
        game_loop n schedule_of (snd r) (fst r)
  end.

(** The loop of [run_game], started with [max_rounds]. *)
Definition run_rounds (max_rounds : Z) (schedule_of : game -> list Z)
    (g : rng_state) (gm : game) : game * rng_state :=
  game_loop (Z.to_nat (max_rounds - round_num gm)) schedule_of g gm.

End Engine.

(** ** The in-memory siblings of [zombie_game4.py] *)

Module Game4.

(** A [Doctor] role object together with the health of its agent. *)
Record doctor : Type := mk_doctor {
  d_health : Z;
  d_max_health : Z;
  d_heal_charges : Z;
  d_heal_amount : Q
}.

(** [Doctor.use_special_ability]: the returned flag and the new state. *)
Definition use_special_ability (d : doctor) : bool * doctor :=
  if (0 <? d_heal_charges d)
     && Z_lt_float (d_health d) (mul_float (d_max_health d) (6 # 10))
  then
    let heal := py_int (mul_float (d_max_health d) (d_heal_amount d)) in
    (true, mk_doctor (Z.min (d_health d + heal) (d_max_health d)) (d_max_health d)
             (d_heal_charges d - 1) (d_heal_amount d))
  else (false, d).

(** [Agent.take_damage] *)
Definition take_damage (dmg : Z) (a : agent) : agent :=
  let a := set_health (health a - dmg) a in
  if health a <=? 0 then set_is_alive false (set_health 0 a) else a.

(** [item.picked_up = True] in [Human.assign_role]. *)
Definition set_picked_up (it : item) : item :=
  mk_item (item_id it) (item_type it) (item_x it) (item_y it) true
    (picked_by_agent_id it).

(** The position of the item object [k] of [self.items]. *)
Definition item_at (items : list item) (k : nat) : Z * Z :=
  match items !! k with
  | Some it => item_pos it
  | None => (0, 0)
  end.

(** [Human.decide_action], lines 267-273, with [pick_up_item] and
    [assign_role]: the item picked up, the human and [self.items]
    afterwards when the method returns after a pickup, None when it goes
    on to the zombies.  [snapshot] is [game_state['items']]: the list
    holds objects of [self.items], here their positions in it, not
    copies. *)
Definition decide_pick_up (h : agent) (snapshot : list nat) (items : list item)
    : option (nat * agent * list item) :=
  match role_name h with
  | Some _ => None
  | None =>
      match find_nearest (item_at items) h snapshot with
      | None => None
      | Some k =>
          match items !! k with
          | None => None
          | Some nearest_item =>
              if within_reach (calculate_distance (x h) (y h)
                                 (item_x nearest_item) (item_y nearest_item))
                 && negb (picked_up nearest_item)
              then Some (k, assign_role_to_human h nearest_item,
                         <[k := set_picked_up nearest_item]> items)
              else None
          end
      end
  end.

End Game4.

(** ** A generator that replays a tape of raw draws

    [random()] turns a draw [k] into [(k mod 100) / 100], [randint(a, b)]
    into [a + k mod (b - a + 1)]; an exhausted tape yields the least value. *)

Definition tape_random (g : list Z) : Q * list Z :=
  match g with
  | [] => (0%Q, [])
  | k :: g' => (k mod 100 # 100, g')
  end.

Definition tape_randint (a b : Z) (g : list Z) : Z * list Z :=
  match g with
  | [] => (a, [])
  | k :: g' => (a + k mod (b - a + 1), g')
  end.

Lemma tape_random_range (g : list Z) :
  (0 <= fst (tape_random g) /\ fst (tape_random g) < 1)%Q.
Proof.
  destruct g as [|k g]; simpl.
  - split; [apply Qle_refl | reflexivity].
  - pose proof (Z.mod_pos_bound k 100 ltac:(lia)) as Hk.
    unfold Qle, Qlt; simpl. lia.
Qed.

Lemma tape_randint_range (a b : Z) (g : list Z) :
  a <= b -> a <= fst (tape_randint a b g) <= b.
Proof.
  intros Hab. destruct g as [|k g]; simpl; [lia|].
  pose proof (Z.mod_pos_bound k (b - a + 1) ltac:(lia)). lia.
Qed.

Definition TapeRng : Rng :=
  {| rng_state := list Z;
     rng_random := tape_random;
     rng_randint := tape_randint;
     rng_random_range := tape_random_range;
     rng_randint_range := tape_randint_range |}.

(** ** Worlds used by the examples *)

(** The rows [spawn_agents] inserts (lines 34-45 and 51-73), with the id
    the table gives them; [roll] is the zombie's [random.random()]. *)
Definition new_human (id px py : Z) : agent :=
  mk_agent id Human 100 100 20 20 true px py None empty_role_data.

Definition zombie_role (roll : Q) : option role * role_data_t :=
  if Qltb roll (25 # 100) then
    (Some SpeedZombie, mk_role_data None None (Some (2 # 1)) (Some (6 # 10)) None)
  else if Qltb roll (50 # 100) then
    (Some TankZombie, mk_role_data None None (Some (1 # 2)) (Some (25 # 10)) None)
  else (None, empty_role_data).

Definition spawned_zombie (id px py : Z) (roll : Q) : agent :=
  mk_agent id Zombie 80 80 15 15 true px py
    (fst (zombie_role roll)) (snd (zombie_role roll)).

(** A zombie without a role. *)
Definition new_zombie (id px py : Z) : agent := spawned_zombie id px py (75 # 100).

Definition new_item (id : Z) (t : item_type_t) (px py : Z) : item :=
  mk_item id t px py false None.

Definition new_game (ags : list agent) (its : list item) : game :=
  mk_game ags its [] 0 0.

(** The 1v1 scenario: a human at (0,0) and a zombie at (0,1). *)
Definition duel : game := new_game [new_human 1 0 0; new_zombie 2 0 1] [].

(** Two humans within reach of a zombie that has 5 health left. *)
Definition weak_zombie (id px py : Z) : agent :=
  mk_agent id Zombie 5 80 15 15 true px py None empty_role_data.

Definition ambush : game :=
  new_game [new_human 1 0 0; new_human 3 1 0; weak_zombie 2 1 1] [].

(** Two humans without a role within reach of the same MedKit, a zombie
    far away. *)
Definition shared_medkit : game :=
  new_game [new_human 1 0 0; new_human 3 1 0; new_zombie 2 10 10]
    [new_item 7 MedKit 0 1].

(** The duel with a Sword within the human's reach. *)
Definition armory : game :=
  new_game [new_human 1 0 0; new_zombie 2 0 1] [new_item 5 Sword 1 1].

(** The duel with a human row whose attack_power is negative, so that
    [random.randint] raises in its task. *)
Definition broken_human (id px py : Z) : agent :=
  mk_agent id Human 100 100 (-5) 20 true px py None empty_role_data.

Definition faulty : game := new_game [broken_human 1 0 0; new_zombie 2 0 1] [].

(** A human in one corner and a Speed Zombie in the opposite one. *)
Definition chase : game :=
  new_game [new_human 1 0 0; spawned_zombie 2 19 19 (10 # 100)] [].

(** ** Predicates of the specification *)

(** The heal charges a Doctor has left: [role_data.get('heal_charges', 3)]. *)
Definition charges_left (a : agent) : Z := default 3 (heal_charges (role_data a)).

(** The Doctor's ability is due: health strictly below 0.6 of the maximum
    and a charge left. *)
Definition heal_due (a : agent) : Prop :=
  10 * health a < 6 * max_health a /\ 0 < charges_left a.

(** The state after a heal: half of the maximum (rounded down) added,
    capped at the maximum, and one charge fewer. *)
Definition healed (a : agent) : agent :=
  set_role_data (set_heal_charges (charges_left a - 1) (role_data a))
    (set_health (Z.min (health a + max_health a / 2) (max_health a)) a).

(** What a turn can make of an agent: any sequence of self-heals, role
    assignments and clamped steps. *)
Inductive turn_result (grid_size : Z) (a : agent) : agent -> Prop :=
  | turn_same : turn_result grid_size a a
  | turn_heal b : turn_result grid_size a b -> turn_result grid_size a (doctor_heal b)
  | turn_assign b it :
      turn_result grid_size a b -> turn_result grid_size a (assign_role_to_human b it)
  | turn_move b dx dy :
      turn_result grid_size a b -> turn_result grid_size a (move_step grid_size dx dy b).

(** The position lies inside the grid. *)
Definition in_grid (grid_size : Z) (a : agent) : Prop :=
  0 <= x a < grid_size /\ 0 <= y a < grid_size.

(** Health within bounds, and alive exactly when health is positive. *)
Definition health_ok (a : agent) : Prop :=
  0 <= health a <= max_health a /\ (is_alive a = true <-> 0 < health a).

(** The attack multiplier of the role data, when present, is not negative. *)
Definition multiplier_ok (a : agent) : Prop :=
  forall m, attack_multiplier (role_data a) = Some m -> (0 <= m)%Q.

(** The intents one task may leave in the buffers of the round: at most
    one combat result and at most one pickup, in the name of the agent,
    and none unless the task returns. *)
Definition is_returned {A : Type} (o : outcome A) : Prop :=
  match o with Returned _ => True | Raised => False end.

Definition combat_by (a : agent) (c : option combat) : Prop :=
  forall c', c = Some c' ->
    attacker_id c' = agent_id a /\ (multiplier_ok a -> 0 <= damage c').

(** What holds of the collected results and the buffers while the tasks
    of a round run: every updated agent is the turn result of the snapshot
    row it is filed under, and every buffered intent is in the name of an
    agent whose task returned. *)
Definition round_inv {R : Rng} (grid_size : Z) (tasks : list agent)
    (c : collected) (s : shared) : Prop :=
  (forall k a', updated_agents c !! k = Some a' ->
     exists a, In a tasks /\ agent_id a = k /\ turn_result grid_size a a')
  /\ (forall oc, In oc (combat_buffer s) ->
       exists a, In a tasks /\ combat_by a oc
                 /\ is_Some (updated_agents c !! agent_id a))
  /\ (forall p, In p (item_pickups s) -> is_Some (updated_agents c !! snd p)).

(** The state of the tables the health invariant is stated on: agent ids
    are a key, every row satisfies [health_ok] and [multiplier_ok]. *)
Definition game_ok (gm : game) : Prop :=
  List.NoDup (map agent_id (agents gm))
  /\ Forall health_ok (agents gm)
  /\ Forall multiplier_ok (agents gm).

(** An agent in flight that belongs to a row of the table [rows]: same id
    and max_health, healthy, alive while the workers run ([alive = true]). *)
Definition tracks (rows : list agent) (alive : bool) (a' : agent) : Prop :=
  (exists a, In a rows /\ agent_id a' = agent_id a /\ max_health a' = max_health a)
  /\ health_ok a' /\ multiplier_ok a'
  /\ (alive = true -> is_alive a' = true).

(** The events of the combat results of a buffer, misses left out. *)
Fixpoint events_of (round : Z) (buffer : list (option combat)) : list combat_event :=
  match buffer with
  | [] => []
  | Some c :: buffer' => event_of round c :: events_of round buffer'
  | None :: buffer' => events_of round buffer'
  end.

(** The dictionary part of the merge alone. *)
Definition merge_agents (buffer : list (option combat)) (m : gmap Z agent) : gmap Z agent :=
  fold_left (fun m oc =>
               match oc with
               | Some c => alter (hit (damage c)) (target_id c) m
               | None => m
               end) buffer m.

(** No combat result of the buffer has a negative damage. *)
Definition damages_nonneg (buffer : list (option combat)) : Prop :=
  Forall (fun oc => forall c, oc = Some c -> 0 <= damage c) buffer.


(** ** Further notions used by the properties of the engine *)

(** The distance [find_nearest] minimises, from agent [a] to a target. *)
Definition distance_to {T : Type} (pos : T -> Z * Z) (a : agent) (t : T) : dist :=
  calculate_distance (x a) (y a) (fst (pos t)) (snd (pos t)).

(** The number of king's moves between two cells. *)
Definition cheb (x1 y1 x2 y2 : Z) : Z := Z.max (Z.abs (x1 - x2)) (Z.abs (y1 - y2)).

(** The zombie's miss check of [calculate_attack] succeeds in state [s]. *)
Definition missed {R : Rng} (attacker : agent) (s : shared) : bool :=
  if decide (agent_type attacker = Zombie)
  then Qltb (fst (rng_random (rng s))) (2 # 10)
  else false.

(** The damage the combat results of a buffer aim at agent [k], and
    whether any does. *)
Fixpoint total_damage (k : Z) (buffer : list (option combat)) : Z :=
  match buffer with
  | [] => 0
  | Some c :: buffer' =>
      (if decide (target_id c = k) then damage c else 0) + total_damage k buffer'
  | None :: buffer' => total_damage k buffer'
  end.

Fixpoint targeted (k : Z) (buffer : list (option combat)) : bool :=
  match buffer with
  | [] => false
  | Some c :: buffer' => bool_decide (target_id c = k) || targeted k buffer'
  | None :: buffer' => targeted k buffer'
  end.


(** The agents an agent looks for: the other faction of the snapshot. *)
Definition opponents (a : agent) (gs : game_state) : list agent :=
  match agent_type a with
  | Human => gs_zombies gs
  | Zombie => gs_humans gs
  end.

(** Two states of an agent that differ at most in health and alive flag. *)
Definition same_frame (a b : agent) : Prop :=
  agent_id b = agent_id a /\ agent_type b = agent_type a
  /\ max_health b = max_health a /\ attack_power b = attack_power a
  /\ base_attack_power b = base_attack_power a
  /\ x b = x a /\ y b = y a
  /\ role_name b = role_name a /\ role_data b = role_data a.

(** Where the intents of a round come from: every updated agent is what
    the task of its snapshot row returned; every combat result was aimed
    by an agent of the snapshot at its nearest opponent, within reach;
    every pickup was made by a human without a role of the nearest item,
    within reach. *)
Definition provenance {R : Rng} (grid_size : Z) (gs : game_state) (tasks : list agent)
    (c : collected) (s : shared) : Prop :=
  (forall k a', updated_agents c !! k = Some a' ->
     exists a s0 s1, In a tasks /\ agent_id a = k
                     /\ task_of grid_size gs a s0 = (Returned a', s1))
  /\ (forall cb, In (Some cb) (combat_buffer s) ->
       exists a t, In a tasks /\ find_nearest agent_pos a (opponents a gs) = Some t
                   /\ within_reach (calculate_distance (x a) (y a) (x t) (y t)) = true
                   /\ attacker_id cb = agent_id a /\ target_id cb = agent_id t)
  /\ (forall p, In p (item_pickups s) ->
       exists h it, In h tasks /\ agent_type h = Human /\ role_name h = None
                    /\ find_nearest item_pos h (gs_items gs) = Some it
                    /\ within_reach (calculate_distance (x h) (y h) (item_x it) (item_y it))
                       = true
                    /\ p = (item_id it, agent_id h)).


(** The dictionary a round merges and writes back. *)
Definition merged_agents {R : Rng} (grid_size : Z) (schedule : list Z) (g : rng_state)
    (gm : game) : gmap Z agent :=
  fst (apply_combat_results (round_num gm + 1)
         (updated_agents (fst (round_workers grid_size schedule g gm)))
         (combat_buffer (snd (round_workers grid_size schedule g gm)))
         (combat_log gm)).


(** The role an item gives: [assign_role_to_human]'s two branches. *)
Definition role_of_item (it : item) : role :=
  match item_type it with
  | MedKit => Doctor
  | Sword => Hunter
  end.

(** The columns of an agent row that no UPDATE of the engine names. *)
Definition fixed_columns (a : agent) : Z * agent_type_t * Z * Z * Z :=
  (agent_id a, agent_type a, max_health a, attack_power a, base_attack_power a).


(** ** The rest of [run_game]: the winner *)

(** ["HUMANS WIN"], ["ZOMBIES WIN"], ["DRAW"] *)
Inductive winner_t : Type := HumansWin | ZombiesWin | DrawGame.

(** Lines 381-397 of [run_game]: the faction with more living agents. *)
Definition winner (gm : game) : winner_t :=
  let humans := get_alive_agents Human gm in
  let zombies := get_alive_agents Zombie gm in
  if (length zombies <? length humans)%nat then HumansWin
  else if (length humans <? length zombies)%nat then ZombiesWin
  else DrawGame.

(** ** [get_game_statistics] *)

(** [SUM(...)] over the selected rows: NULL when there is none. *)
Definition sql_sum (l : list Z) : option Z :=
  match l with
  | [] => None
  | _ => Some (fold_right Z.add 0 l)
  end.

(** The row of the second query: [COUNT( * )], [SUM(damage)] and
    [SUM(CASE WHEN was_critical THEN 1 ELSE 0 END)] over [combat_log]. *)
Record combat_statistics : Type := mk_combat_statistics {
  total_attacks : Z;
  logged_damage : option Z;
  critical_hits : option Z
}.

Definition get_combat_statistics (gm : game) : combat_statistics :=
  mk_combat_statistics
    (Z.of_nat (length (combat_log gm)))
    (sql_sum (map ev_damage (combat_log gm)))
    (sql_sum (map (fun e => if ev_critical e then 1 else 0) (combat_log gm))).

(** The row of the first query for one [agent_type], if the [GROUP BY]
    yields one: [COUNT( * )] and [SUM(CASE WHEN is_alive THEN 1 ELSE 0 END)]. *)
Definition get_agent_statistics (t : agent_type_t) (gm : game) : option (Z * Z) :=
  let rows := List.filter (fun a => bool_decide (agent_type a = t)) (agents gm) in
  match rows with
  | [] => None
  | _ => Some (Z.of_nat (length rows),
               fold_right Z.add 0 (map (fun a => if is_alive a then 1 else 0) rows))
  end.

(** ** [spawn_agents], [spawn_items] and the two batch inserts *)

(** A dictionary of [spawn_agents] or [spawn_items] before the table has
    given it an id. *)
Definition new_row (A : Type) : Type := Z -> A.

(** [execute_batch(cursor, insert_sql, values)]: the rows get the next
    values of the SERIAL column, [first_id] onward, in the order of the
    list. *)
Fixpoint number_rows {A : Type} (first_id : Z) (new : list (new_row A)) : list A :=
  match new with
  | [] => []
  | f :: new' => f first_id :: number_rows (first_id + 1) new'
  end.

Definition batch_insert_agents (first_id : Z) (new : list (new_row agent))
    (rows : list agent) : list agent :=
  rows ++ number_rows first_id new.

Definition insert_items (first_id : Z) (new : list (new_row item))
    (rows : list item) : list item :=
  rows ++ number_rows first_id new.

Section Spawn.
Context {R : Rng}.
Variable grid_size : Z.

(** Code that draws random numbers outside the worker tasks. *)
Definition gen (A : Type) : Type := rng_state -> outcome A * rng_state.

Definition gen_ret {A : Type} (a : A) : gen A := fun g => (Returned a, g).

Definition gen_bind {A B : Type} (m : gen A) (k : A -> gen B) : gen B :=
  fun g =>
    match m g with
    | (Returned a, g') => k a g'
    | (Raised, g') => (Raised, g')
    end.

Notation "v <~ m ;; k" := (gen_bind m (fun v => k))
  (at level 100, m at next level, right associativity).

Definition gen_random : gen Q := fun g => (Returned (fst (rng_random g)), snd (rng_random g)).

Definition gen_randint (a b : Z) : gen Z :=
  fun g =>
    if a <=? b then (Returned (fst (rng_randint a b g)), snd (rng_randint a b g))
    else (Raised, g).

(** Lines 31-45, [n] iterations. *)
Fixpoint spawn_humans (n : nat) : gen (list (new_row agent)) :=
  match n with
  | O => gen_ret []
  | S n' =>
      px <~ gen_randint 0 (grid_size / 2 - 1) ;;
      py <~ gen_randint 0 (grid_size - 1) ;;
      rest <~ spawn_humans n' ;;
      gen_ret ((fun id => new_human id px py) :: rest)
  end.

(** Lines 47-73, [n] iterations. *)
Fixpoint spawn_zombies (n : nat) : gen (list (new_row agent)) :=
  match n with
  | O => gen_ret []
  | S n' =>
      px <~ gen_randint (grid_size / 2) (grid_size - 1) ;;
      py <~ gen_randint 0 (grid_size - 1) ;;
      roll <~ gen_random ;;
      rest <~ spawn_zombies n' ;;
      gen_ret ((fun id => spawned_zombie id px py roll) :: rest)
  end.

(** The list [agents] that [spawn_agents] hands to [batch_insert_agents]. *)
Definition spawn_agents (num_humans num_zombies : Z) : gen (list (new_row agent)) :=
  humans <~ spawn_humans (Z.to_nat num_humans) ;;
  zombies <~ spawn_zombies (Z.to_nat num_zombies) ;;
  gen_ret (humans ++ zombies).

Fixpoint spawn_items_of (t : item_type_t) (n : nat) : gen (list (new_row item)) :=
  match n with
  | O => gen_ret []
  | S n' =>
      px <~ gen_randint 0 (grid_size - 1) ;;
      py <~ gen_randint 0 (grid_size - 1) ;;
      rest <~ spawn_items_of t n' ;;
      gen_ret ((fun id => new_item id t px py) :: rest)
  end.

(** The list [items] that [spawn_items] hands to [insert_items]. *)
Definition spawn_items (num_medkits num_swords : Z) : gen (list (new_row item)) :=
  medkits <~ spawn_items_of MedKit (Z.to_nat num_medkits) ;;
  swords <~ spawn_items_of Sword (Z.to_nat num_swords) ;;
  gen_ret (medkits ++ swords).

End Spawn.

(** The position of an item lies inside the grid. *)
Definition item_in_grid (grid_size : Z) (it : item) : Prop :=
  0 <= item_x it < grid_size /\ 0 <= item_y it < grid_size.

(** What [spawn_agents] appends for a human: the defaults of lines 34-45
    at a position of the left half of the grid. *)
Definition spawned_human_row (grid_size : Z) (f : new_row agent) : Prop :=
  exists px py,
    0 <= px < grid_size / 2 /\ 0 <= py < grid_size
    /\ forall id, f id = new_human id px py.

(** What it appends for a zombie: the defaults of lines 51-73 at a
    position of the right half, the role decided by a roll in [0, 1). *)
Definition spawned_zombie_row (grid_size : Z) (f : new_row agent) : Prop :=
  exists px py roll,
    grid_size / 2 <= px < grid_size /\ 0 <= py < grid_size
    /\ (0 <= roll /\ roll < 1)%Q
    /\ forall id, f id = spawned_zombie id px py roll.

(** What [spawn_items] appends: an item of type [t] inside the grid. *)
Definition spawned_item_row (grid_size : Z) (t : item_type_t) (f : new_row item) : Prop :=
  exists px py,
    0 <= px < grid_size /\ 0 <= py < grid_size
    /\ forall id, f id = new_item id t px py.

(** The ids [first_id], [first_id + 1], ... of [n] inserted rows. *)
Fixpoint serial_ids (first_id : Z) (n : nat) : list Z :=
  match n with
  | O => []
  | S n' => first_id :: serial_ids (first_id + 1) n'
  end.

(** ** The sequential engine [GameDB] of [zombie_game4.py]

    The second program of the file (from line 486) runs the same game on
    the same tables without threads: the turns of a round run one after
    the other on the dictionaries fetched at the start of the round, and
    [attack] changes the dictionary of the target at once. *)

Module GameDB.
Section Sequential.
Context {R : Rng}.

(** [self.grid_size] *)
Variable grid_size : Z.

Notation "v <~ m ;; k" := (gen_bind m (fun v => k))
  (at level 100, m at next level, right associativity).

(** [attack] (lines 660-701): the dictionary [target] as the call leaves
    it, and the rows its [log_combat] adds to [combat_log]. *)
Definition attack (round_num : Z) (attacker target : agent)
    : gen (agent * list combat_event) :=
  miss <~ (if decide (agent_type attacker = Zombie)
           then u <~ gen_random ;; gen_ret (Qltb u (2 # 10))
           else gen_ret false) ;;
  if (miss : bool) then gen_ret (target, [])
  else
    damage <~ gen_randint (py_int (mul_float (attack_power attacker) (1 # 2)))
                (attack_power attacker) ;;
    let attack_multiplier := default 1%Q (attack_multiplier (role_data attacker)) in
    was_critical <~ (if decide (role_name attacker = Some Hunter)
                     then u <~ gen_random ;; gen_ret (Qltb u (3 # 10))
                     else gen_ret false) ;;
    let attack_multiplier :=
      if (was_critical : bool) then (attack_multiplier * (3 # 2))%Q
      else attack_multiplier in
    let damage := py_int (mul_float damage attack_multiplier) in
    let target := set_health (health target - damage) target in
    let target :=
      if health target <=? 0 then set_is_alive false (set_health 0 target)
      else target in
    gen_ret (target,
             [mk_event round_num (agent_id attacker) (agent_id target) damage
                was_critical]).

(** What the turns of a round work on: the lists [humans] and [zombies]
    of [run_round], whose dictionaries the turns change in place, and the
    tables [items] and [combat_log], which [pick_up_item] and
    [log_combat] write at once. *)
Record round_state : Type := mk_round_state {
  st_humans : list agent;
  st_zombies : list agent;
  st_items : list item;
  st_log : list combat_event
}.

(** The elements of a list with their positions: [find_nearest] returns
    one of the dictionaries of the list, not a copy. *)
Definition indexed {A : Type} (l : list A) : list (nat * A) :=
  combine (seq 0 (length l)) l.

(** [process_human_turn] (lines 591-629) for [humans[i]]; [available] is
    [game_state['items']], the items fetched at the start of the round. *)
Definition process_human_turn (round_num : Z) (available : list item) (i : nat)
    (st : round_state) : gen round_state :=
  match st_humans st !! i with
  | None => gen_ret st
  | Some human =>
      let human := doctor_heal human in
      let gs := mk_game_state (st_humans st) (st_zombies st) available in
      match item_in_reach human gs with
      | Some nearest_item =>
          let human := assign_role_to_human human nearest_item in
          gen_ret (mk_round_state (<[i := human]> (st_humans st)) (st_zombies st)
                     (pick_up_item (item_id nearest_item) (agent_id human) (st_items st))
                     (st_log st))
      | None =>
          match find_nearest (fun p => agent_pos (snd p)) human
                  (indexed (st_zombies st)) with
          | None =>
              gen_ret (mk_round_state (<[i := human]> (st_humans st)) (st_zombies st)
                         (st_items st) (st_log st))
          | Some (j, nearest_zombie) =>
              let distance := calculate_distance (x human) (y human)
                                (x nearest_zombie) (y nearest_zombie) in
              if within_reach distance then
                r <~ attack round_num human nearest_zombie ;;
                gen_ret (mk_round_state (<[i := human]> (st_humans st))
                           (<[j := fst r]> (st_zombies st))
                           (st_items st) (st_log st ++ snd r))
              else
                let dx := toward (x nearest_zombie) (x human) in
                let dy := toward (y nearest_zombie) (y human) in
                gen_ret (mk_round_state
                           (<[i := move_step grid_size dx dy human]> (st_humans st))
                           (st_zombies st) (st_items st) (st_log st))
          end
      end
  end.

(** [process_zombie_turn] (lines 631-658) for [zombies[j]]. *)
Definition process_zombie_turn (round_num : Z) (j : nat) (st : round_state)
    : gen round_state :=
  match st_zombies st !! j with
  | None => gen_ret st
  | Some zombie =>
      match find_nearest (fun p => agent_pos (snd p)) zombie
              (indexed (st_humans st)) with
      | None => gen_ret st
      | Some (i, nearest_human) =>
          let distance := calculate_distance (x zombie) (y zombie)
                            (x nearest_human) (y nearest_human) in
          if within_reach distance then
            r <~ attack round_num zombie nearest_human ;;
            gen_ret (mk_round_state (<[i := fst r]> (st_humans st)) (st_zombies st)
                       (st_items st) (st_log st ++ snd r))
          else
            let movement_range := default 1%Q (movement_range (role_data zombie)) in
            let dx := toward (x nearest_human) (x zombie) in
            let dy := toward (y nearest_human) (y zombie) in
            let moved (z' : agent) :=
              mk_round_state (st_humans st) (<[j := z']> (st_zombies st))
                (st_items st) (st_log st) in
            if Qle_bool 1 movement_range then
              gen_ret (moved (Nat.iter (Z.to_nat (py_int movement_range))
                                (move_step grid_size dx dy) zombie))
            else
              u <~ gen_random ;;
              if Qltb u movement_range
              then gen_ret (moved (move_step grid_size dx dy zombie))
              else gen_ret st
      end
  end.

(** [for human in humans: ...], by position. *)
Fixpoint for_each (positions : list nat) (turn : nat -> round_state -> gen round_state)
    (st : round_state) : gen round_state :=
  match positions with
  | [] => gen_ret st
  | i :: rest => st' <~ turn i st ;; for_each rest turn st'
  end.

(** [run_round] (lines 715-750). *)
Definition run_round (gm : game) : gen game :=
  let round := round_num gm + 1 in
  let humans := get_alive_agents Human gm in
  let zombies := get_alive_agents Zombie gm in
  let available := get_available_items gm in
  st <~ for_each (seq 0 (length humans)) (process_human_turn round available)
          (mk_round_state humans zombies (items gm) (combat_log gm)) ;;
  st <~ for_each (seq 0 (length zombies)) (process_zombie_turn round) st ;;
  let all_agents := st_humans st ++ st_zombies st in
  let updates := map update_of all_agents in
  gen_ret (mk_game (batch_update_agents updates (agents gm)) (st_items st) (st_log st)
             round round).

End Sequential.
End GameDB.

(** Attack power and its base are not negative. *)
Definition power_ok (a : agent) : Prop :=
  0 <= attack_power a /\ 0 <= base_attack_power a.

(** ** The range of the INTEGER columns

    The columns of the tables are PostgreSQL INTEGERs: a statement that
    writes a value outside their range raises.  The rows of the model
    hold unbounded integers; where a theorem says that a round completes
    or what it leaves in a table, it assumes the limits below, under which
    every value the round writes fits its column. *)

Definition int4_max : Z := 2147483647.

Definition fits_int4 (z : Z) : Prop := - int4_max - 1 <= z <= int4_max.

(** A bound on attack power far above the 20 and 15 of [spawn_agents]. *)
Definition power_limit : Z := 100000000.

(** The attack multiplier of the role data is at most 2.5, the largest
    the code assigns. *)
Definition multiplier_le (a : agent) : Prop :=
  forall m, attack_multiplier (role_data a) = Some m -> (m <= 5 # 2)%Q.

(** A row whose max_health fits its column and whose attack power, also
    after a Hunter's boost and scaled by its multiplier and by a critical
    hit, yields damage that fits the column of the combat log. *)
Definition within_limits (a : agent) : Prop :=
  max_health a <= int4_max
  /\ attack_power a <= power_limit /\ base_attack_power a <= power_limit
  /\ multiplier_le a.

(** An attacker whose damage fits the column of the combat log: attack
    power up to the boost of [power_limit], multiplier in [0, 2.5]. *)
Definition strikes_within (a : agent) : Prop :=
  multiplier_ok a /\ attack_power a <= 3 * power_limit / 2 /\ multiplier_le a.

(** A row of [combat_log] of round [round] whose damage fits its column. *)
Definition logged_within (round : Z) (e : combat_event) : Prop :=
  ev_round e = round /\ 0 <= ev_damage e <= int4_max.

(** An agent dictionary while a sequential round runs: it belongs to a
    row of the table, stands inside the grid and attacks with a power that
    is not negative and within the limits. *)
Definition in_flight (grid_size : Z) (rows : list agent) (alive : bool) (a : agent)
    : Prop :=
  tracks rows alive a /\ in_grid grid_size a /\ power_ok a
  /\ attack_power a <= 3 * power_limit / 2 /\ base_attack_power a <= power_limit
  /\ multiplier_le a.

(** * Properties *)

(** ** Arithmetic of the float expressions *)

(** The rational constants stand for the doubles of the source: for every
    n up to 1000 the binary64 products by 0.5, 0.6, 1.5, 2.0, 2.5 and 3.0
    truncate and compare like the exact ones.  (The same check fails for
    0.7, the factor of [Human.attack] in [zombie_game4.py]: 90 * 0.7 is
    62.99999999999999 in binary64.) *)
Example float_products_as_exact :
  forallb (product_as_exact 0x1p-1%float 1 2) (seq 0 1001) = true
  /\ forallb (product_as_exact 0x1.3333333333333p-1%float 6 10) (seq 0 1001) = true
  /\ forallb (product_as_exact 0x1.8p+0%float 3 2) (seq 0 1001) = true
  /\ forallb (product_as_exact 0x1p+1%float 2 1) (seq 0 1001) = true
  /\ forallb (product_as_exact 0x1.4p+1%float 25 10) (seq 0 1001) = true
  /\ forallb (product_as_exact 0x1.8p+1%float 3 1) (seq 0 1001) = true
  /\ product_as_exact 0x1.6666666666666p-1%float 7 10 90 = false.
Proof. repeat split; vm_compute; reflexivity. Qed.

(** The range of the symbolic distances, against binary64: the square
    roots of neighbouring integers differ up to [distance_limit] (here
    at its upper end, at its lower end and at a sample in between), the
    test against 1.5 holds of 2 and fails of 3, and above 2^52 the square
    roots of 70000000^2 and of the next integer are the same number. *)
Example distances_as_exact :
  forallb (fun k => sqrt_separates (distance_limit - Z.of_nat k)) (seq 0 1000) = true
  /\ forallb (fun k => sqrt_separates (1 + Z.of_nat k)) (seq 0 1000) = true
  /\ forallb (fun k => sqrt_separates (2 ^ 40 + 104729 * Z.of_nat k)) (seq 0 1000) = true
  /\ PrimFloat.leb (sqrt_binary64 2) 1.5%float = true
  /\ PrimFloat.leb (sqrt_binary64 3) 1.5%float = false
  /\ sqrt_separates (70000000 ^ 2 + 1) = false.
Proof. vm_compute. repeat split. Qed.

Lemma py_int_half (n : Z) : py_int (mul_float n (1 # 2)) = Z.quot n 2.
Proof. unfold py_int, mul_float; simpl. f_equal; lia. Qed.

Lemma py_int_half_nonneg (n : Z) : 0 <= n -> py_int (mul_float n (1 # 2)) = n / 2.
Proof. intros Hn. rewrite py_int_half. apply Z.quot_div_nonneg; lia. Qed.

Lemma py_int_three_halves (n : Z) : 0 <= n -> py_int (mul_float n (3 # 2)) = 3 * n / 2.
Proof.
  intros Hn. unfold py_int, mul_float; simpl.
  rewrite Z.quot_div_nonneg by lia. f_equal; lia.
Qed.

Lemma py_int_nonneg (q : Q) : (0 <= q)%Q -> 0 <= py_int q.
Proof.
  destruct q as [n d]. unfold Qle, py_int; simpl. intros Hq.
  apply Z.quot_pos; lia.
Qed.

Lemma Z_lt_float_six_tenths (h m : Z) :
  Z_lt_float h (mul_float m (6 # 10)) = true <-> 10 * h < 6 * m.
Proof.
  unfold Z_lt_float, Qltb, mul_float.
  rewrite negb_true_iff, <- not_true_iff_false, Qle_bool_iff.
  unfold Qle; simpl. lia.
Qed.

(** ** The Doctor's self-heal *)

Lemma healed_changes (a : agent) : healed a <> a.
Proof.
  unfold healed, charges_left. intros Heq.
  apply (f_equal (fun b => heal_charges (role_data b))) in Heq. simpl in Heq.
  destruct (heal_charges (role_data a)); simpl in Heq; [injection Heq; lia | discriminate].
Qed.

Lemma doctor_heal_due (a : agent) :
  role_name a = Some Doctor -> 0 <= max_health a -> heal_due a ->
  doctor_heal a = healed a.
Proof.
  intros Hrole Hmax [Hlow Hch]. unfold doctor_heal, healed.
  rewrite decide_True by assumption.
  fold (charges_left a).
  assert (Hc : (0 <? charges_left a) = true) by (apply Z.ltb_lt; lia).
  assert (Hh : Z_lt_float (health a) (mul_float (max_health a) (6 # 10)) = true)
    by (apply Z_lt_float_six_tenths; lia).
  rewrite Hc, Hh. simpl. rewrite py_int_half_nonneg by assumption. reflexivity.
Qed.

Lemma doctor_heal_not_due (a : agent) : ~ heal_due a -> doctor_heal a = a.
Proof.
  intros Hnot. unfold doctor_heal.
  destruct (decide (role_name a = Some Doctor)); [|reflexivity].
  fold (charges_left a).
  destruct (0 <? charges_left a) eqn:Hc; simpl; [|reflexivity].
  destruct (Z_lt_float _ _) eqn:Hh; [|reflexivity].
  exfalso. apply Hnot. split.
  - apply Z_lt_float_six_tenths; assumption.
  - apply Z.ltb_lt; assumption.
Qed.

(** C7. A Doctor's special ability fires exactly when health is strictly
    below 0.6 of max_health and a heal charge is left; when it fires,
    health grows by floor(0.5 * max_health), capped at max_health, and the
    charges drop by one, nothing else changing; otherwise the agent is
    unchanged. *)
Theorem doctor_special_ability (a : agent) :
  role_name a = Some Doctor -> 0 <= max_health a ->
  (doctor_heal a <> a <-> heal_due a)
  /\ (heal_due a ->
      doctor_heal a = healed a
      /\ health (doctor_heal a) = Z.min (health a + max_health a / 2) (max_health a)
      /\ charges_left (doctor_heal a) = charges_left a - 1)
  /\ (~ heal_due a -> doctor_heal a = a).
Proof.
  intros Hrole Hmax. split; [|split].
  - split.
    + intros Hchg. destruct (decide (10 * health a < 6 * max_health a)) as [Hl|Hl];
        [destruct (decide (0 < charges_left a)) as [Hc|Hc]|].
      * split; assumption.
      * exfalso. apply Hchg, doctor_heal_not_due. unfold heal_due. lia.
      * exfalso. apply Hchg, doctor_heal_not_due. unfold heal_due. lia.
    + intros Hdue. rewrite doctor_heal_due by assumption. apply healed_changes.
  - intros Hdue. rewrite doctor_heal_due by assumption. repeat split.
  - apply doctor_heal_not_due.
Qed.

Lemma doctor_special_ability_witness :
  let a := mk_agent 1 Human 40 100 20 20 true 0 0 (Some Doctor)
             (mk_role_data (Some 3) (Some (1 # 2)) None None None) in
  health (doctor_heal a) = 90 /\ charges_left (doctor_heal a) = 2.
Proof.
  intros a.
  destruct (doctor_special_ability a) as (_ & Hfire & _);
    [reflexivity | simpl; lia |].
  destruct Hfire as (_ & Hh & Hc); [unfold heal_due, charges_left; simpl; lia |].
  rewrite Hh, Hc. split; reflexivity.
Defined.

(** ** The siblings of [zombie_game4.py] agree with the threaded engine *)

Lemma take_damage_hit (d : Z) (a : agent) : Game4.take_damage d a = hit d a.
Proof. reflexivity. Qed.

Lemma use_special_ability_doctor_heal (a : agent) (c : Z) :
  role_name a = Some Doctor -> heal_charges (role_data a) = Some c ->
  let r := Game4.use_special_ability (Game4.mk_doctor (health a) (max_health a) c (1 # 2)) in
  Game4.d_health (snd r) = health (doctor_heal a)
  /\ Some (Game4.d_heal_charges (snd r)) = heal_charges (role_data (doctor_heal a))
  /\ (fst r = true <-> doctor_heal a <> a).
Proof.
  intros Hrole Hc r. subst r. unfold Game4.use_special_ability, doctor_heal; simpl.
  rewrite decide_True by assumption. rewrite Hc; simpl.
  destruct ((0 <? c) && Z_lt_float (health a) (mul_float (max_health a) (6 # 10))) eqn:Hdue;
    simpl.
  - split; [reflexivity |]. split; [reflexivity |]. split; [|reflexivity].
    intros _ Heq. apply (f_equal (fun b => heal_charges (role_data b))) in Heq.
    simpl in Heq. rewrite Hc in Heq. injection Heq. lia.
  - rewrite Hc. split; [reflexivity |]. split; [reflexivity |].
    split; [discriminate | intros Hne; contradiction].
Qed.

(** ** The rows of [spawn_agents] *)

Lemma spawned_rows_ok (id px py : Z) (roll : Q) :
  health_ok (new_human id px py) /\ multiplier_ok (new_human id px py)
  /\ health_ok (spawned_zombie id px py roll)
  /\ multiplier_ok (spawned_zombie id px py roll).
Proof.
  unfold health_ok, multiplier_ok, spawned_zombie, zombie_role; simpl.
  split; [split; [lia | split; [lia | reflexivity]] |].
  split; [discriminate |].
  split; [split; [lia | split; [lia | reflexivity]] |].
  intros m. destruct (Qltb roll (25 # 100)); [|destruct (Qltb roll (50 # 100))];
    simpl; intros Hm; inversion Hm; subst; discriminate.
Qed.

(** ** One worker task *)

Section WorkerFacts.
Context {R : Rng}.
Variable grid_size : Z.

(** Case analysis along the control flow of a worker, on the goal. *)
Ltac run_worker :=
  repeat (cbn [fst snd rng combat_buffer item_pickups];
    match goal with
    | |- context [rng_random ?g] => destruct (rng_random g) as [? ?]
    | |- context [rng_randint ?a ?b ?g] =>
        let Hr := fresh "Hrange" in
        pose proof (rng_randint_range a b g) as Hr;
        destruct (rng_randint a b g) as [? ?]; cbn [fst] in Hr
    | |- context [if ?b then _ else _] => destruct b eqn:?
    | |- context [match ?v with _ => _ end] => destruct v eqn:?
    end).

Lemma quot_half_le (n : Z) : Z.quot n 2 <= n -> 0 <= Z.quot n 2.
Proof.
  intros Hle. destruct (Z_lt_le_dec n 0) as [Hneg|Hpos].
  - exfalso. pose proof (Z.quot_rem' n 2) as Hqr.
    pose proof (Z.rem_bound_pos_neg n 2 ltac:(lia) ltac:(lia)). lia.
  - apply Z.quot_pos; lia.
Qed.

Lemma multiplier_default_nonneg (a : agent) :
  multiplier_ok a -> (0 <= default 1%Q (attack_multiplier (role_data a)))%Q.
Proof.
  intros Hm. destruct (attack_multiplier (role_data a)) as [m|] eqn:Heq; simpl.
  - apply Hm. assumption.
  - discriminate.
Qed.

Lemma scaled_damage_nonneg (n : Z) (m : Q) :
  0 <= n -> (0 <= m)%Q -> 0 <= py_int (mul_float n m).
Proof.
  intros Hn Hm. apply py_int_nonneg. unfold mul_float.
  apply Qmult_le_0_compat; [|assumption].
  unfold Qle; simpl. lia.
Qed.

Lemma base_damage_nonneg (ap n : Z) :
  (py_int (mul_float ap (1 # 2)) <=? ap) = true ->
  py_int (mul_float ap (1 # 2)) <= n -> 0 <= n.
Proof.
  rewrite py_int_half. intros Hle Hn. apply Z.leb_le in Hle.
  pose proof (quot_half_le ap Hle). lia.
Qed.

(** [calculate_attack] appends nothing itself; what it returns names the
    attacker and the target, and its damage is not negative. *)
Lemma calculate_attack_spec (attacker target : agent) (s s' : shared)
    (out : outcome (option combat)) :
  calculate_attack attacker target s = (out, s') ->
  combat_buffer s' = combat_buffer s /\ item_pickups s' = item_pickups s
  /\ forall c, out = Returned (Some c) ->
       attacker_id c = agent_id attacker /\ target_id c = agent_id target
       /\ (multiplier_ok attacker -> 0 <= damage c).
Proof.
  unfold calculate_attack, bind, random_random, random_randint, ret.
  run_worker; intros Hrun; inversion Hrun; subst; clear Hrun;
    cbn [combat_buffer item_pickups];
    (split; [reflexivity | split; [reflexivity |]]);
    intros cb Hcb; inversion Hcb; subst; clear Hcb;
    cbn [attacker_id target_id damage];
    (split; [reflexivity | split; [reflexivity |]]); intros Hmult.
  all: match goal with
       | Hb : (_ <=? _) = true, Hr : _ -> _ <= ?n <= _ |- _ =>
           pose proof (base_damage_nonneg _ n Hb (proj1 (Hr (proj1 (Z.leb_le _ _) Hb))))
       end.
  all: apply scaled_damage_nonneg; [assumption |].
  all: pose proof (multiplier_default_nonneg attacker Hmult) as Hd; try assumption.
  all: apply Qmult_le_0_compat; [assumption | discriminate].
Qed.

Lemma py_int_inject (n : Z) : py_int (mul_float n 1) = n.
Proof. unfold py_int, mul_float; simpl. rewrite Z.mul_1_r. apply Z.quot_1_r. Qed.

(** The damage rule of [calculate_attack], for every attacker alike: a
    base drawn from [int(0.5 * attack_power), attack_power], scaled by the
    multiplier of the role data (times 1.5 on a Hunter's critical hit) and
    truncated. *)
Lemma calculate_attack_damage (attacker target : agent) (s s' : shared) (c : combat) :
  calculate_attack attacker target s = (Returned (Some c), s') ->
  exists base,
    Z.quot (attack_power attacker) 2 <= base <= attack_power attacker
    /\ damage c
       = py_int (mul_float base
                   (if was_critical c
                    then (default 1%Q (attack_multiplier (role_data attacker)) * (3 # 2))%Q
                    else default 1%Q (attack_multiplier (role_data attacker))))
    /\ (was_critical c = true -> role_name attacker = Some Hunter).
Proof.
  unfold calculate_attack, bind, random_random, random_randint, ret.
  rewrite py_int_half.
  run_worker; intros Hrun; inversion Hrun; subst; clear Hrun;
    cbn [damage was_critical];
    match goal with
    | Hb : (_ <=? _) = true, Hr : _ -> _ <= ?n <= _ |- _ =>
        exists n; split; [apply Hr, Z.leb_le, Hb |]
    end; split; try reflexivity; try discriminate; intros _; assumption.
Qed.

(** Without a role the damage is the base itself. *)
Lemma roleless_damage_range (attacker target : agent) (s s' : shared) (c : combat) :
  calculate_attack attacker target s = (Returned (Some c), s') ->
  role_name attacker = None -> attack_multiplier (role_data attacker) = None ->
  Z.quot (attack_power attacker) 2 <= damage c <= attack_power attacker.
Proof.
  intros Hrun Hrole Hmult.
  apply calculate_attack_damage in Hrun as (base & Hrange & Hdmg & Hcrit).
  destruct (was_critical c).
  - rewrite Hrole in Hcrit. discriminate (Hcrit eq_refl).
  - rewrite Hdmg, Hmult. simpl. rewrite py_int_inject. assumption.
Qed.

(** *** Fields a turn leaves alone *)

Lemma doctor_heal_frame (a : agent) :
  agent_id (doctor_heal a) = agent_id a
  /\ agent_type (doctor_heal a) = agent_type a
  /\ max_health (doctor_heal a) = max_health a
  /\ attack_power (doctor_heal a) = attack_power a
  /\ base_attack_power (doctor_heal a) = base_attack_power a
  /\ is_alive (doctor_heal a) = is_alive a
  /\ x (doctor_heal a) = x a /\ y (doctor_heal a) = y a
  /\ role_name (doctor_heal a) = role_name a
  /\ attack_multiplier (role_data (doctor_heal a)) = attack_multiplier (role_data a).
Proof.
  unfold doctor_heal.
  destruct (decide _); [destruct (_ && _)|]; repeat split.
Qed.

Lemma doctor_heal_multiplier_ok (a : agent) :
  multiplier_ok a -> multiplier_ok (doctor_heal a).
Proof.
  unfold multiplier_ok. intros Hm m.
  destruct (doctor_heal_frame a) as (_ & _ & _ & _ & _ & _ & _ & _ & _ & ->).
  apply Hm.
Qed.

Lemma assign_role_frame (a : agent) (it : item) :
  agent_id (assign_role_to_human a it) = agent_id a
  /\ agent_type (assign_role_to_human a it) = agent_type a
  /\ health (assign_role_to_human a it) = health a
  /\ max_health (assign_role_to_human a it) = max_health a
  /\ base_attack_power (assign_role_to_human a it) = base_attack_power a
  /\ is_alive (assign_role_to_human a it) = is_alive a
  /\ x (assign_role_to_human a it) = x a /\ y (assign_role_to_human a it) = y a.
Proof. unfold assign_role_to_human. destruct (item_type it); repeat split. Qed.

Lemma move_step_frame (dx dy : Z) (a : agent) :
  agent_id (move_step grid_size dx dy a) = agent_id a
  /\ agent_type (move_step grid_size dx dy a) = agent_type a
  /\ health (move_step grid_size dx dy a) = health a
  /\ max_health (move_step grid_size dx dy a) = max_health a
  /\ attack_power (move_step grid_size dx dy a) = attack_power a
  /\ base_attack_power (move_step grid_size dx dy a) = base_attack_power a
  /\ is_alive (move_step grid_size dx dy a) = is_alive a
  /\ role_name (move_step grid_size dx dy a) = role_name a
  /\ role_data (move_step grid_size dx dy a) = role_data a.
Proof. repeat split. Qed.

(** What [assign_role_to_human] installs. *)
Lemma assign_role_to_human_spec (a : agent) (it : item) :
  0 <= base_attack_power a ->
  match item_type it with
  | Sword =>
      role_name (assign_role_to_human a it) = Some Hunter
      /\ attack_power (assign_role_to_human a it) = 3 * base_attack_power a / 2
      /\ attack_multiplier (role_data (assign_role_to_human a it)) = Some (2 # 1)
  | MedKit =>
      role_name (assign_role_to_human a it) = Some Doctor
      /\ attack_power (assign_role_to_human a it) = attack_power a
      /\ heal_charges (role_data (assign_role_to_human a it)) = Some 3
  end.
Proof.
  intros Hbase. unfold assign_role_to_human. destruct (item_type it); simpl.
  - repeat split.
  - rewrite py_int_three_halves by assumption. repeat split.
Qed.

Lemma turn_result_iter (a b : agent) (dx dy : Z) (n : nat) :
  turn_result grid_size a b ->
  turn_result grid_size a (Nat.iter n (move_step grid_size dx dy) b).
Proof.
  intros Hb. induction n as [|n IH]; simpl; [assumption | constructor; assumption].
Qed.

(** *** The two turn functions *)

Lemma human_fight_spec (h : agent) (gs : game_state) (s s' : shared)
    (out : outcome agent) :
  human_fight grid_size h gs s = (out, s') ->
  item_pickups s' = item_pickups s
  /\ (combat_buffer s' = combat_buffer s
      \/ is_returned out /\ exists c, combat_buffer s' = combat_buffer s ++ [c] /\ combat_by h c)
  /\ forall h', out = Returned h' -> h' = h \/ exists dx dy, h' = move_step grid_size dx dy h.
Proof.
  unfold human_fight, bind, append_combat, ret.
  run_worker; intros Hrun; inversion Hrun; subst; clear Hrun;
    cbn [combat_buffer item_pickups];
    try match goal with
        | Hc : calculate_attack _ _ _ = _ |- _ =>
            pose proof (calculate_attack_spec _ _ _ _ _ Hc) as (Hbuf & Hpick & Hspec)
        end.
  all: split; [congruence |].
  all: split; [| intros h' Hh'; inversion Hh'; subst; eauto].
  all: try (left; congruence).
  right. split; [exact I |]. eexists. split; [rewrite Hbuf; reflexivity |].
  intros c' ->. destruct (Hspec c' eq_refl) as (Hatt & _ & Hdmg). split; assumption.
Qed.

Lemma min_by_In {T : Type} (key : T -> dist) (best : T) (rest : list T) :
  In (min_by key best rest) (best :: rest).
Proof.
  revert best. induction rest as [|t rest IH]; intros best; simpl; [left; reflexivity |].
  destruct (IH (if dist_ltb (key t) (key best) then t else best)) as [Heq|Hin].
  - destruct (dist_ltb (key t) (key best)); rewrite <- Heq; auto.
  - right; right; assumption.
Qed.

Lemma find_nearest_In {T : Type} (pos : T -> Z * Z) (a : agent) (targets : list T) (t : T) :
  find_nearest pos a targets = Some t -> In t targets.
Proof.
  destruct targets as [|t0 rest]; simpl; [discriminate |].
  intros Heq; inversion Heq; subst. apply min_by_In.
Qed.

Lemma item_in_reach_spec (h : agent) (gs : game_state) (it : item) :
  item_in_reach h gs = Some it -> role_name h = None /\ In it (gs_items gs).
Proof.
  unfold item_in_reach. destruct (role_name h); [discriminate |].
  destruct (find_nearest item_pos h (gs_items gs)) as [ni|] eqn:Hfind; [|discriminate].
  destruct (within_reach _); [|discriminate].
  intros Heq; inversion Heq; subst. split; [reflexivity |].
  eapply find_nearest_In; eassumption.
Qed.

Lemma combat_by_doctor_heal (h : agent) (c : option combat) :
  combat_by (doctor_heal h) c -> combat_by h c.
Proof.
  unfold combat_by. intros Hc c' Heq. destruct (Hc c' Heq) as [Hid Hdmg].
  destruct (doctor_heal_frame h) as (Hid' & _). split; [congruence |].
  intros Hm. apply Hdmg, doctor_heal_multiplier_ok, Hm.
Qed.

Lemma process_human_turn_spec (h : agent) (gs : game_state) (s s' : shared)
    (out : outcome agent) :
  process_human_turn grid_size h gs s = (out, s') ->
  (combat_buffer s' = combat_buffer s
   \/ is_returned out /\ exists c, combat_buffer s' = combat_buffer s ++ [c] /\ combat_by h c)
  /\ (item_pickups s' = item_pickups s
      \/ is_returned out /\ exists it, In it (gs_items gs)
           /\ item_pickups s' = item_pickups s ++ [(item_id it, agent_id h)])
  /\ forall h', out = Returned h' -> turn_result grid_size h h'.
Proof.
  unfold process_human_turn.
  destruct (item_in_reach (doctor_heal h) gs) as [it|] eqn:Hitem.
  - apply item_in_reach_spec in Hitem as [_ Hin].
    unfold bind, append_pickup, ret. intros Hrun; inversion Hrun; subst; clear Hrun.
    cbn [combat_buffer item_pickups]. split; [left; reflexivity |]. split.
    + right. split; [exact I |]. exists it. split; [assumption |].
      destruct (doctor_heal_frame h) as (Hid & _).
      destruct (assign_role_frame (doctor_heal h) it) as (Hid' & _).
      rewrite Hid', Hid. reflexivity.
    + intros h' Hh'; inversion Hh'; subst. repeat constructor.
  - intros Hrun. apply human_fight_spec in Hrun as (Hpick & Hbuf & Hres).
    split; [|split].
    + destruct Hbuf as [Hbuf | (Hret & c & Hbuf & Hby)]; [left; assumption |].
      right. split; [assumption |]. exists c. split; [assumption |].
      apply combat_by_doctor_heal; assumption.
    + left; assumption.
    + intros h' Hh'. destruct (Hres h' Hh') as [-> | (dx & dy & ->)];
        repeat constructor.
Qed.

Lemma process_zombie_turn_spec (z : agent) (gs : game_state) (s s' : shared)
    (out : outcome agent) :
  process_zombie_turn grid_size z gs s = (out, s') ->
  (combat_buffer s' = combat_buffer s
   \/ is_returned out /\ exists c, combat_buffer s' = combat_buffer s ++ [c] /\ combat_by z c)
  /\ item_pickups s' = item_pickups s
  /\ forall z', out = Returned z' -> turn_result grid_size z z'.
Proof.
  unfold process_zombie_turn, bind, append_combat, random_random, ret.
  run_worker; intros Hrun; inversion Hrun; subst; clear Hrun;
    cbn [combat_buffer item_pickups];
    try match goal with
        | Hc : calculate_attack _ _ _ = _ |- _ =>
            pose proof (calculate_attack_spec _ _ _ _ _ Hc) as (Hbuf & Hpick & Hspec)
        end.
  all: split;
    [| split; [congruence |
               intros z' Hz'; inversion Hz'; subst;
               first [apply turn_result_iter; constructor | repeat constructor]]].
  all: try (left; congruence).
  all: right; split; [exact I |]; eexists; split; [rewrite Hbuf; reflexivity |].
  all: intros c' ->; destruct (Hspec c' eq_refl) as (Hatt & _ & Hdmg); split; assumption.
Qed.

(** Every task: at most one combat result and one pickup, both in the
    agent's name and only when the task returns; the returned agent is a
    [turn_result] of the snapshot row. *)
Lemma task_of_spec (a : agent) (gs : game_state) (s s' : shared) (out : outcome agent) :
  task_of grid_size gs a s = (out, s') ->
  (combat_buffer s' = combat_buffer s
   \/ is_returned out /\ exists c, combat_buffer s' = combat_buffer s ++ [c] /\ combat_by a c)
  /\ (item_pickups s' = item_pickups s
      \/ is_returned out /\ exists iid, item_pickups s' = item_pickups s ++ [(iid, agent_id a)])
  /\ forall a', out = Returned a' -> turn_result grid_size a a'.
Proof.
  unfold task_of. destruct (agent_type a); intros Hrun.
  - apply process_human_turn_spec in Hrun as (Hbuf & Hpick & Hres).
    split; [assumption |]. split; [|assumption].
    destruct Hpick as [Hpick | (Hret & it & _ & Hpick)]; [left; assumption |].
    right. split; [assumption |]. exists (item_id it). assumption.
  - apply process_zombie_turn_spec in Hrun as (Hbuf & Hpick & Hres).
    split; [assumption |]. split; [left; assumption | assumption].
Qed.

Lemma doctor_heal_no_role (h : agent) : role_name h = None -> doctor_heal h = h.
Proof.
  intros Hrole. unfold doctor_heal. rewrite Hrole.
  destruct (decide (None = Some Doctor)); [discriminate | reflexivity].
Qed.

(** C10. With no living agent of the opposing faction in the snapshot, a
    turn neither attacks nor moves: a zombie is returned as it was and
    nothing shared is touched; a human is returned either after the
    self-heal step alone or after picking up an item (possible only
    without a role), with identity, faction, max_health,
    base_attack_power, alive flag and position unchanged and no combat
    result or random draw made. *)
Theorem no_opponent_turn :
  (forall (z : agent) (gs : game_state) (s : shared),
     gs_humans gs = [] ->
     process_zombie_turn grid_size z gs s = (Returned z, s))
  /\ (forall (h : agent) (gs : game_state) (s : shared),
     gs_zombies gs = [] ->
     exists h' s',
       process_human_turn grid_size h gs s = (Returned h', s')
       /\ combat_buffer s' = combat_buffer s /\ rng s' = rng s
       /\ agent_id h' = agent_id h /\ agent_type h' = agent_type h
       /\ max_health h' = max_health h
       /\ base_attack_power h' = base_attack_power h
       /\ is_alive h' = is_alive h /\ x h' = x h /\ y h' = y h
       /\ ((h' = doctor_heal h /\ s' = s)
           \/ (exists it, In it (gs_items gs) /\ role_name h = None
                 /\ h' = assign_role_to_human h it
                 /\ item_pickups s' = item_pickups s ++ [(item_id it, agent_id h)]))).
Proof.
  split.
  - intros z gs s Hnone. unfold process_zombie_turn. rewrite Hnone. reflexivity.
  - intros h gs s Hnone. unfold process_human_turn.
    destruct (doctor_heal_frame h)
      as (Hid & Hty & Hmax & _ & Hbase & Halive & Hx & Hy & Hrole & _).
    destruct (item_in_reach (doctor_heal h) gs) as [it|] eqn:Hitem.
    + apply item_in_reach_spec in Hitem as [Hnorole Hin].
      rewrite Hrole in Hnorole. rewrite (doctor_heal_no_role h Hnorole).
      destruct (assign_role_frame h it)
        as (Hid' & Hty' & _ & Hmax' & Hbase' & Halive' & Hx' & Hy').
      eexists. eexists. split; [reflexivity |].
      cbn [combat_buffer rng item_pickups].
      repeat (split; [first [reflexivity | assumption] |]).
      right. exists it. rewrite Hid'. repeat split; assumption.
    + unfold human_fight. rewrite Hnone. simpl.
      eexists. eexists. split; [reflexivity |].
      repeat (split; [first [reflexivity | assumption] |]).
      left. split; reflexivity.
Qed.

(** *** The damage of a task within the limits *)

Lemma damage_limit (base ap : Z) (scale : Q) :
  0 <= base <= ap -> ap <= 3 * power_limit / 2 ->
  (0 <= scale)%Q -> (scale <= 15 # 4)%Q ->
  0 <= py_int (mul_float base scale) <= int4_max.
Proof.
  intros Hbase Hap Hlo Hhi.
  split; [apply scaled_damage_nonneg; [lia | assumption] |].
  destruct scale as [n d]. unfold Qle in Hlo, Hhi; simpl in Hlo, Hhi.
  unfold py_int, mul_float; simpl.
  change (3 * power_limit / 2) with 150000000 in Hap. unfold int4_max.
  rewrite Z.quot_div_nonneg by nia.
  apply Z.div_le_upper_bound; [lia |].
  assert (base * n <= 150000000 * n) by nia. lia.
Qed.

Lemma calculate_attack_limit (attacker target : agent) (s s' : shared) (c : combat) :
  calculate_attack attacker target s = (Returned (Some c), s') ->
  strikes_within attacker -> 0 <= damage c <= int4_max.
Proof.
  intros Hrun (Hm & Hap & Hle).
  apply calculate_attack_damage in Hrun as (base & [Hlo Hhi] & -> & _).
  pose proof (multiplier_default_nonneg attacker Hm) as Hd.
  assert (Hd' : (default 1%Q (attack_multiplier (role_data attacker)) <= 5 # 2)%Q).
  { destruct (attack_multiplier (role_data attacker)) as [m|] eqn:Hmul; simpl.
    - exact (Hle m Hmul).
    - unfold Qle; simpl; lia. }
  assert (Hb : 0 <= base).
  { pose proof (quot_half_le (attack_power attacker)) as Hq. lia. }
  apply (damage_limit base (attack_power attacker)); [lia | assumption | |].
  - destruct (was_critical c); [|exact Hd].
    apply Qmult_le_0_compat; [exact Hd | discriminate].
  - destruct (was_critical c).
    + change (15 # 4)%Q with ((5 # 2) * (3 # 2))%Q.
      apply Qmult_le_compat_r; [exact Hd' | discriminate].
    + eapply Qle_trans; [exact Hd' | discriminate].
Qed.

Lemma doctor_heal_strikes_within (h : agent) :
  strikes_within h -> strikes_within (doctor_heal h).
Proof.
  intros (Hm & Hap & Hle).
  destruct (doctor_heal_frame h) as (_ & _ & _ & Hap' & _ & _ & _ & _ & _ & Hmul).
  split; [apply doctor_heal_multiplier_ok; assumption |].
  split; [rewrite Hap'; assumption |].
  unfold multiplier_le. rewrite Hmul. exact Hle.
Qed.

(** A combat result a task leaves in the buffer has a damage that fits
    the column, when the agent strikes within the limits. *)
Lemma task_of_limit (a : agent) (gs : game_state) (s s' : shared) (out : outcome agent) :
  task_of grid_size gs a s = (out, s') -> strikes_within a ->
  forall cb, In (Some cb) (combat_buffer s') ->
    In (Some cb) (combat_buffer s) \/ 0 <= damage cb <= int4_max.
Proof.
  intros Hrun Hlim cb Hin.
  assert (Hfight : forall att t s0 s1 oc,
            strikes_within att ->
            calculate_attack att t s0 = (Returned oc, s1) ->
            In (Some cb) (combat_buffer s1 ++ [oc]) ->
            In (Some cb) (combat_buffer s0) \/ 0 <= damage cb <= int4_max).
  { intros att t s0 s1 oc Hatt Hc Hcb.
    pose proof (calculate_attack_spec _ _ _ _ _ Hc) as (Hbuf & _).
    apply in_app_or in Hcb as [Hcb | [Hcb | []]].
    - left. rewrite <- Hbuf. exact Hcb.
    - right. subst oc. eapply calculate_attack_limit; eassumption. }
  revert Hrun. unfold task_of. destruct (agent_type a).
  - unfold process_human_turn.
    destruct (item_in_reach (doctor_heal a) gs) as [it|].
    + unfold bind, append_pickup, ret. intros Hrun; inversion Hrun; subst.
      left. exact Hin.
    + apply doctor_heal_strikes_within in Hlim. revert Hin.
      unfold human_fight, bind, append_combat, ret.
      run_worker; intros Hin Hrun; inversion Hrun; subst; clear Hrun;
        cbn [combat_buffer item_pickups] in Hin;
        try (left; exact Hin);
        try match goal with
            | Hc : calculate_attack _ _ _ = (Returned _, _) |- _ =>
                exact (Hfight _ _ _ _ _ Hlim Hc Hin)
            | Hc : calculate_attack _ _ _ = (Raised, _) |- _ =>
                pose proof (calculate_attack_spec _ _ _ _ _ Hc) as (Hbuf & _);
                left; rewrite <- Hbuf; exact Hin
            end.
  - revert Hin. unfold process_zombie_turn, bind, append_combat, random_random, ret.
    run_worker; intros Hin Hrun; inversion Hrun; subst; clear Hrun;
      cbn [combat_buffer item_pickups] in Hin;
      try (left; exact Hin);
      try match goal with
          | Hc : calculate_attack _ _ _ = (Returned _, _) |- _ =>
              exact (Hfight _ _ _ _ _ Hlim Hc Hin)
          | Hc : calculate_attack _ _ _ = (Raised, _) |- _ =>
              pose proof (calculate_attack_spec _ _ _ _ _ Hc) as (Hbuf & _);
              left; rewrite <- Hbuf; exact Hin
          end.
Qed.

End WorkerFacts.

(** ** The tasks of a round *)

Section RoundFacts.
Context {R : Rng}.
Variable grid_size : Z.

Lemma find_task_Some (id : Z) (tasks : list agent) (a : agent) :
  find_task id tasks = Some a -> In a tasks /\ agent_id a = id.
Proof.
  unfold find_task. intros Hfind. apply find_some in Hfind as [Hin Heq].
  split; [assumption | apply Z.eqb_eq; assumption].
Qed.

(** An invariant of the single steps is an invariant of [run_tasks]. *)
Lemma run_tasks_invariant (I : collected -> shared -> Prop) (gs : game_state)
    (tasks : list agent) :
  (forall a c s, In a tasks -> I c s ->
     I (collect c (agent_id a) (fst (task_of grid_size gs a s)))
       (snd (task_of grid_size gs a s))) ->
  forall schedule c s, I c s ->
    I (fst (run_tasks grid_size gs tasks schedule c s))
      (snd (run_tasks grid_size gs tasks schedule c s)).
Proof.
  intros Hstep schedule. induction schedule as [|id rest IH]; intros c s HI; simpl.
  - assumption.
  - destruct (find_task id tasks) as [a|] eqn:Hfind.
    + apply find_task_Some in Hfind as [Hin _]. apply IH, Hstep; assumption.
    + apply IH; assumption.
Qed.

Lemma round_inv_step (gs : game_state) (tasks : list agent) (a : agent)
    (c : collected) (s : shared) :
  In a tasks -> round_inv grid_size tasks c s ->
  round_inv grid_size tasks
    (collect c (agent_id a) (fst (task_of grid_size gs a s)))
    (snd (task_of grid_size gs a s)).
Proof.
  intros Hin (Hupd & Hbuf & Hpick).
  destruct (task_of grid_size gs a s) as [out s'] eqn:Hrun.
  apply task_of_spec in Hrun as (Hb & Hp & Hres). cbn [fst snd].
  assert (Hmono : forall k, is_Some (updated_agents c !! k) ->
            is_Some (updated_agents (collect c (agent_id a) out) !! k)).
  { intros k Hk. destruct out; simpl; [|assumption].
    destruct (decide (agent_id a = k)) as [->|Hne].
    - rewrite lookup_insert_eq. eauto.
    - rewrite lookup_insert_ne by assumption. assumption. }
  assert (Hself : is_returned out ->
            is_Some (updated_agents (collect c (agent_id a) out) !! agent_id a)).
  { destruct out; simpl; [|contradiction]. intros _. rewrite lookup_insert_eq. eauto. }
  split; [|split].
  - intros k a' Hlook. destruct out as [u|]; simpl in Hlook.
    + destruct (decide (agent_id a = k)) as [Heq|Hne].
      * rewrite Heq, lookup_insert_eq in Hlook. inversion Hlook; subst.
        exists a. split; [assumption |]. split; [reflexivity |]. apply Hres. reflexivity.
      * rewrite lookup_insert_ne in Hlook by assumption. apply Hupd. assumption.
    + apply Hupd. assumption.
  - intros oc Hoc.
    destruct Hb as [Hb | (Hret & c0 & Hb & Hby)]; rewrite Hb in Hoc.
    + destruct (Hbuf oc Hoc) as (a0 & Ha0 & Hby0 & Hsome). exists a0. auto.
    + apply in_app_or in Hoc as [Hoc | [<- | []]].
      * destruct (Hbuf oc Hoc) as (a0 & Ha0 & Hby0 & Hsome). exists a0. auto.
      * exists a. auto.
  - intros p Hin_p.
    destruct Hp as [Hp | (Hret & iid & Hp)]; rewrite Hp in Hin_p.
    + apply Hmono, Hpick. assumption.
    + apply in_app_or in Hin_p as [Hin_p | [<- | []]].
      * apply Hmono, Hpick. assumption.
      * apply Hself. assumption.
Qed.

Lemma round_workers_inv (schedule : list Z) (g : rng_state) (gm : game) :
  let ws := round_workers grid_size schedule g gm in
  round_inv grid_size (gs_humans (snapshot gm) ++ gs_zombies (snapshot gm))
    (fst ws) (snd ws).
Proof.
  unfold round_workers.
  apply (run_tasks_invariant
           (round_inv grid_size (gs_humans (snapshot gm) ++ gs_zombies (snapshot gm)))).
  - intros a c s Hin Hinv. apply round_inv_step; assumption.
  - split; [|split]; simpl.
    + intros k a' Hlook. rewrite lookup_empty in Hlook. discriminate.
    + intros oc [].
    + intros p [].
Qed.

Lemma snapshot_tasks (gm : game) (a : agent) :
  In a (gs_humans (snapshot gm) ++ gs_zombies (snapshot gm)) ->
  In a (agents gm) /\ is_alive a = true.
Proof.
  unfold snapshot, get_alive_agents; cbn [gs_humans gs_zombies].
  intros Hin. apply in_app_or in Hin as [Hin|Hin];
    apply filter_In in Hin as [Hin Hb]; apply andb_true_iff in Hb as [Hb _]; auto.
Qed.

(** ** The merge and the batch update *)

Lemma hit_frame (d : Z) (a : agent) :
  agent_id (hit d a) = agent_id a /\ agent_type (hit d a) = agent_type a
  /\ max_health (hit d a) = max_health a
  /\ attack_power (hit d a) = attack_power a
  /\ base_attack_power (hit d a) = base_attack_power a
  /\ x (hit d a) = x a /\ y (hit d a) = y a
  /\ role_name (hit d a) = role_name a /\ role_data (hit d a) = role_data a.
Proof. unfold hit; simpl. destruct (health a - d <=? 0); repeat split. Qed.

(** What every entry of the dictionary satisfies, and every hit
    preserves, holds of every entry after the merge. *)
Lemma apply_combat_results_lookup (P : agent -> Prop) (round : Z)
    (buffer : list (option combat)) :
  (forall c a, In (Some c) buffer -> P a -> P (hit (damage c) a)) ->
  forall (m : gmap Z agent) (log : list combat_event),
    (forall k a, m !! k = Some a -> P a) ->
    forall k a, fst (apply_combat_results round m buffer log) !! k = Some a -> P a.
Proof.
  unfold apply_combat_results.
  induction buffer as [|oc buffer IH]; intros Hhit m log Hm k a; simpl.
  - apply Hm.
  - destruct oc as [c|]; simpl.
    + apply IH.
      * intros c0 a0 Hin. apply Hhit. right; assumption.
      * intros k0 a0. rewrite lookup_alter.
        destruct (decide (target_id c = k0)) as [_|_]; [|apply Hm].
        destruct (m !! target_id c) as [t|] eqn:Ht; simpl; [|discriminate].
        intros Heq; inversion Heq; subst. apply Hhit; [left; reflexivity |].
        eapply Hm; eassumption.
    + apply IH; [|assumption].
      intros c0 a0 Hin. apply Hhit. right; assumption.
Qed.

Lemma in_updates (m : gmap Z agent) (u : agent_update) :
  In u (map update_of (map snd (map_to_list m))) ->
  exists k a, m !! k = Some a /\ u = update_of a.
Proof.
  intros Hin. apply in_map_iff in Hin as (a & <- & Hin).
  apply in_map_iff in Hin as ([k a'] & <- & Hin).
  exists k, a'. split; [|reflexivity].
  apply elem_of_map_to_list, list_elem_of_In. assumption.
Qed.

Lemma batch_update_Forall (P : agent -> Prop) (updates : list agent_update) :
  forall rows,
    (forall u row, In u updates -> P row -> P (update_agent u row)) ->
    Forall P rows -> Forall P (batch_update_agents updates rows).
Proof.
  unfold batch_update_agents.
  induction updates as [|u updates IH]; intros rows Hupd Hrows; simpl; [assumption |].
  apply IH.
  - intros u0 row Hin. apply Hupd. right; assumption.
  - apply List.Forall_forall. intros row Hin. apply in_map_iff in Hin as (row0 & <- & Hin).
    apply Hupd; [left; reflexivity |].
    rewrite List.Forall_forall in Hrows. apply Hrows. assumption.
Qed.

(** A property of table rows survives a round when every merged agent
    satisfies [Pm] and an update by such an agent preserves the property. *)
Lemma run_round_rows (Prow Pm : agent -> Prop) (schedule : list Z) (g : rng_state)
    (gm : game) :
  (forall k a',
     fst (apply_combat_results (round_num gm + 1)
            (updated_agents (fst (round_workers grid_size schedule g gm)))
            (combat_buffer (snd (round_workers grid_size schedule g gm)))
            (combat_log gm)) !! k = Some a' -> Pm a') ->
  (forall a' row, Pm a' -> Prow row -> Prow (update_agent (update_of a') row)) ->
  Forall Prow (agents gm) ->
  Forall Prow (agents (fst (run_round grid_size schedule g gm))).
Proof.
  intros Hmerged Hupd Hrows. unfold run_round; cbn [fst agents].
  apply batch_update_Forall; [|assumption].
  intros u row Hin Hrow. apply in_updates in Hin as (k & a' & Hlook & ->).
  apply Hupd; [|assumption]. eapply Hmerged; eassumption.
Qed.

(** ** Positions *)

Lemma clamp_in_grid (v : Z) : 0 < grid_size -> 0 <= clamp grid_size v < grid_size.
Proof. unfold clamp. lia. Qed.

Lemma turn_result_in_grid (a b : agent) :
  in_grid grid_size a -> turn_result grid_size a b -> in_grid grid_size b.
Proof.
  intros Ha Hturn. induction Hturn as [|b Hb IH|b it Hb IH|b dx dy Hb IH].
  - assumption.
  - destruct (doctor_heal_frame b) as (_ & _ & _ & _ & _ & _ & Hx & Hy & _).
    unfold in_grid. rewrite Hx, Hy. exact IH.
  - destruct (assign_role_frame b it) as (_ & _ & _ & _ & _ & _ & Hx & Hy).
    unfold in_grid. rewrite Hx, Hy. exact IH.
  - assert (0 < grid_size) by (unfold in_grid in Ha; lia).
    unfold in_grid, move_step; simpl. split; apply clamp_in_grid; assumption.
Qed.

(** C6. When every agent stands inside the grid before a round, every
    agent stands inside the grid after its merge, whatever the schedule
    and the random draws: each step, also each of the several steps of a
    Speed Zombie, is clamped on its own. *)
Theorem positions_stay_in_grid (schedule : list Z) (g : rng_state) (gm : game) :
  Forall (in_grid grid_size) (agents gm) ->
  Forall (in_grid grid_size) (agents (fst (run_round grid_size schedule g gm))).
Proof.
  intros Hgrid.
  apply (run_round_rows (in_grid grid_size) (in_grid grid_size)); [| |assumption].
  - apply (apply_combat_results_lookup (in_grid grid_size)).
    + intros c a _ Ha. destruct (hit_frame (damage c) a) as (_ & _ & _ & _ & _ & Hx & Hy & _).
      unfold in_grid. rewrite Hx, Hy. exact Ha.
    + intros k a' Hlook.
      destruct (round_workers_inv schedule g gm) as (Hupd & _).
      destruct (Hupd k a' Hlook) as (a & Hin & _ & Hturn).
      apply (turn_result_in_grid a); [|assumption].
      apply snapshot_tasks in Hin as [Hin _].
      rewrite List.Forall_forall in Hgrid. apply Hgrid. assumption.
  - intros a' row Ha' Hrow. unfold update_agent.
    destruct (decide _); [exact Ha' | exact Hrow].
Qed.

(** ** Health *)

Lemma hit_spec (d : Z) (a : agent) :
  health (hit d a) = Z.max 0 (health a - d)
  /\ is_alive (hit d a) = (if health a - d <=? 0 then false else is_alive a).
Proof.
  unfold hit; simpl. destruct (health a - d <=? 0) eqn:Hle; simpl.
  - apply Z.leb_le in Hle. split; [lia | reflexivity].
  - apply Z.leb_gt in Hle. split; [lia | reflexivity].
Qed.

Lemma hit_health_ok (d : Z) (a : agent) :
  0 <= d -> health_ok a -> health_ok (hit d a).
Proof.
  intros Hd [Hrange Halive]. unfold health_ok.
  destruct (hit_spec d a) as [-> ->].
  destruct (hit_frame d a) as (_ & _ & -> & _).
  destruct (health a - d <=? 0) eqn:Hle.
  - apply Z.leb_le in Hle. split; [lia |]. split; [discriminate | lia].
  - apply Z.leb_gt in Hle. split; [lia |]. rewrite Halive. lia.
Qed.

Lemma doctor_heal_health (a : agent) :
  health (doctor_heal a) = health a
  \/ health (doctor_heal a) = Z.min (health a + Z.quot (max_health a) 2) (max_health a).
Proof.
  unfold doctor_heal. destruct (decide _); [|left; reflexivity].
  destruct (_ && _); [|left; reflexivity].
  right. simpl. rewrite py_int_half. reflexivity.
Qed.

Lemma doctor_heal_capped (a : agent) :
  health a <= max_health a -> health (doctor_heal a) <= max_health a.
Proof. intros Hle. destruct (doctor_heal_health a) as [-> | ->]; lia. Qed.

Lemma doctor_heal_health_ok (a : agent) :
  health_ok a -> is_alive a = true -> health_ok (doctor_heal a).
Proof.
  intros [Hrange Halive] Htrue. unfold health_ok.
  destruct (doctor_heal_frame a) as (_ & _ & Hmax & _ & _ & Hal & _).
  rewrite Hmax, Hal, Htrue.
  assert (0 < health a) by (apply Halive; assumption).
  assert (0 <= Z.quot (max_health a) 2) by (apply Z.quot_pos; lia).
  destruct (doctor_heal_health a) as [-> | ->]; split; try lia; split; auto; lia.
Qed.

Lemma assign_role_multiplier_ok (a : agent) (it : item) :
  multiplier_ok (assign_role_to_human a it).
Proof.
  unfold multiplier_ok, assign_role_to_human.
  destruct (item_type it); simpl; intros m Hm; inversion Hm; subst. discriminate.
Qed.

Lemma turn_result_tracks (rows : list agent) (a b : agent) :
  In a rows -> health_ok a -> multiplier_ok a -> is_alive a = true ->
  turn_result grid_size a b -> tracks rows true b.
Proof.
  intros Hin Hok Hm Hal Hturn.
  induction Hturn as [|b Hb IH|b it Hb IH|b dx dy Hb IH].
  - split; [exists a; auto | auto].
  - destruct IH as ((a0 & Ha0 & Hid & Hmax) & Hokb & Hmb & Halb).
    destruct (doctor_heal_frame b) as (Hid' & _ & Hmax' & _ & _ & Hal' & _).
    split; [exists a0; split; [assumption | split; congruence] |].
    split; [apply doctor_heal_health_ok; auto |].
    split; [apply doctor_heal_multiplier_ok; assumption |].
    intros _. rewrite Hal'. auto.
  - destruct IH as ((a0 & Ha0 & Hid & Hmax) & Hokb & Hmb & Halb).
    destruct (assign_role_frame b it) as (Hid' & _ & Hh & Hmax' & _ & Hal' & _).
    split; [exists a0; split; [assumption | split; congruence] |].
    split; [unfold health_ok; rewrite Hh, Hmax', Hal'; exact Hokb |].
    split; [apply assign_role_multiplier_ok |].
    intros _. rewrite Hal'. auto.
  - destruct IH as ((a0 & Ha0 & Hid & Hmax) & Hokb & Hmb & Halb).
    split; [exists a0; auto |]. split; [exact Hokb |]. split; [exact Hmb | exact Halb].
Qed.

Lemma hit_tracks (rows : list agent) (d : Z) (a : agent) :
  0 <= d -> tracks rows false a -> tracks rows false (hit d a).
Proof.
  intros Hd ((a0 & Ha0 & Hid & Hmax) & Hok & Hm & _).
  destruct (hit_frame d a) as (Hid' & _ & Hmax' & _ & _ & _ & _ & _ & Hrd).
  split; [exists a0; split; [assumption | split; congruence] |].
  split; [apply hit_health_ok; assumption |].
  split; [unfold multiplier_ok; rewrite Hrd; exact Hm | discriminate].
Qed.

Lemma NoDup_map_inj {A B : Type} (f : A -> B) (l : list A) (a b : A) :
  List.NoDup (map f l) -> In a l -> In b l -> f a = f b -> a = b.
Proof.
  induction l as [|c l IH]; simpl; intros Hnd Ha Hb Hf; [contradiction |].
  inversion Hnd as [|? ? Hnotin Hnd']; subst.
  destruct Ha as [<- | Ha], Hb as [<- | Hb].
  - reflexivity.
  - exfalso. apply Hnotin. rewrite Hf. apply in_map. assumption.
  - exfalso. apply Hnotin. rewrite <- Hf. apply in_map. assumption.
  - apply IH; assumption.
Qed.

Lemma batch_update_ids (updates : list agent_update) (rows : list agent) :
  map agent_id (batch_update_agents updates rows) = map agent_id rows.
Proof.
  unfold batch_update_agents. revert rows.
  induction updates as [|u updates IH]; intros rows; simpl; [reflexivity |].
  rewrite IH, map_map. apply map_ext. intros row. unfold update_agent.
  destruct (decide _); reflexivity.
Qed.

(** The merged dictionary tracks the table. *)
Lemma merged_tracks (schedule : list Z) (g : rng_state) (gm : game) (k : Z) (a' : agent) :
  game_ok gm ->
  fst (apply_combat_results (round_num gm + 1)
         (updated_agents (fst (round_workers grid_size schedule g gm)))
         (combat_buffer (snd (round_workers grid_size schedule g gm)))
         (combat_log gm)) !! k = Some a' ->
  tracks (agents gm) false a'.
Proof.
  intros (Hnd & Hhealth & Hmult).
  rewrite List.Forall_forall in Hhealth, Hmult.
  destruct (round_workers_inv schedule g gm) as (Hupd & Hbuf & _).
  apply (apply_combat_results_lookup (tracks (agents gm) false)).
  - intros c a Hin Ha. apply hit_tracks; [|assumption].
    destruct (Hbuf (Some c) Hin) as (a0 & Ha0 & Hby & _).
    apply snapshot_tasks in Ha0 as [Ha0 _].
    destruct (Hby c eq_refl) as [_ Hdmg]. apply Hdmg, Hmult. assumption.
  - intros k0 a0 Hlook. destruct (Hupd k0 a0 Hlook) as (a & Hin & _ & Hturn).
    apply snapshot_tasks in Hin as [Hin Hal].
    destruct (turn_result_tracks (agents gm) a a0) as (Hrow & Hok & Hm & _); auto.
    repeat split; try assumption; try apply Hok. discriminate.
Qed.

Lemma run_round_ok (schedule : list Z) (g : rng_state) (gm : game) :
  game_ok gm -> game_ok (fst (run_round grid_size schedule g gm)).
Proof.
  intros Hok. pose proof Hok as (Hnd & Hhealth & Hmult).
  assert (Hrows : Forall (tracks (agents gm) false)
                    (agents (fst (run_round grid_size schedule g gm)))).
  { apply (run_round_rows (tracks (agents gm) false) (tracks (agents gm) false)).
    - intros k a'. apply merged_tracks. assumption.
    - intros a' row ((a0 & Ha0 & Hid0 & Hmax0) & Hok' & Hm' & _)
        ((a1 & Ha1 & Hid1 & Hmax1) & Hokr & Hmr & _).
      unfold update_agent, update_of; cbn [u_agent_id].
      destruct (decide (agent_id row = agent_id a')) as [Heq|_];
        [| repeat split; eauto; try apply Hokr; discriminate].
      assert (a0 = a1) as <-
        by (apply (NoDup_map_inj agent_id (agents gm)); auto; congruence).
      split; [exists a0; auto |].
      split; [unfold health_ok; simpl; rewrite Hmax1, <- Hmax0; exact Hok' |].
      split; [exact Hm' | discriminate].
    - apply List.Forall_forall. intros row Hin.
      rewrite List.Forall_forall in Hhealth, Hmult.
      split; [exists row; auto |]. split; [auto |]. split; [auto | discriminate]. }
  split; [|split].
  - unfold run_round; cbn [fst agents]. rewrite batch_update_ids. assumption.
  - eapply List.Forall_impl; [|exact Hrows]. intros row (_ & H & _). exact H.
  - eapply List.Forall_impl; [|exact Hrows]. intros row (_ & _ & H & _). exact H.
Qed.

Lemma game_loop_ok (n : nat) (schedule_of : game -> list Z) :
  forall (g : rng_state) (gm : game),
    game_ok gm -> game_ok (fst (game_loop grid_size n schedule_of g gm)).
Proof.
  induction n as [|n IH]; intros g gm Hok; simpl; [assumption |].
  destruct (is_game_over gm); [assumption |].
  apply IH, run_round_ok. assumption.
Qed.

(** C5. After the merge of every round every agent has
    0 <= health <= max_health and is alive exactly when its health is
    positive: the property of the table is kept by a round and so by any
    number of rounds, for every schedule and all random draws.  Damage
    leaves max(0, health - damage) and clears the alive flag exactly when
    that is 0; a heal never lifts health over max_health. *)
Theorem health_invariant (schedule : list Z) (g : rng_state) (gm : game) :
  game_ok gm ->
  Forall health_ok (agents (fst (run_round grid_size schedule g gm)))
  /\ game_ok (fst (run_round grid_size schedule g gm))
  /\ (forall n schedule_of,
        Forall health_ok (agents (fst (game_loop grid_size n schedule_of g gm))))
  /\ (forall d a,
        health (hit d a) = Z.max 0 (health a - d)
        /\ is_alive (hit d a) = (if health (hit d a) =? 0 then false else is_alive a))
  /\ (forall a, health a <= max_health a -> health (doctor_heal a) <= max_health a).
Proof.
  intros Hok. split; [|split; [|split; [|split]]].
  - apply run_round_ok. assumption.
  - apply run_round_ok. assumption.
  - intros n schedule_of. apply game_loop_ok. assumption.
  - intros d a. destruct (hit_spec d a) as [Hh Ha]. split; [assumption |].
    rewrite Ha, Hh. destruct (health a - d <=? 0) eqn:Hle.
    + apply Z.leb_le in Hle. rewrite Z.max_l by lia. reflexivity.
    + apply Z.leb_gt in Hle. rewrite Z.max_r by lia.
      destruct (health a - d =? 0) eqn:Heq; [apply Z.eqb_eq in Heq; lia | reflexivity].
  - apply doctor_heal_capped.
Qed.

(** ** What a round writes back *)

Lemma batch_update_attack_power (updates : list agent_update) (rows : list agent) :
  map attack_power (batch_update_agents updates rows) = map attack_power rows.
Proof.
  unfold batch_update_agents. revert rows.
  induction updates as [|u updates IH]; intros rows; simpl; [reflexivity |].
  rewrite IH, map_map. apply map_ext. intros row. unfold update_agent.
  destruct (decide _); reflexivity.
Qed.

(** The column attack_power of the table is not written by a round: a
    boost that [assign_role_to_human] gives the copy of a task is gone
    with the copy. *)
Lemma run_round_attack_power (schedule : list Z) (g : rng_state) (gm : game) :
  map attack_power (agents (fst (run_round grid_size schedule g gm)))
  = map attack_power (agents gm).
Proof. unfold run_round; cbn [fst agents]. apply batch_update_attack_power. Qed.

Lemma process_item_pickups_map (pickups : list (Z * Z)) :
  forall rows,
    process_item_pickups pickups rows
    = map (fun i => fold_left (fun i p => mark_picked (fst p) (snd p) i) pickups i) rows.
Proof.
  unfold process_item_pickups, pick_up_item.
  induction pickups as [|p pickups IH]; intros rows; simpl.
  - symmetry. apply map_id.
  - rewrite IH, map_map. reflexivity.
Qed.

Lemma marked_item (pickups : list (Z * Z)) :
  forall i,
    let i' := fold_left (fun i p => mark_picked (fst p) (snd p) i) pickups i in
    item_id i' = item_id i /\ (picked_up i = true -> picked_up i' = true).
Proof.
  induction pickups as [|p pickups IH]; intros i; simpl; [auto |].
  destruct (IH (mark_picked (fst p) (snd p) i)) as [Hid Hflag].
  unfold mark_picked in *. destruct (decide (item_id i = fst p)); simpl in *; auto.
Qed.

(** A round keeps the items and never clears a picked_up flag; every item
    row has one owner column. *)
Lemma run_round_items (schedule : list Z) (g : rng_state) (gm : game) :
  Forall2 (fun i i' => item_id i' = item_id i
                       /\ (picked_up i = true -> picked_up i' = true))
    (items gm) (items (fst (run_round grid_size schedule g gm))).
Proof.
  unfold run_round; cbn [fst items]. rewrite process_item_pickups_map.
  induction (items gm) as [|i rows IH]; simpl; constructor; [|exact IH].
  apply marked_item.
Qed.

(** ** Worker faults *)

Lemma apply_combat_results_log (round : Z) (buffer : list (option combat)) :
  forall (m : gmap Z agent) (log : list combat_event),
    snd (apply_combat_results round m buffer log) = log ++ events_of round buffer.
Proof.
  unfold apply_combat_results.
  induction buffer as [|oc buffer IH]; intros m log; simpl.
  - rewrite app_nil_r. reflexivity.
  - destruct oc as [c|]; simpl; rewrite IH; [|reflexivity].
    unfold log_combat. rewrite <- app_assoc. reflexivity.
Qed.








Lemma turn_result_id (a b : agent) :
  turn_result grid_size a b -> agent_id b = agent_id a.
Proof.
  intros Hturn. induction Hturn as [|b Hb IH|b it Hb IH|b dx dy Hb IH].
  - reflexivity.
  - destruct (doctor_heal_frame b) as (-> & _). assumption.
  - destruct (assign_role_frame b it) as (-> & _). assumption.
  - assumption.
Qed.






End RoundFacts.

(** ** The order of the merge *)

Section MergeOrder.



Lemma apply_combat_results_agents (round : Z) (buffer : list (option combat)) :
  forall (m : gmap Z agent) (log : list combat_event),
    fst (apply_combat_results round m buffer log) = merge_agents buffer m.
Proof.
  unfold apply_combat_results, merge_agents.
  induction buffer as [|oc buffer IH]; intros m log; simpl; [reflexivity |].
  destruct oc as [c|]; simpl; apply IH.
Qed.




(** ** Attacks on a target that is already dead *)


End MergeOrder.

(** * Further properties of the engine *)

(** ** [find_nearest] *)

Lemma min_by_first_least {T : Type} (key : T -> dist) :
  forall (rest before : list T) (best : T) (after : list T),
    (forall u, In u before -> radicand (key best) < radicand (key u)) ->
    (forall u, In u after -> radicand (key best) <= radicand (key u)) ->
    exists before' after',
      before ++ best :: after ++ rest = before' ++ min_by key best rest :: after'
      /\ (forall u, In u before' -> radicand (key (min_by key best rest)) < radicand (key u))
      /\ (forall u, In u after' -> radicand (key (min_by key best rest)) <= radicand (key u)).
Proof.
  induction rest as [|t rest IH]; intros before best after Hbefore Hafter; simpl.
  - exists before, after. rewrite app_nil_r. auto.
  - unfold dist_ltb. destruct (Z.ltb_spec (radicand (key t)) (radicand (key best))) as [Hlt|Hge].
    + destruct (IH (before ++ best :: after) t []) as (b' & a' & Heq & Hb' & Ha').
      * intros u Hu. apply in_app_or in Hu as [Hu | [<- | Hu]].
        -- specialize (Hbefore u Hu). lia.
        -- assumption.
        -- specialize (Hafter u Hu). lia.
      * intros u [].
      * exists b', a'. split; [|auto]. rewrite <- Heq. simpl.
        rewrite <- app_assoc. reflexivity.
    + destruct (IH before best (after ++ [t])) as (b' & a' & Heq & Hb' & Ha').
      * assumption.
      * intros u Hu. apply in_app_or in Hu as [Hu | [<- | []]]; [auto | lia].
      * exists b', a'. split; [|auto]. rewrite <- Heq.
        rewrite <- app_assoc. reflexivity.
Qed.

(** X1. For targets whose squared distance from the agent is at most
    2^51 (where the binary64 square roots [min] compares stand in the
    order of the squared distances), [find_nearest] returns None exactly
    on an empty list of targets; otherwise it returns the first target of
    the list at the least distance: strictly nearer than every target
    before it, and at least as near as every target after it. *)
Theorem find_nearest_first_least {T : Type} (pos : T -> Z * Z) (a : agent)
    (targets : list T) :
  Forall (fun t => radicand (distance_to pos a t) <= distance_limit) targets ->
  (find_nearest pos a targets = None <-> targets = [])
  /\ forall t, find_nearest pos a targets = Some t ->
       exists before after,
         targets = before ++ t :: after
         /\ (forall u, In u before ->
               radicand (distance_to pos a t) < radicand (distance_to pos a u))
         /\ (forall u, In u after ->
               radicand (distance_to pos a t) <= radicand (distance_to pos a u)).
Proof.
  intros _.
  split.
  - destruct targets; simpl; split; intros H; congruence.
  - intros t Hfind. destruct targets as [|t0 rest]; simpl in Hfind; [discriminate |].
    inversion Hfind as [Ht]. clear Hfind.
    destruct (min_by_first_least (distance_to pos a) rest [] t0 [])
      as (before & after & Heq & Hb & Ha); try (intros u []).
    exists before, after. simpl in Heq. unfold distance_to in *.
    rewrite Ht in *. auto.
Qed.

(** ** [calculate_attack]: misses, errors and damage bounds *)

Section AttackFacts.
Context {R : Rng}.

(** Case analysis along the control flow of a computation, on the goal. *)
Ltac walk :=
  repeat (cbn [fst snd rng combat_buffer item_pickups];
    match goal with
    | |- context [rng_random ?g] => destruct (rng_random g) as [? ?] eqn:?
    | |- context [rng_randint ?a ?b ?g] =>
        let Hr := fresh "Hrange" in
        pose proof (rng_randint_range a b g) as Hr;
        destruct (rng_randint a b g) as [? ?]; cbn [fst] in Hr
    | |- context [if ?b then _ else _] => destruct b eqn:?
    | |- context [match ?v with _ => _ end] => destruct v eqn:?
    end).

Lemma half_le_iff (n : Z) : Z.quot n 2 <= n <-> 0 <= n.
Proof.
  split.
  - intros Hle. destruct (Z_lt_le_dec n 0) as [Hneg|Hpos]; [|assumption].
    exfalso. pose proof (Z.quot_rem' n 2).
    pose proof (Z.rem_bound_pos_neg n 2 ltac:(lia) ltac:(lia)). lia.
  - intros Hpos. rewrite Z.quot_div_nonneg by lia.
    apply Z.div_le_upper_bound; lia.
Qed.

(** X2. The three outcomes of [calculate_attack]: it returns None exactly
    when the attacker is a zombie whose miss check succeeds; otherwise it
    raises exactly when attack_power is negative (the range of
    [random.randint] is empty), and else returns a combat result that
    names the attacker and the target.  A human never misses. *)
Theorem calculate_attack_outcome (attacker target : agent) (s : shared) :
  match fst (calculate_attack attacker target s) with
  | Returned None => missed attacker s = true
  | Raised => missed attacker s = false /\ attack_power attacker < 0
  | Returned (Some c) =>
      missed attacker s = false /\ 0 <= attack_power attacker
      /\ attacker_id c = agent_id attacker /\ target_id c = agent_id target
  end.
Proof.
  unfold calculate_attack, missed, bind, random_random, random_randint, ret.
  rewrite py_int_half.
  destruct (decide (agent_type attacker = Zombie)) as [Hz|Hz];
    [destruct (rng_random (rng s)) as [u g] eqn:Hu; cbn [fst snd];
     destruct (Qltb u (2 # 10)) eqn:Hmiss; cbn [fst snd rng] |];
    try reflexivity.
  all: destruct (Z.leb_spec (Z.quot (attack_power attacker) 2) (attack_power attacker))
         as [Hle|Hgt]; cbn [fst snd rng].
  all: try (split; [reflexivity |];
            destruct (Z_lt_le_dec (attack_power attacker) 0) as [Hneg|Hpos];
            [assumption | apply half_le_iff in Hpos; lia]).
  all: walk; (split; [reflexivity |]); (split; [apply half_le_iff; assumption |]);
       split; reflexivity.
Qed.



End AttackFacts.

(** ** Movement: how far and in which direction a turn moves an agent *)

Section MoveFacts.
Context {R : Rng}.
Variable grid_size : Z.

Lemma far_apart (x1 y1 x2 y2 : Z) :
  within_reach (calculate_distance x1 y1 x2 y2) = false -> 2 <= cheb x1 y1 x2 y2.
Proof.
  unfold within_reach, calculate_distance, cheb; simpl. intros Hfar.
  apply Z.leb_gt in Hfar.
  destruct (Z_le_gt_dec 2 (Z.max (Z.abs (x1 - x2)) (Z.abs (y1 - y2)))) as [|Hnear];
    [assumption | exfalso].
  assert (Hx : x1 - x2 = -1 \/ x1 - x2 = 0 \/ x1 - x2 = 1) by lia.
  assert (Hy : y1 - y2 = -1 \/ y1 - y2 = 0 \/ y1 - y2 = 1) by lia.
  destruct Hx as [Hx | [Hx | Hx]], Hy as [Hy | [Hy | Hy]];
    rewrite Hx, Hy in Hfar; simpl in Hfar; lia.
Qed.

(** One clamped step along an axis toward a cell of the grid: the clamp
    does nothing and the gap closes by one, unless it was closed. *)
Lemma axis_step (t v : Z) :
  0 <= t < grid_size -> 0 <= v < grid_size ->
  clamp grid_size (v + toward t v) = v + toward t v
  /\ Z.abs (v + toward t v - t) = Z.abs (v - t) - (if decide (v = t) then 0 else 1).
Proof.
  intros Ht Hv. unfold clamp, toward.
  destruct (Z.ltb_spec v t), (Z.ltb_spec t v), (decide (v = t)); lia.
Qed.

(** Two clamped steps in the direction fixed before the first. *)
Lemma axis_two_steps (t v : Z) :
  0 <= t < grid_size -> 0 <= v < grid_size ->
  let d := toward t v in
  let v2 := clamp grid_size (clamp grid_size (v + d) + d) in
  0 <= v2 < grid_size /\ Z.abs (v2 - v) <= 2
  /\ (2 <= Z.abs (v - t) -> Z.abs (v2 - t) = Z.abs (v - t) - 2)
  /\ (Z.abs (v - t) <= 1 -> Z.abs (v2 - t) <= Z.abs (v - t)).
Proof.
  intros Ht Hv. unfold clamp, toward.
  destruct (Z.ltb_spec v t), (Z.ltb_spec t v); lia.
Qed.

(** The king's-move distances after two such steps, from the gaps along
    the axes. *)
Lemma two_steps_cheb (ax ay nx ny mx my : Z) :
  0 <= ax -> 0 <= ay -> 0 <= nx -> 0 <= ny ->
  2 <= Z.max ax ay -> mx <= 2 -> my <= 2 ->
  (2 <= ax -> nx = ax - 2) -> (ax <= 1 -> nx <= ax) ->
  (2 <= ay -> ny = ay - 2) -> (ay <= 1 -> ny <= ay) ->
  Z.max nx ny < Z.max ax ay /\ Z.max nx ny <= Z.max (Z.max ax ay - 2) 1
  /\ Z.max mx my <= 2.
Proof. lia. Qed.

Lemma find_nearest_position {T : Type} (pos : T -> Z * Z) (a b : agent) (l : list T) :
  x a = x b -> y a = y b -> find_nearest pos a l = find_nearest pos b l.
Proof. intros Hx Hy. unfold find_nearest. rewrite Hx, Hy. reflexivity. Qed.

Lemma item_in_reach_doctor_heal (h : agent) (gs : game_state) :
  item_in_reach (doctor_heal h) gs = item_in_reach h gs.
Proof.
  destruct (doctor_heal_frame h) as (_ & _ & _ & _ & _ & _ & Hx & Hy & Hrole & _).
  unfold item_in_reach.
  rewrite Hrole, Hx, Hy, (find_nearest_position item_pos (doctor_heal h) h) by assumption.
  reflexivity.
Qed.

(** X4. A human that neither picks up an item nor has its nearest zombie
    within reach takes one step and draws no random number: when the
    human and the zombie stand inside the grid, the new position is inside
    the grid, a king's move away from the old one, and one king's move
    nearer to that zombie. *)
Theorem human_step_closer (h z : agent) (gs : game_state) (s : shared) :
  in_grid grid_size h -> in_grid grid_size z ->
  item_in_reach h gs = None ->
  find_nearest agent_pos h (gs_zombies gs) = Some z ->
  within_reach (calculate_distance (x h) (y h) (x z) (y z)) = false ->
  exists h',
    process_human_turn grid_size h gs s = (Returned h', s)
    /\ in_grid grid_size h'
    /\ cheb (x h') (y h') (x h) (y h) = 1
    /\ cheb (x h') (y h') (x z) (y z) = cheb (x h) (y h) (x z) (y z) - 1.
Proof.
  intros [Hhx Hhy] [Hzx Hzy] Hitem Hfind Hfar.
  destruct (doctor_heal_frame h) as (_ & _ & _ & _ & _ & _ & Hx & Hy & _).
  unfold process_human_turn. rewrite item_in_reach_doctor_heal, Hitem.
  unfold human_fight.
  rewrite (find_nearest_position agent_pos (doctor_heal h) h), Hfind by assumption.
  rewrite Hx, Hy, Hfar. eexists. split; [reflexivity |].
  apply far_apart in Hfar. unfold cheb in *.
  destruct (axis_step (x z) (x h) Hzx Hhx) as [Hcx Hax].
  destruct (axis_step (y z) (y h) Hzy Hhy) as [Hcy Hay].
  unfold in_grid, move_step; simpl. rewrite Hx, Hy, Hcx, Hcy.
  unfold toward in *.
  destruct (Z.ltb_spec (x h) (x z)), (Z.ltb_spec (x z) (x h)),
           (Z.ltb_spec (y h) (y z)), (Z.ltb_spec (y z) (y h)); lia.
Qed.

(** X5. A zombie whose nearest human is out of reach moves by its role:
    without a movement range it takes one step like a human; a Speed
    Zombie (range 2) takes two steps in the direction fixed before the
    first, which may overshoot the nearer axis but ends strictly nearer,
    at most max(d - 2, 1) king's moves away; a Tank Zombie (range 0.5)
    draws once and takes one step when the draw is below 0.5, none
    otherwise.  Positions stay inside the grid. *)
Theorem zombie_move_by_role (zb hm : agent) (gs : game_state) (s : shared) :
  in_grid grid_size zb -> in_grid grid_size hm ->
  find_nearest agent_pos zb (gs_humans gs) = Some hm ->
  within_reach (calculate_distance (x zb) (y zb) (x hm) (y hm)) = false ->
  let d := cheb (x zb) (y zb) (x hm) (y hm) in
  let dn (z' : agent) := cheb (x z') (y z') (x hm) (y hm) in
  (movement_range (role_data zb) = None ->
     exists z', process_zombie_turn grid_size zb gs s = (Returned z', s)
                /\ in_grid grid_size z' /\ dn z' = d - 1)
  /\ (movement_range (role_data zb) = Some (2 # 1) ->
     exists z', process_zombie_turn grid_size zb gs s = (Returned z', s)
                /\ in_grid grid_size z' /\ dn z' < d /\ dn z' <= Z.max (d - 2) 1
                /\ cheb (x z') (y z') (x zb) (y zb) <= 2)
  /\ (movement_range (role_data zb) = Some (1 # 2) ->
     let u := fst (rng_random (rng s)) in
     let s' := mk_shared (snd (rng_random (rng s))) (combat_buffer s) (item_pickups s) in
     exists z', process_zombie_turn grid_size zb gs s = (Returned z', s')
                /\ in_grid grid_size z'
                /\ (Qltb u (1 # 2) = true -> dn z' = d - 1)
                /\ (Qltb u (1 # 2) = false -> z' = zb)).
Proof.
  intros [Hzx Hzy] [Hhx Hhy] Hfind Hfar d dn.
  pose proof (far_apart _ _ _ _ Hfar) as Hd. fold d in Hd.
  destruct (axis_step (x hm) (x zb) Hhx Hzx) as [Hcx Hax].
  destruct (axis_step (y hm) (y zb) Hhy Hzy) as [Hcy Hay].
  assert (Hone : in_grid grid_size
                   (move_step grid_size (toward (x hm) (x zb)) (toward (y hm) (y zb)) zb)
                 /\ dn (move_step grid_size (toward (x hm) (x zb)) (toward (y hm) (y zb)) zb)
                    = d - 1).
  { unfold in_grid, dn, d, cheb in *; unfold move_step; simpl. rewrite Hcx, Hcy.
    unfold toward in *.
    destruct (Z.ltb_spec (x zb) (x hm)), (Z.ltb_spec (x hm) (x zb)),
             (Z.ltb_spec (y zb) (y hm)), (Z.ltb_spec (y hm) (y zb)); lia. }
  unfold process_zombie_turn. rewrite Hfind, Hfar.
  split; [|split]; intros Hrange; rewrite Hrange; simpl.
  - eexists. split; [reflexivity |]. exact Hone.
  - eexists. split; [reflexivity |].
    destruct (axis_two_steps (x hm) (x zb) Hhx Hzx) as (Hgx & Hmx & Hfx & Hnx).
    destruct (axis_two_steps (y hm) (y zb) Hhy Hzy) as (Hgy & Hmy & Hfy & Hny).
    cbv zeta in Hgx, Hmx, Hfx, Hnx, Hgy, Hmy, Hfy, Hny.
    unfold in_grid, dn, d, cheb in *; unfold move_step; cbn [Nat.iter x y set_x set_y].
    revert Hgx Hmx Hfx Hnx Hgy Hmy Hfy Hny.
    generalize (clamp grid_size
                  (clamp grid_size (x zb + toward (x hm) (x zb)) + toward (x hm) (x zb))).
    generalize (clamp grid_size
                  (clamp grid_size (y zb + toward (y hm) (y zb)) + toward (y hm) (y zb))).
    intros y2 x2 Hgx Hmx Hfx Hnx Hgy Hmy Hfy Hny.
    destruct (two_steps_cheb (Z.abs (x zb - x hm)) (Z.abs (y zb - y hm))
                (Z.abs (x2 - x hm)) (Z.abs (y2 - y hm))
                (Z.abs (x2 - x zb)) (Z.abs (y2 - y zb))) as (H1 & H2 & H3);
      auto; try apply Z.abs_nonneg.
  - unfold bind, random_random, ret.
    destruct (rng_random (rng s)) as [u g]; cbn [fst snd].
    destruct (Qltb u (1 # 2)) eqn:Hu; eexists; (split; [reflexivity |]).
    + split; [apply Hone |]. split; [intros _; apply Hone | discriminate].
    + split; [split; assumption |]. split; [discriminate | reflexivity].
Qed.

End MoveFacts.

(** ** Where the intents of a round come from *)

Section Provenance.
Context {R : Rng}.
Variable grid_size : Z.

Lemma item_in_reach_Some (h : agent) (gs : game_state) (it : item) :
  item_in_reach h gs = Some it ->
  role_name h = None /\ find_nearest item_pos h (gs_items gs) = Some it
  /\ within_reach (calculate_distance (x h) (y h) (item_x it) (item_y it)) = true.
Proof.
  unfold item_in_reach. destruct (role_name h); [discriminate |].
  destruct (find_nearest item_pos h (gs_items gs)) as [ni|]; [|discriminate].
  destruct (within_reach _) eqn:Hreach; [|discriminate].
  intros Heq; inversion Heq; subst. auto.
Qed.

(** The one intent of a human's turn. *)
Lemma human_intent (h : agent) (gs : game_state) (s s' : shared) (out : outcome agent) :
  process_human_turn grid_size h gs s = (out, s') ->
  (exists it, item_in_reach h gs = Some it
     /\ out = Returned (assign_role_to_human (doctor_heal h) it)
     /\ combat_buffer s' = combat_buffer s
     /\ item_pickups s' = item_pickups s ++ [(item_id it, agent_id h)])
  \/ (item_in_reach h gs = None /\ item_pickups s' = item_pickups s
      /\ exists t, find_nearest agent_pos h (gs_zombies gs) = Some t
         /\ within_reach (calculate_distance (x h) (y h) (x t) (y t)) = true
         /\ ((out = Raised /\ combat_buffer s' = combat_buffer s)
             \/ (out = Returned (doctor_heal h)
                 /\ exists oc, combat_buffer s' = combat_buffer s ++ [oc]
                    /\ forall cb, oc = Some cb ->
                         attacker_id cb = agent_id h /\ target_id cb = agent_id t)))
  \/ (item_in_reach h gs = None /\ item_pickups s' = item_pickups s
      /\ combat_buffer s' = combat_buffer s /\ rng s' = rng s
      /\ exists h', out = Returned h'
         /\ (h' = doctor_heal h
             \/ exists dx dy, h' = move_step grid_size dx dy (doctor_heal h))).
Proof.
  destruct (doctor_heal_frame h) as (Hid & _ & _ & _ & _ & _ & Hx & Hy & _).
  unfold process_human_turn. rewrite item_in_reach_doctor_heal.
  destruct (item_in_reach h gs) as [it|] eqn:Hitem.
  - unfold bind, append_pickup, ret. intros Hrun; inversion Hrun; subst; clear Hrun.
    left. exists it. cbn [combat_buffer item_pickups].
    destruct (assign_role_frame (doctor_heal h) it) as (Hid' & _).
    rewrite Hid', Hid. auto.
  - unfold human_fight.
    rewrite (find_nearest_position agent_pos (doctor_heal h) h), Hx, Hy by assumption.
    destruct (find_nearest agent_pos h (gs_zombies gs)) as [t|] eqn:Hfind.
    + destruct (within_reach _) eqn:Hreach.
      * unfold bind, append_combat, ret.
        destruct (calculate_attack (doctor_heal h) t s) as [[oc|] s1] eqn:Hatt;
          intros Hrun; inversion Hrun; subst; clear Hrun;
          pose proof (calculate_attack_spec _ _ _ _ _ Hatt) as (Hbuf & Hpick & Hspec);
          right; left; cbn [combat_buffer item_pickups];
          (split; [reflexivity |]); (split; [assumption |]);
          exists t; (split; [reflexivity |]); (split; [assumption |]).
        -- right. split; [reflexivity |]. exists oc. rewrite Hbuf.
           split; [reflexivity |]. intros cb ->.
           destruct (Hspec cb eq_refl) as (Ha & Ht & _). split; congruence.
        -- left. auto.
      * unfold ret. intros Hrun; inversion Hrun; subst; clear Hrun.
        right; right. repeat (split; [reflexivity |]). eexists. split; [reflexivity |].
        right. eauto.
    + unfold ret. intros Hrun; inversion Hrun; subst; clear Hrun.
      right; right. repeat (split; [reflexivity |]). eexists. split; [reflexivity |].
      left. reflexivity.
Qed.

(** The one intent of a zombie's turn. *)
Lemma zombie_intent (z : agent) (gs : game_state) (s s' : shared) (out : outcome agent) :
  process_zombie_turn grid_size z gs s = (out, s') ->
  item_pickups s' = item_pickups s
  /\ ((exists t, find_nearest agent_pos z (gs_humans gs) = Some t
         /\ within_reach (calculate_distance (x z) (y z) (x t) (y t)) = true
         /\ ((out = Raised /\ combat_buffer s' = combat_buffer s)
             \/ (out = Returned z
                 /\ exists oc, combat_buffer s' = combat_buffer s ++ [oc]
                    /\ forall cb, oc = Some cb ->
                         attacker_id cb = agent_id z /\ target_id cb = agent_id t)))
      \/ (combat_buffer s' = combat_buffer s
          /\ exists z', out = Returned z'
             /\ (z' = z
                 \/ exists dx dy n, z' = Nat.iter n (move_step grid_size dx dy) z))).
Proof.
  unfold process_zombie_turn.
  destruct (find_nearest agent_pos z (gs_humans gs)) as [t|] eqn:Hfind.
  - destruct (within_reach _) eqn:Hreach.
    + unfold bind, append_combat, ret.
      destruct (calculate_attack z t s) as [[oc|] s1] eqn:Hatt;
        intros Hrun; inversion Hrun; subst; clear Hrun;
        pose proof (calculate_attack_spec _ _ _ _ _ Hatt) as (Hbuf & Hpick & Hspec);
        cbn [combat_buffer item_pickups]; (split; [assumption |]); left;
        exists t; (split; [reflexivity |]); (split; [assumption |]).
      * right. split; [reflexivity |]. exists oc. rewrite Hbuf.
        split; [reflexivity |]. intros cb ->.
        destruct (Hspec cb eq_refl) as (Ha & Ht & _). split; congruence.
      * left. auto.
    + destruct (Qle_bool 1 _).
      * unfold ret. intros Hrun; inversion Hrun; subst; clear Hrun.
        split; [reflexivity |]. right. split; [reflexivity |].
        eexists. split; [reflexivity |]. right. eauto.
      * unfold bind, random_random, ret.
        destruct (rng_random (rng s)) as [u g]. destruct (Qltb u _);
          intros Hrun; inversion Hrun; subst; clear Hrun;
          cbn [combat_buffer item_pickups]; (split; [reflexivity |]); right;
          (split; [reflexivity |]); eexists; (split; [reflexivity |]).
        -- right. exists (toward (x t) (x z)), (toward (y t) (y z)), 1%nat. reflexivity.
        -- left. reflexivity.
  - unfold ret. intros Hrun; inversion Hrun; subst; clear Hrun.
    split; [reflexivity |]. right. split; [reflexivity |].
    eexists. split; [reflexivity |]. left. reflexivity.
Qed.

Lemma provenance_step (gs : game_state) (tasks : list agent) (a : agent)
    (c : collected) (s : shared) :
  In a tasks -> provenance grid_size gs tasks c s ->
  provenance grid_size gs tasks
    (collect c (agent_id a) (fst (task_of grid_size gs a s)))
    (snd (task_of grid_size gs a s)).
Proof.
  intros Hin (Hupd & Hbuf & Hpick).
  destruct (task_of grid_size gs a s) as [out s'] eqn:Hrun. cbn [fst snd].
  split; [|split].
  - intros k a' Hlook. destruct out as [u|]; simpl in Hlook; [|apply Hupd; assumption].
    destruct (decide (agent_id a = k)) as [Heq|Hne].
    + rewrite Heq, lookup_insert_eq in Hlook. inversion Hlook; subst. eauto 10.
    + rewrite lookup_insert_ne in Hlook by assumption. apply Hupd. assumption.
  - intros cb Hcb. unfold task_of in Hrun. unfold opponents.
    destruct (agent_type a) eqn:Hty.
    + apply human_intent in Hrun
        as [(it & _ & _ & Hb & _) | [(_ & _ & t & Hfind & Hreach & Hatt)
                                    | (_ & _ & Hb & _)]].
      * rewrite Hb in Hcb. apply Hbuf in Hcb. exact Hcb.
      * destruct Hatt as [[_ Hb] | (_ & oc & Hb & Hoc)]; rewrite Hb in Hcb.
        -- apply Hbuf in Hcb. exact Hcb.
        -- apply in_app_or in Hcb as [Hcb | [Heq | []]]; [apply Hbuf; assumption |].
           exists a, t. unfold opponents. rewrite Hty.
           destruct (Hoc cb Heq) as [Ha Ht]. auto.
      * rewrite Hb in Hcb. apply Hbuf in Hcb. exact Hcb.
    + apply zombie_intent in Hrun as (_ & [(t & Hfind & Hreach & Hatt) | (Hb & _)]).
      * destruct Hatt as [[_ Hb] | (_ & oc & Hb & Hoc)]; rewrite Hb in Hcb.
        -- apply Hbuf in Hcb. exact Hcb.
        -- apply in_app_or in Hcb as [Hcb | [Heq | []]]; [apply Hbuf; assumption |].
           exists a, t. unfold opponents. rewrite Hty.
           destruct (Hoc cb Heq) as [Ha Ht]. auto.
      * rewrite Hb in Hcb. apply Hbuf in Hcb. exact Hcb.
  - intros p Hp. unfold task_of in Hrun. destruct (agent_type a) eqn:Hty.
    + apply human_intent in Hrun
        as [(it & Hitem & _ & _ & Hpk) | [(_ & Hpk & _) | (_ & Hpk & _)]];
        rewrite Hpk in Hp; [|apply Hpick; assumption | apply Hpick; assumption].
      apply in_app_or in Hp as [Hp | [<- | []]]; [apply Hpick; assumption |].
      apply item_in_reach_Some in Hitem as (Hrole & Hfind & Hreach).
      exists a, it. auto 10.
    + apply zombie_intent in Hrun as (Hpk & _). rewrite Hpk in Hp.
      apply Hpick. assumption.
Qed.

Lemma round_workers_provenance (schedule : list Z) (g : rng_state) (gm : game) :
  let ws := round_workers grid_size schedule g gm in
  provenance grid_size (snapshot gm)
    (gs_humans (snapshot gm) ++ gs_zombies (snapshot gm)) (fst ws) (snd ws).
Proof.
  unfold round_workers.
  apply (run_tasks_invariant grid_size
           (provenance grid_size (snapshot gm)
              (gs_humans (snapshot gm) ++ gs_zombies (snapshot gm)))).
  - intros a c s Hin Hinv. apply provenance_step; assumption.
  - split; [|split]; simpl.
    + intros k a' Hlook. rewrite lookup_empty in Hlook. discriminate.
    + intros cb [].
    + intros p [].
Qed.

Lemma snapshot_lists (gm : game) (a : agent) :
  (In a (gs_humans (snapshot gm)) ->
     In a (agents gm) /\ is_alive a = true /\ agent_type a = Human)
  /\ (In a (gs_zombies (snapshot gm)) ->
     In a (agents gm) /\ is_alive a = true /\ agent_type a = Zombie).
Proof.
  unfold snapshot, get_alive_agents; cbn [gs_humans gs_zombies].
  split; intros Hin; apply filter_In in Hin as [Hin Hb];
    apply andb_true_iff in Hb as [Hal Hty]; apply bool_decide_eq_true in Hty; auto.
Qed.

Lemma snapshot_items (gm : game) (it : item) :
  In it (gs_items (snapshot gm)) -> In it (items gm) /\ picked_up it = false.
Proof.
  unfold snapshot, get_available_items; cbn [gs_items].
  intros Hin. apply filter_In in Hin as [Hin Hb].
  apply negb_true_iff in Hb. auto.
Qed.

(** X6. Every combat result a round buffers was aimed by a living agent of
    the table at a living agent of the other faction: the attacker's
    nearest opponent in the snapshot, at most 1.5 away from it. *)
Theorem combat_between_factions (schedule : list Z) (g : rng_state) (gm : game)
    (cb : combat) :
  In (Some cb) (combat_buffer (snd (round_workers grid_size schedule g gm))) ->
  exists a t,
    In a (agents gm) /\ In t (agents gm)
    /\ is_alive a = true /\ is_alive t = true
    /\ agent_type a <> agent_type t
    /\ attacker_id cb = agent_id a /\ target_id cb = agent_id t
    /\ find_nearest agent_pos a (opponents a (snapshot gm)) = Some t
    /\ within_reach (calculate_distance (x a) (y a) (x t) (y t)) = true.
Proof.
  intros Hin.
  destruct (round_workers_provenance schedule g gm) as (_ & Hbuf & _).
  destruct (Hbuf cb Hin) as (a & t & Ha & Hfind & Hreach & Hida & Hidt).
  exists a, t.
  pose proof (find_nearest_In _ _ _ _ Hfind) as Ht.
  apply snapshot_tasks in Ha as [Ha Hal].
  unfold opponents in Ht. destruct (agent_type a) eqn:Hty.
  - apply (proj2 (snapshot_lists gm t)) in Ht as (Ht & Halt & Htyt).
    rewrite Htyt. repeat split; auto; try discriminate.
  - apply (proj1 (snapshot_lists gm t)) in Ht as (Ht & Halt & Htyt).
    rewrite Htyt. repeat split; auto; try discriminate.
Qed.

Lemma round_pickups_origin (schedule : list Z) (g : rng_state) (gm : game)
    (p : Z * Z) :
  In p (item_pickups (snd (round_workers grid_size schedule g gm))) ->
  exists h it,
    In h (agents gm) /\ In it (items gm)
    /\ is_alive h = true /\ agent_type h = Human /\ role_name h = None
    /\ picked_up it = false
    /\ p = (item_id it, agent_id h)
    /\ find_nearest item_pos h (get_available_items gm) = Some it
    /\ within_reach (calculate_distance (x h) (y h) (item_x it) (item_y it)) = true.
Proof.
  intros Hin.
  destruct (round_workers_provenance schedule g gm) as (_ & _ & Hpick).
  destruct (Hpick p Hin) as (h & it & Hh & Hty & Hrole & Hfind & Hreach & ->).
  exists h, it.
  pose proof (find_nearest_In _ _ _ _ Hfind) as Hit.
  apply snapshot_items in Hit as [Hit Hfree].
  apply snapshot_tasks in Hh as [Hh Hal].
  repeat split; auto.
Qed.

(** X7. Every pickup a round buffers was made by a living human of the
    table that had no role, of an item of the table that was not picked
    up: the nearest such item, at most 1.5 away.  Zombies and humans with
    a role never pick up an item. *)
Theorem pickup_by_roleless_human (schedule : list Z) (g : rng_state) (gm : game)
    (p : Z * Z) :
  In p (item_pickups (snd (round_workers grid_size schedule g gm))) ->
  exists h it,
    In h (agents gm) /\ In it (items gm)
    /\ is_alive h = true /\ agent_type h = Human /\ role_name h = None
    /\ picked_up it = false
    /\ p = (item_id it, agent_id h)
    /\ find_nearest item_pos h (get_available_items gm) = Some it
    /\ within_reach (calculate_distance (x h) (y h) (item_x it) (item_y it)) = true.
Proof.
  intros Hin.
  destruct (round_workers_provenance schedule g gm) as (_ & _ & Hpick).
  destruct (Hpick p Hin) as (h & it & Hh & Hty & Hrole & Hfind & Hreach & ->).
  exists h, it.
  pose proof (find_nearest_In _ _ _ _ Hfind) as Hit.
  apply snapshot_items in Hit as [Hit Hfree].
  apply snapshot_tasks in Hh as [Hh Hal].
  repeat split; auto.
Qed.

End Provenance.

(** ** The merge adds up the damage aimed at a target *)

Lemma hit_hit (d1 d2 : Z) (a : agent) :
  0 <= d1 -> 0 <= d2 -> hit d2 (hit d1 a) = hit (d1 + d2) a.
Proof.
  intros H1 H2. destruct a as [id ty h mh ap bap al px py rn rd].
  unfold hit, set_health, set_is_alive; simpl.
  destruct (Z.leb_spec (h - d1) 0); simpl;
    repeat match goal with
           | |- context [?u <=? 0] => destruct (Z.leb_spec u 0); simpl
           end;
    try reflexivity; try lia; f_equal; lia.
Qed.

Lemma total_damage_nonneg (k : Z) (buffer : list (option combat)) :
  damages_nonneg buffer -> 0 <= total_damage k buffer.
Proof.
  unfold damages_nonneg. induction 1 as [|oc buffer Hoc Hrest IH]; simpl; [lia |].
  destruct oc as [c|]; [|assumption].
  specialize (Hoc c eq_refl). destruct (decide (target_id c = k)); lia.
Qed.

Lemma hit_same_frame (d : Z) (a : agent) : same_frame a (hit d a).
Proof.
  destruct (hit_frame d a) as (H1 & H2 & H3 & H4 & H5 & H6 & H7 & H8 & H9).
  unfold same_frame. auto 10.
Qed.

Lemma merge_agents_lookup (buffer : list (option combat)) :
  damages_nonneg buffer ->
  forall (m : gmap Z agent) (k : Z),
    merge_agents buffer m !! k
    = (fun a => if targeted k buffer then hit (total_damage k buffer) a else a) <$> m !! k.
Proof.
  unfold damages_nonneg, merge_agents.
  induction 1 as [|oc buffer Hoc Hrest IH]; intros m k; simpl.
  - destruct (m !! k); reflexivity.
  - destruct oc as [c|]; [|apply IH].
    rewrite IH, lookup_alter. specialize (Hoc c eq_refl).
    pose proof (total_damage_nonneg k buffer Hrest) as Htot.
    destruct (decide (target_id c = k)) as [Heq|Hne].
    + rewrite bool_decide_eq_true_2 by assumption. rewrite Heq. simpl.
      destruct (m !! k) as [a|]; simpl; [|reflexivity]. f_equal.
      destruct (targeted k buffer) eqn:Ht.
      * apply hit_hit; assumption.
      * clear IH. assert (total_damage k buffer = 0) as ->; [|f_equal; lia].
        clear Htot Hrest. induction buffer as [|oc' b IHb]; simpl in *; [reflexivity |].
        destruct oc' as [c'|]; [|auto].
        apply orb_false_iff in Ht as [Hc' Ht]. apply bool_decide_eq_false in Hc'.
        rewrite decide_False by assumption. rewrite IHb by assumption. reflexivity.
    + rewrite bool_decide_eq_false_2 by assumption. reflexivity.
Qed.

(** X8. Attacks on one target add up: after the merge of a buffer without
    negative damage, an agent of the dictionary that no combat result aims
    at is unchanged, and one that is aimed at has health
    max(0, health - total damage aimed at it), its alive flag cleared
    exactly when that is 0, and everything else as before, in whatever
    order the results stand in the buffer; an id that is not in the
    dictionary is not added. *)
Theorem merge_adds_up_damage (round : Z) (m : gmap Z agent)
    (buffer : list (option combat)) (log : list combat_event) (k : Z) :
  damages_nonneg buffer ->
  match m !! k with
  | None => fst (apply_combat_results round m buffer log) !! k = None
  | Some a =>
      exists a',
        fst (apply_combat_results round m buffer log) !! k = Some a'
        /\ same_frame a a'
        /\ (targeted k buffer = false -> a' = a)
        /\ (targeted k buffer = true ->
              health a' = Z.max 0 (health a - total_damage k buffer)
              /\ is_alive a' = (if health a' =? 0 then false else is_alive a))
  end.
Proof.
  intros Hpos. rewrite apply_combat_results_agents, merge_agents_lookup by assumption.
  destruct (m !! k) as [a|]; simpl; [|reflexivity].
  eexists. split; [reflexivity |].
  destruct (targeted k buffer).
  - split; [apply hit_same_frame |]. split; [discriminate |]. intros _.
    destruct (hit_spec (total_damage k buffer) a) as [Hh Ha]. split; [assumption |].
    rewrite Ha, Hh. destruct (Z.leb_spec (health a - total_damage k buffer) 0).
    + rewrite Z.max_l by lia. reflexivity.
    + rewrite Z.max_r by lia.
      destruct (Z.eqb_spec (health a - total_damage k buffer) 0); [lia | reflexivity].
  - split; [unfold same_frame; auto 10 |]. split; [reflexivity | discriminate].
Qed.

(** ** What a round writes back, row by row *)

Section RowFacts.
Context {R : Rng}.
Variable grid_size : Z.

Lemma same_frame_trans (a b c : agent) : same_frame a b -> same_frame b c -> same_frame a c.
Proof. unfold same_frame. intuition congruence. Qed.

Lemma apply_combat_results_frame (round : Z) (buffer : list (option combat)) :
  forall (m : gmap Z agent) (log : list combat_event) (k : Z) (a'' : agent),
    fst (apply_combat_results round m buffer log) !! k = Some a'' ->
    exists a', m !! k = Some a' /\ same_frame a' a''.
Proof.
  intros m log k a''. rewrite apply_combat_results_agents. clear log.
  unfold merge_agents. revert m.
  induction buffer as [|oc buffer IH]; intros m; simpl.
  - intros Hlook. exists a''. split; [assumption | unfold same_frame; auto 10].
  - intros Hlook. apply IH in Hlook as (a1 & Hlook & Hframe).
    destruct oc as [c|]; [|eauto].
    rewrite lookup_alter in Hlook. destruct (decide (target_id c = k)) as [<-|_]; [|eauto].
    destruct (m !! target_id c) as [a0|]; simpl in Hlook; [|discriminate].
    inversion Hlook; subst. exists a0. split; [reflexivity |].
    eapply same_frame_trans; [apply hit_same_frame | exact Hframe].
Qed.

Lemma batch_update_rowwise (updates : list agent_update) :
  forall rows,
    batch_update_agents updates rows
    = map (fun row => fold_left (fun r u => update_agent u r) updates row) rows.
Proof.
  unfold batch_update_agents.
  induction updates as [|u updates IH]; intros rows; simpl.
  - symmetry. apply map_id.
  - rewrite IH, map_map. reflexivity.
Qed.

Lemma update_agent_id (u : agent_update) (row : agent) :
  agent_id (update_agent u row) = agent_id row.
Proof. unfold update_agent. destruct (decide _); reflexivity. Qed.

Lemma fold_update_others (updates : list agent_update) :
  forall row,
    (forall u, In u updates -> u_agent_id u <> agent_id row) ->
    fold_left (fun r u => update_agent u r) updates row = row.
Proof.
  induction updates as [|u updates IH]; intros row Hne; simpl; [reflexivity |].
  assert (Hu : update_agent u row = row).
  { unfold update_agent. rewrite decide_False; [reflexivity |].
    intros Heq. apply (Hne u); [left; reflexivity | congruence]. }
  rewrite Hu. apply IH. intros u0 Hin. apply Hne. right; assumption.
Qed.

Lemma fold_update_one (updates : list agent_update) :
  forall row u,
    List.NoDup (map u_agent_id updates) -> In u updates ->
    u_agent_id u = agent_id row ->
    fold_left (fun r u => update_agent u r) updates row = update_agent u row.
Proof.
  induction updates as [|u0 updates IH]; intros row u Hnd Hin Hid; simpl; [contradiction |].
  simpl in Hnd. inversion Hnd as [|? ? Hnotin Hnd']; subst.
  destruct Hin as [-> | Hin].
  - apply fold_update_others. intros u1 Hin1 Heq. apply Hnotin.
    rewrite update_agent_id in Heq. rewrite Hid, <- Heq. apply in_map. assumption.
  - assert (Hu0 : update_agent u0 row = row).
    { unfold update_agent. rewrite decide_False; [reflexivity |].
      intros Heq. apply Hnotin. rewrite <- Heq, <- Hid. apply in_map. assumption. }
    rewrite Hu0. apply IH; assumption.
Qed.

Lemma merged_key (schedule : list Z) (g : rng_state) (gm : game) (k : Z) (a'' : agent) :
  merged_agents grid_size schedule g gm !! k = Some a'' ->
  agent_id a'' = k
  /\ exists a a' s0 s1,
       In a (gs_humans (snapshot gm) ++ gs_zombies (snapshot gm))
       /\ agent_id a = k
       /\ task_of grid_size (snapshot gm) a s0 = (Returned a', s1)
       /\ updated_agents (fst (round_workers grid_size schedule g gm)) !! k = Some a'
       /\ same_frame a' a''.
Proof.
  unfold merged_agents. intros Hlook.
  apply apply_combat_results_frame in Hlook as (a' & Hlook & Hframe).
  destruct (round_workers_provenance grid_size schedule g gm) as (Hupd & _).
  destruct (Hupd k a' Hlook) as (a & s0 & s1 & Hin & Hid & Hrun).
  destruct (round_workers_inv grid_size schedule g gm) as (Hinv & _).
  destruct (Hinv k a' Hlook) as (a0 & _ & Hid0 & Hturn).
  apply turn_result_id in Hturn.
  split; [destruct Hframe as (-> & _); congruence |].
  exists a, a', s0, s1. auto.
Qed.

Lemma updates_nodup (schedule : list Z) (g : rng_state) (gm : game) :
  List.NoDup (map u_agent_id
                (map update_of (map snd (map_to_list (merged_agents grid_size schedule g gm))))).
Proof.
  rewrite !map_map.
  assert (Heq : map (fun p : Z * agent => u_agent_id (update_of (snd p)))
                  (map_to_list (merged_agents grid_size schedule g gm))
                = map fst (map_to_list (merged_agents grid_size schedule g gm))).
  { apply map_ext_in. intros [k a''] Hin. simpl.
    apply list_elem_of_In, elem_of_map_to_list, merged_key in Hin as [Hid _]. exact Hid. }
  rewrite Heq. apply NoDup_ListNoDup. apply (NoDup_fst_map_to_list (merged_agents grid_size schedule g gm)).
Qed.

(** Each row of the table is written once, from the merged entry filed
    under its id, and is left alone when there is none. *)
Lemma run_round_rowwise (schedule : list Z) (g : rng_state) (gm : game) :
  agents (fst (run_round grid_size schedule g gm))
  = map (fun row =>
           match merged_agents grid_size schedule g gm !! agent_id row with
           | Some a'' => update_agent (update_of a'') row
           | None => row
           end) (agents gm).
Proof.
  unfold run_round; cbn [fst agents]. fold (merged_agents grid_size schedule g gm).
  rewrite batch_update_rowwise. apply map_ext. intros row.
  destruct (merged_agents grid_size schedule g gm !! agent_id row) as [a''|] eqn:Hlook.
  - apply fold_update_one.
    + apply updates_nodup.
    + apply in_map, in_map_iff. exists (agent_id row, a''). split; [reflexivity |].
      apply list_elem_of_In, elem_of_map_to_list. assumption.
    + simpl. apply merged_key in Hlook as [Hid _]. exact Hid.
  - apply fold_update_others. intros u Hin Heq.
    apply in_updates in Hin as (k & a'' & Hk & ->). simpl in Heq.
    pose proof (merged_key _ _ _ _ _ Hk) as [Hid _].
    rewrite <- Heq, Hid, Hk in Hlook. discriminate.
Qed.

Lemma iter_move_frame (n : nat) (dx dy : Z) (a : agent) :
  role_name (Nat.iter n (move_step grid_size dx dy) a) = role_name a
  /\ role_data (Nat.iter n (move_step grid_size dx dy) a) = role_data a
  /\ health (Nat.iter n (move_step grid_size dx dy) a) = health a.
Proof. induction n as [|n IH]; simpl; auto. Qed.

(** The role after a task: as before, or the role of an item of the
    snapshot, for a human that had none. *)
Lemma task_role (a a' : agent) (gs : game_state) (s s' : shared) :
  task_of grid_size gs a s = (Returned a', s') ->
  (role_name a' = role_name a
   \/ (agent_type a = Human /\ role_name a = None
       /\ exists it, In it (gs_items gs) /\ role_name a' = Some (role_of_item it)))
  /\ (agent_type a = Zombie -> role_name a' = role_name a /\ role_data a' = role_data a).
Proof.
  unfold task_of. destruct (agent_type a) eqn:Hty; intros Hrun.
  - split; [|discriminate].
    destruct (doctor_heal_frame a) as (_ & _ & _ & _ & _ & _ & _ & _ & Hrole & _).
    apply human_intent in Hrun
      as [(it & Hitem & Hout & _) | [(_ & _ & t & _ & _ & Hatt) | (_ & _ & _ & _ & Hmove)]].
    + inversion Hout; subst. right.
      apply item_in_reach_spec in Hitem as [Hnone Hin].
      split; [reflexivity |]. split; [assumption |]. exists it. split; [assumption |].
      unfold assign_role_to_human, role_of_item. destruct (item_type it); reflexivity.
    + destruct Hatt as [[Hout _] | (Hout & _)]; inversion Hout; subst. left. assumption.
    + destruct Hmove as (h' & Hout & Hh'). inversion Hout; subst. left.
      destruct Hh' as [-> | (dx & dy & ->)]; assumption.
  - assert (Hsame : role_name a' = role_name a /\ role_data a' = role_data a).
    { apply zombie_intent in Hrun as (_ & [(t & _ & _ & Hatt) | (_ & z' & Hout & Hz')]).
      - destruct Hatt as [[Hout _] | (Hout & _)]; inversion Hout; subst. auto.
      - inversion Hout; subst. destruct Hz' as [-> | (dx & dy & n & ->)]; [auto |].
        destruct (iter_move_frame n dx dy a) as (H1 & H2 & _). auto. }
    split; [left; apply Hsame | intros _; exact Hsame].
Qed.

(** X9. With agent ids a key of the table, a round leaves the row of a
    dead agent exactly as it is: dead agents get no task, and no update is
    written under their id. *)
Theorem dead_rows_untouched (schedule : list Z) (g : rng_state) (gm : game)
    (i : nat) (row : agent) :
  List.NoDup (map agent_id (agents gm)) ->
  nth_error (agents gm) i = Some row -> is_alive row = false ->
  nth_error (agents (fst (run_round grid_size schedule g gm))) i = Some row.
Proof.
  intros Hnd Hrow Hdead. rewrite run_round_rowwise, nth_error_map, Hrow. simpl.
  destruct (merged_agents grid_size schedule g gm !! agent_id row) as [a''|] eqn:Hlook;
    [|reflexivity].
  exfalso. apply merged_key in Hlook as (_ & a & a' & s0 & s1 & Hin & Hid & _).
  apply snapshot_tasks in Hin as [Hin Hal].
  assert (a = row) as ->
    by (apply (NoDup_map_inj agent_id (agents gm)); eauto using nth_error_In).
  congruence.
Qed.

(** X10. With agent ids a key of the table, a role is permanent: a round
    leaves the role name of every agent that has one as it is, and leaves
    role name and role data of every zombie as they are.  A role name
    changes only for a living human without a role, to the role of an
    item that was not picked up when the round began. *)
Theorem role_is_permanent (schedule : list Z) (g : rng_state) (gm : game)
    (i : nat) (row : agent) :
  List.NoDup (map agent_id (agents gm)) ->
  nth_error (agents gm) i = Some row ->
  exists row',
    nth_error (agents (fst (run_round grid_size schedule g gm))) i = Some row'
    /\ (role_name row <> None -> role_name row' = role_name row)
    /\ (agent_type row = Zombie ->
          role_name row' = role_name row /\ role_data row' = role_data row)
    /\ (role_name row' <> role_name row ->
          agent_type row = Human /\ is_alive row = true
          /\ exists it, In it (get_available_items gm)
                         /\ role_name row' = Some (role_of_item it)).
Proof.
  intros Hnd Hrow. rewrite run_round_rowwise, nth_error_map, Hrow. simpl.
  eexists. split; [reflexivity |].
  destruct (merged_agents grid_size schedule g gm !! agent_id row) as [a''|] eqn:Hlook;
    [|repeat split; auto; congruence].
  apply merged_key in Hlook as (Hkey & a & a' & s0 & s1 & Hin & Hid & Hrun & _ & Hframe).
  apply snapshot_tasks in Hin as [Hin Hal].
  assert (a = row) as ->
    by (apply (NoDup_map_inj agent_id (agents gm)); eauto using nth_error_In).
  destruct Hframe as (_ & _ & _ & _ & _ & _ & _ & Hrn & Hrd).
  unfold update_agent, update_of; cbn [u_agent_id]. rewrite decide_True by congruence.
  cbn [role_name role_data u_role_name u_role_data]. rewrite Hrn, Hrd.
  destruct (task_role _ _ _ _ _ Hrun) as [Hrole Hzombie].
  split; [|split].
  - intros Hsome. destruct Hrole as [Hsame | (_ & Hnone & _)]; congruence.
  - exact Hzombie.
  - intros Hchanged. destruct Hrole as [Hsame | (Hty & _ & it & Hit & Hnew)];
      [contradiction |].
    split; [assumption |]. split; [assumption |]. exists it. split; assumption.
Qed.

Lemma batch_update_fixed_columns (updates : list agent_update) (rows : list agent) :
  map fixed_columns (batch_update_agents updates rows) = map fixed_columns rows.
Proof.
  unfold batch_update_agents. revert rows.
  induction updates as [|u updates IH]; intros rows; simpl; [reflexivity |].
  rewrite IH, map_map. apply map_ext. intros row. unfold update_agent, fixed_columns.
  destruct (decide _); reflexivity.
Qed.

Lemma filter_map_le {A : Type} (p : A -> bool) (f : A -> A) (l : list A) :
  (forall a, In a l -> p (f a) = true -> p a = true) ->
  (length (List.filter p (map f l)) <= length (List.filter p l))%nat.
Proof.
  induction l as [|a l IH]; intros Hp; cbn [map List.filter]; [lia |].
  assert (IH' : (length (List.filter p (map f l)) <= length (List.filter p l))%nat)
    by (apply IH; intros b Hb; apply Hp; right; exact Hb).
  destruct (p (f a)) eqn:Hfa.
  - rewrite (Hp a (or_introl eq_refl) Hfa). cbn [length]. lia.
  - destruct (p a); cbn [length]; lia.
Qed.

Lemma filter_map_same {A : Type} (p : A -> bool) (f : A -> A) (l : list A) :
  (forall a, p (f a) = p a) ->
  length (List.filter p (map f l)) = length (List.filter p l).
Proof.
  intros Hp. induction l as [|a l IH]; cbn [map List.filter]; [reflexivity |].
  rewrite Hp. destruct (p a); cbn [length]; rewrite IH; reflexivity.
Qed.

(** The row a round writes for a dead agent is the row it found. *)
Lemma written_row_alive (schedule : list Z) (g : rng_state) (gm : game) (row : agent) :
  List.NoDup (map agent_id (agents gm)) -> In row (agents gm) ->
  let row' := match merged_agents grid_size schedule g gm !! agent_id row with
              | Some a'' => update_agent (update_of a'') row
              | None => row
              end in
  agent_id row' = agent_id row /\ agent_type row' = agent_type row
  /\ (is_alive row' = true -> is_alive row = true).
Proof.
  intros Hnd Hin. cbv zeta.
  destruct (merged_agents grid_size schedule g gm !! agent_id row) as [a''|] eqn:Hlook;
    [|auto].
  apply merged_key in Hlook as (_ & a & a' & s0 & s1 & Ha & Hid & _).
  apply snapshot_tasks in Ha as [Ha Hal].
  assert (a = row) as -> by (apply (NoDup_map_inj agent_id (agents gm)); assumption).
  unfold update_agent. destruct (decide _); auto.
Qed.

(** X11. With agent ids a key of the table, a round resurrects nobody and
    moves nobody to the other faction, in whatever order the rows of the
    table stand: for each faction the number of rows stays the same and
    the number of living agents does not grow, and an id that is alive
    after the round was alive before it. *)
Theorem round_resurrects_nobody (schedule : list Z) (g : rng_state) (gm : game)
    (t : agent_type_t) :
  List.NoDup (map agent_id (agents gm)) ->
  let after := fst (run_round grid_size schedule g gm) in
  (length (get_alive_agents t after) <= length (get_alive_agents t gm))%nat
  /\ length (List.filter (fun a => bool_decide (agent_type a = t)) (agents after))
     = length (List.filter (fun a => bool_decide (agent_type a = t)) (agents gm))
  /\ (forall k,
        (exists row, In row (agents after) /\ agent_id row = k /\ is_alive row = true) ->
        exists row, In row (agents gm) /\ agent_id row = k /\ is_alive row = true).
Proof.
  intros Hnd. cbv zeta. unfold get_alive_agents. rewrite run_round_rowwise.
  split; [|split].
  - apply filter_map_le. intros row Hin Halive.
    destruct (written_row_alive schedule g gm row Hnd Hin) as (_ & Hty & Hal).
    cbv zeta in Hty, Hal. apply andb_true_iff in Halive as [H1 H2].
    rewrite Hty in H2. rewrite (Hal H1), H2. reflexivity.
  - apply filter_map_same. intros row.
    destruct (merged_agents grid_size schedule g gm !! agent_id row); [|reflexivity].
    unfold update_agent. destruct (decide _); reflexivity.
  - intros k (row' & Hin & Hid & Halive).
    apply in_map_iff in Hin as (row & <- & Hin).
    destruct (written_row_alive schedule g gm row Hnd Hin) as (Hsame & _ & Hal).
    cbv zeta in Hsame, Hal. exists row. split; [exact Hin |].
    split; [congruence | auto].
Qed.

Lemma mark_picked_frame (iid aid : Z) (it : item) :
  item_id (mark_picked iid aid it) = item_id it
  /\ item_type (mark_picked iid aid it) = item_type it
  /\ item_x (mark_picked iid aid it) = item_x it
  /\ item_y (mark_picked iid aid it) = item_y it.
Proof. unfold mark_picked. destruct (decide _); auto. Qed.

(** X12. With item ids a key of the table, a round changes an item row
    only by marking it picked up, and only an item that was not picked up
    before: its new owner is a living human of the table that had no role
    and stood within 1.5 of it.  An item already picked up keeps its
    owner. *)
Theorem items_change_by_pickup_only (schedule : list Z) (g : rng_state) (gm : game)
    (i : nat) (it : item) :
  List.NoDup (map item_id (items gm)) ->
  nth_error (items gm) i = Some it ->
  exists it',
    nth_error (items (fst (run_round grid_size schedule g gm))) i = Some it'
    /\ (it' = it
        \/ (picked_up it = false
            /\ exists h, In h (agents gm) /\ is_alive h = true /\ agent_type h = Human
                 /\ role_name h = None
                 /\ within_reach (calculate_distance (x h) (y h) (item_x it) (item_y it))
                    = true
                 /\ it' = mk_item (item_id it) (item_type it) (item_x it) (item_y it)
                            true (Some (agent_id h)))).
Proof.
  intros Hnd Hit. unfold run_round; cbn [fst items].
  rewrite process_item_pickups_map, nth_error_map, Hit. simpl.
  eexists. split; [reflexivity |].
  pose proof (round_pickups_origin grid_size schedule g gm) as Hprov.
  revert Hprov.
  generalize (item_pickups (snd (round_workers grid_size schedule g gm))).
  intros pickups. induction pickups as [|p pickups IH] using rev_ind; intros Hprov.
  - left. reflexivity.
  - rewrite fold_left_app. simpl.
    assert (IH' := IH (fun q Hq => Hprov q (in_or_app _ _ _ (or_introl Hq)))).
    clear IH.
    revert IH'.
    generalize (fold_left (fun i0 p0 => mark_picked (fst p0) (snd p0) i0) pickups it).
    intros cur IH'.
    assert (Hcur : item_id cur = item_id it /\ item_type cur = item_type it
                   /\ item_x cur = item_x it /\ item_y cur = item_y it).
    { destruct IH' as [-> | (_ & h & _ & _ & _ & _ & _ & ->)]; auto. }
    destruct Hcur as (Hcid & Hcty & Hcx & Hcy).
    unfold mark_picked. destruct (decide (item_id cur = fst p)) as [Heq|Hne];
      [|exact IH'].
    right.
    assert (Hlast : In p (pickups ++ [p])) by (apply in_or_app; right; left; reflexivity).
    destruct (Hprov p Hlast)
      as (h & it0 & Hh & Hit0 & Hal & Hty & Hrole & Hfree & -> & _ & Hreach).
    simpl in Heq.
    assert (it0 = it) as ->
      by (apply (NoDup_map_inj item_id (items gm)); eauto using nth_error_In; congruence).
    split; [assumption |]. exists h. rewrite Hcid, Hcty, Hcx, Hcy. simpl. auto 10.
Qed.

End RowFacts.

(** ** The loop of [run_game], the winner and the statistics *)

Section LoopFacts.
Context {R : Rng}.
Variable grid_size : Z.

Lemma game_loop_rounds (schedule_of : game -> list Z) (n : nat) :
  forall (g : rng_state) (gm : game),
    let final := fst (game_loop grid_size n schedule_of g gm) in
    round_num gm <= round_num final <= round_num gm + Z.of_nat n
    /\ (is_game_over final = true \/ round_num final = round_num gm + Z.of_nat n)
    /\ (is_game_over gm = true -> final = gm).
Proof.
  induction n as [|n IH]; intros g gm; cbn [game_loop].
  - cbn [fst]. split; [lia|]. split; [right; lia | reflexivity].
  - destruct (is_game_over gm) eqn:Hover; cbn [fst].
    + split; [lia|]. split; [left; exact Hover | reflexivity].
    + specialize (IH (snd (run_round grid_size (schedule_of gm) g gm))
                     (fst (run_round grid_size (schedule_of gm) g gm))).
      cbv zeta in IH. destruct IH as (Hrange & Hstop & _).
      change (round_num (fst (run_round grid_size (schedule_of gm) g gm)))
        with (round_num gm + 1) in Hrange, Hstop.
      split; [lia|]. split; [|discriminate].
      destruct Hstop as [Hstop | Hstop]; [left; exact Hstop | right; lia].
Qed.

(** X13 ([run_game], the [while] loop): the loop ends, at a state where a
    faction has no living agent or [round_num] has reached [max_rounds];
    [round_num] never decreases and never passes the larger of its start
    value and [max_rounds]; no round is run when the game is over or the
    bound is reached at the start. *)
Theorem run_rounds_stops (max_rounds : Z) (schedule_of : game -> list Z)
    (g : rng_state) (gm : game) :
  let final := fst (run_rounds grid_size max_rounds schedule_of g gm) in
  round_num gm <= round_num final <= Z.max (round_num gm) max_rounds
  /\ (is_game_over final = true \/ max_rounds <= round_num final)
  /\ ((is_game_over gm = true \/ max_rounds <= round_num gm) -> final = gm).
Proof.
  unfold run_rounds.
  pose proof (game_loop_rounds schedule_of (Z.to_nat (max_rounds - round_num gm)) g gm)
    as Hloop.
  cbv zeta in *. destruct Hloop as (Hrange & Hstop & Hover).
  split; [lia|]. split.
  - destruct Hstop as [Hstop | Hstop]; [left; exact Hstop | right; lia].
  - intros [Hgo | Hmax]; [exact (Hover Hgo)|].
    replace (Z.to_nat (max_rounds - round_num gm)) with O by lia. reflexivity.
Qed.

End LoopFacts.

(** X14 ([run_game], lines 381-397, with [is_game_over]): when the loop
    has ended because a faction was wiped out, the humans win exactly
    when a human is alive, the zombies exactly when a zombie is alive,
    and the game is a draw exactly when nobody is alive. *)
Theorem winner_after_elimination (gm : game) :
  is_game_over gm = true ->
  (winner gm = HumansWin <-> get_alive_agents Human gm <> [])
  /\ (winner gm = ZombiesWin <-> get_alive_agents Zombie gm <> [])
  /\ (winner gm = DrawGame <->
        get_alive_agents Human gm = [] /\ get_alive_agents Zombie gm = []).
Proof.
  unfold is_game_over, winner.
  destruct (get_alive_agents Human gm) as [|h hs];
    destruct (get_alive_agents Zombie gm) as [|z zs]; simpl; intros Hover;
    try discriminate;
    (split; [|split]); split; try discriminate; try congruence; auto;
    try (intros [H1 H2]; discriminate).
Qed.

Lemma sql_sum_None (l : list Z) : sql_sum l = None <-> l = [].
Proof. destruct l; simpl; split; intros H; congruence. Qed.

Lemma count_bounds {A : Type} (p : A -> bool) (l : list A) :
  0 <= fold_right Z.add 0 (map (fun a => if p a then 1 else 0) l)
    <= Z.of_nat (length l).
Proof.
  induction l as [|a l IH]; simpl length; simpl fold_right; simpl map; [simpl; lia|].
  rewrite Nat2Z.inj_succ. simpl. destruct (p a); lia.
Qed.

Lemma count_filter {A : Type} (p q : A -> bool) (l : list A) :
  fold_right Z.add 0 (map (fun a => if p a then 1 else 0) (List.filter q l))
  = Z.of_nat (length (List.filter (fun a => p a && q a) l)).
Proof.
  induction l as [|a l IH]; [reflexivity|].
  cbn [List.filter]. destruct (q a); cbn [map fold_right];
    destruct (p a); cbn [andb length]; rewrite ?Nat2Z.inj_succ, IH; lia.
Qed.

(** X15 ([get_game_statistics]): the two sums over [combat_log] are NULL
    exactly when no attack has been logged, otherwise the number of
    critical hits lies between 0 and the number of attacks; a faction
    without an [agents] row has no row in the statistics, otherwise its
    [alive] count is the number of rows [get_alive_agents] selects and
    lies between 0 and its positive [total]. *)
Theorem statistics_spec (gm : game) :
  let st := get_combat_statistics gm in
  (logged_damage st = None <-> combat_log gm = [])
  /\ (critical_hits st = None <-> combat_log gm = [])
  /\ (forall c, critical_hits st = Some c -> 0 <= c <= total_attacks st)
  /\ (forall t,
        match get_agent_statistics t gm with
        | None => forall a, In a (agents gm) -> agent_type a <> t
        | Some (total, alive) =>
            alive = Z.of_nat (length (get_alive_agents t gm))
            /\ 0 <= alive <= total /\ 0 < total
        end).
Proof.
  cbv zeta; unfold get_combat_statistics; cbn [logged_damage critical_hits total_attacks].
  split; [|split; [|split]].
  - rewrite sql_sum_None. destruct (combat_log gm); simpl; split; congruence.
  - rewrite sql_sum_None. destruct (combat_log gm); simpl; split; congruence.
  - intros c Hc.
    pose proof (count_bounds ev_critical (combat_log gm)) as Hb.
    destruct (combat_log gm) as [|e log]; [discriminate|].
    unfold sql_sum in Hc. cbn [map] in Hc. inversion Hc; subst c. exact Hb.
  - intros t. unfold get_agent_statistics, get_alive_agents.
    pose proof (count_bounds is_alive
                  (List.filter (fun a => bool_decide (agent_type a = t)) (agents gm))) as Hb.
    pose proof (count_filter is_alive (fun a => bool_decide (agent_type a = t)) (agents gm))
      as Hc.
    destruct (List.filter (fun a => bool_decide (agent_type a = t)) (agents gm))
      as [|r rows] eqn:Hrows.
    + intros a Ha Hty.
      assert (Hin : In a (List.filter (fun a => bool_decide (agent_type a = t)) (agents gm))).
      { apply filter_In. split; [exact Ha|]. apply bool_decide_eq_true. exact Hty. }
      rewrite Hrows in Hin. destruct Hin.
    + split; [exact Hc|]. split; [exact Hb|]. simpl length. lia.
Qed.

(** ** [spawn_agents] and [spawn_items] *)

Lemma half_bounds (n : Z) : 2 * (n / 2) <= n < 2 * (n / 2) + 2.
Proof.
  pose proof (Z.div_mod n 2 ltac:(lia)) as Hdm.
  pose proof (Z.mod_pos_bound n 2 ltac:(lia)) as Hb. lia.
Qed.

Section SpawnFacts.
Context {R : Rng}.
Variable grid_size : Z.

Lemma gen_randint_cases (a b : Z) (g : rng_state) :
  (a <= b /\ exists v g', gen_randint a b g = (Returned v, g') /\ a <= v <= b)
  \/ (b < a /\ gen_randint a b g = (Raised, g)).
Proof.
  unfold gen_randint. destruct (a <=? b) eqn:Hab.
  - left. apply Z.leb_le in Hab. split; [exact Hab|].
    eexists _, _. split; [reflexivity|]. apply rng_randint_range. exact Hab.
  - right. apply Z.leb_gt in Hab. split; [exact Hab | reflexivity].
Qed.

Lemma spawn_humans_spec (n : nat) :
  forall g,
    match spawn_humans grid_size n g with
    | (Returned new, _) =>
        length new = n /\ Forall (spawned_human_row grid_size) new
        /\ (n = O \/ 2 <= grid_size)
    | (Raised, _) => n <> O /\ grid_size < 2
    end.
Proof.
  pose proof (half_bounds grid_size) as Hhalf.
  induction n as [|n IH]; intros g; cbn [spawn_humans].
  - unfold gen_ret. split; [reflexivity|]. split; [constructor | left; reflexivity].
  - unfold gen_bind at 1.
    destruct (gen_randint_cases 0 (grid_size / 2 - 1) g)
      as [(Hx & px & g1 & -> & Hpx) | (Hx & ->)]; [|split; [discriminate | lia]].
    unfold gen_bind at 1.
    destruct (gen_randint_cases 0 (grid_size - 1) g1)
      as [(Hy & py & g2 & -> & Hpy) | (Hy & ->)]; [|split; [discriminate | lia]].
    unfold gen_bind at 1. specialize (IH g2).
    destruct (spawn_humans grid_size n g2) as [[new|] g3].
    + unfold gen_ret. destruct IH as (Hlen & Hall & _).
      split; [simpl; congruence|]. split; [|right; lia].
      constructor; [|exact Hall].
      exists px, py. split; [lia|]. split; [lia | reflexivity].
    + split; [discriminate | lia].
Qed.

Lemma spawn_zombies_spec (n : nat) :
  forall g,
    match spawn_zombies grid_size n g with
    | (Returned new, _) =>
        length new = n /\ Forall (spawned_zombie_row grid_size) new
        /\ (n = O \/ 1 <= grid_size)
    | (Raised, _) => n <> O /\ grid_size < 1
    end.
Proof.
  pose proof (half_bounds grid_size) as Hhalf.
  induction n as [|n IH]; intros g; cbn [spawn_zombies].
  - unfold gen_ret. split; [reflexivity|]. split; [constructor | left; reflexivity].
  - unfold gen_bind at 1.
    destruct (gen_randint_cases (grid_size / 2) (grid_size - 1) g)
      as [(Hx & px & g1 & -> & Hpx) | (Hx & ->)]; [|split; [discriminate | lia]].
    unfold gen_bind at 1.
    destruct (gen_randint_cases 0 (grid_size - 1) g1)
      as [(Hy & py & g2 & -> & Hpy) | (Hy & ->)]; [|split; [discriminate | lia]].
    unfold gen_bind at 1. unfold gen_random at 1.
    unfold gen_bind at 1. specialize (IH (snd (rng_random g2))).
    destruct (spawn_zombies grid_size n (snd (rng_random g2))) as [[new|] g3].
    + unfold gen_ret. destruct IH as (Hlen & Hall & _).
      split; [simpl; congruence|]. split; [|right; lia].
      constructor; [|exact Hall].
      exists px, py, (fst (rng_random g2)).
      split; [lia|]. split; [lia|]. split; [apply rng_random_range | reflexivity].
    + split; [discriminate | lia].
Qed.

(** X16 ([spawn_agents], lines 25-73): the call raises exactly when
    humans are asked for on a grid narrower than 2 or zombies on a grid
    narrower than 1 ([random.randint] on an empty range); otherwise it
    hands [num_humans] humans followed by [num_zombies] zombies to the
    insert, every human with the defaults of the code in the left half of
    the grid, every zombie in the right half. *)
Theorem spawn_agents_spec (num_humans num_zombies : Z) (g : rng_state) :
  match spawn_agents grid_size num_humans num_zombies g with
  | (Returned new, _) =>
      (num_humans <= 0 \/ 2 <= grid_size) /\ (num_zombies <= 0 \/ 1 <= grid_size)
      /\ exists humans zombies,
           new = humans ++ zombies
           /\ length humans = Z.to_nat num_humans
           /\ length zombies = Z.to_nat num_zombies
           /\ Forall (spawned_human_row grid_size) humans
           /\ Forall (spawned_zombie_row grid_size) zombies
  | (Raised, _) =>
      (0 < num_humans /\ grid_size < 2) \/ (0 < num_zombies /\ grid_size < 1)
  end.
Proof.
  unfold spawn_agents. unfold gen_bind at 1.
  pose proof (spawn_humans_spec (Z.to_nat num_humans) g) as Hh.
  destruct (spawn_humans grid_size (Z.to_nat num_humans) g) as [[humans|] g1];
    [|left; lia].
  destruct Hh as (Hlh & Hhs & Hgh).
  unfold gen_bind at 1.
  pose proof (spawn_zombies_spec (Z.to_nat num_zombies) g1) as Hz.
  destruct (spawn_zombies grid_size (Z.to_nat num_zombies) g1) as [[zombies|] g2];
    [|right; lia].
  destruct Hz as (Hlz & Hzs & Hgz). unfold gen_ret.
  split; [lia|]. split; [lia|].
  exists humans, zombies. auto.
Qed.

End SpawnFacts.

(** ** The tables after the inserts *)

Lemma number_rows_app {A : Type} (l1 l2 : list (new_row A)) :
  forall i, number_rows i (l1 ++ l2)
            = number_rows i l1 ++ number_rows (i + Z.of_nat (length l1)) l2.
Proof.
  induction l1 as [|f l1 IH]; intros i; cbn [number_rows app length].
  - rewrite Z.add_0_r. reflexivity.
  - rewrite IH. do 3 f_equal. lia.
Qed.

Lemma number_rows_Forall {A : Type} (P : Z -> A -> Prop) (new : list (new_row A)) :
  Forall (fun f => forall id, P id (f id)) new ->
  forall i, Forall (fun a => exists id, i <= id /\ P id a) (number_rows i new).
Proof.
  induction 1 as [|f new Hf _ IH]; intros i; cbn [number_rows]; constructor.
  - exists i. split; [lia | apply Hf].
  - eapply List.Forall_impl; [|apply (IH (i + 1))].
    intros a (id & Hid & Ha). exists id. split; [lia | exact Ha].
Qed.

Lemma number_rows_ids {A : Type} (key : A -> Z) (new : list (new_row A)) :
  Forall (fun f => forall id, key (f id) = id) new ->
  forall i, map key (number_rows i new) = serial_ids i (length new).
Proof.
  induction 1 as [|f new Hf _ IH]; intros i; cbn [number_rows map length serial_ids].
  - reflexivity.
  - rewrite Hf, IH. reflexivity.
Qed.

Lemma serial_ids_lower (n : nat) : forall i k, In k (serial_ids i n) -> i <= k.
Proof.
  induction n as [|n IH]; intros i k; cbn [serial_ids]; [intros []|].
  intros [<- | Hin]; [lia|]. apply IH in Hin. lia.
Qed.

Lemma serial_ids_NoDup (n : nat) : forall i, List.NoDup (serial_ids i n).
Proof.
  induction n as [|n IH]; intros i; cbn [serial_ids]; constructor; [|apply IH].
  intros Hin. apply serial_ids_lower in Hin. lia.
Qed.

Lemma number_rows_count (t0 t : agent_type_t) (new : list (new_row agent)) :
  Forall (fun f => forall id, is_alive (f id) = true /\ agent_type (f id) = t0) new ->
  forall i,
    length (List.filter (fun a => is_alive a && bool_decide (agent_type a = t))
              (number_rows i new))
    = if bool_decide (t0 = t) then length new else O.
Proof.
  induction 1 as [|f new Hf _ IH]; intros i; cbn [number_rows List.filter length].
  - destruct (bool_decide (t0 = t)); reflexivity.
  - destruct (Hf i) as (-> & ->). cbn [andb]. specialize (IH (i + 1)).
    destruct (bool_decide (t0 = t)); cbn [length]; rewrite IH; reflexivity.
Qed.

Lemma spawned_human_row_facts (grid_size : Z) (f : new_row agent) :
  spawned_human_row grid_size f ->
  forall id,
    agent_id (f id) = id /\ health_ok (f id) /\ multiplier_ok (f id)
    /\ in_grid grid_size (f id)
    /\ is_alive (f id) = true /\ agent_type (f id) = Human.
Proof.
  intros (px & py & Hpx & Hpy & Hf) id. rewrite Hf.
  pose proof (half_bounds grid_size) as Hhalf.
  destruct (spawned_rows_ok id px py 0) as (Hh & Hm & _).
  split; [reflexivity|]. split; [exact Hh|]. split; [exact Hm|].
  split; [|split; reflexivity].
  unfold in_grid; simpl. lia.
Qed.

Lemma spawned_zombie_row_facts (grid_size : Z) (f : new_row agent) :
  spawned_zombie_row grid_size f ->
  forall id,
    agent_id (f id) = id /\ health_ok (f id) /\ multiplier_ok (f id)
    /\ in_grid grid_size (f id)
    /\ is_alive (f id) = true /\ agent_type (f id) = Zombie.
Proof.
  intros (px & py & roll & Hpx & Hpy & _ & Hf) id. rewrite Hf.
  pose proof (half_bounds grid_size) as Hhalf.
  destruct (spawned_rows_ok id px py roll) as (_ & _ & Hh & Hm).
  split; [reflexivity|]. split; [exact Hh|]. split; [exact Hm|].
  split; [|split; reflexivity].
  unfold in_grid; simpl. lia.
Qed.

Section SpawnedTables.
Context {R : Rng}.
Variable grid_size : Z.

(** X17 ([spawn_agents] with [batch_insert_agents], lines 25-75 and
    128-146 of the database layer): when [spawn_agents] returns, the
    [agents] table of the new game has the consecutive ids the table
    hands out, every row has its position inside the grid, full health
    and a non-negative attack multiplier, so that the state satisfies
    what the health and grid invariants of a round assume; the living
    humans and zombies are as many as were asked for. *)
Theorem spawned_table_ok (num_humans num_zombies : Z) (g g' : rng_state)
    (new : list (new_row agent)) (first_id : Z) (its : list item) :
  spawn_agents grid_size num_humans num_zombies g = (Returned new, g') ->
  let gm := new_game (batch_insert_agents first_id new []) its in
  game_ok gm
  /\ Forall (in_grid grid_size) (agents gm)
  /\ map agent_id (agents gm) = serial_ids first_id (length new)
  /\ length (get_alive_agents Human gm) = Z.to_nat num_humans
  /\ length (get_alive_agents Zombie gm) = Z.to_nat num_zombies.
Proof.
  intros Hspawn gm. subst gm.
  unfold game_ok, get_alive_agents, new_game, batch_insert_agents.
  cbn [agents app].
  revert Hspawn. unfold spawn_agents. unfold gen_bind at 1.
  pose proof (spawn_humans_spec grid_size (Z.to_nat num_humans) g) as Hh.
  destruct (spawn_humans grid_size (Z.to_nat num_humans) g) as [[humans|] g1];
    [|discriminate].
  destruct Hh as (Hlh & Hhs & _). unfold gen_bind at 1.
  pose proof (spawn_zombies_spec grid_size (Z.to_nat num_zombies) g1) as Hz.
  destruct (spawn_zombies grid_size (Z.to_nat num_zombies) g1) as [[zombies|] g2];
    [|discriminate].
  destruct Hz as (Hlz & Hzs & _). unfold gen_ret.
  intros Hnew. inversion Hnew; subst new g'. clear Hnew.
  assert (Hall : Forall (fun f => forall id,
                   agent_id (f id) = id /\ health_ok (f id) /\ multiplier_ok (f id)
                   /\ in_grid grid_size (f id)) (humans ++ zombies)).
  { apply Forall_app. split.
    - eapply List.Forall_impl; [|exact Hhs]. intros f Hf id.
      destruct (spawned_human_row_facts grid_size f Hf id) as (H1 & H2 & H3 & H4 & _).
      auto.
    - eapply List.Forall_impl; [|exact Hzs]. intros f Hf id.
      destruct (spawned_zombie_row_facts grid_size f Hf id) as (H1 & H2 & H3 & H4 & _).
      auto. }
  assert (Hids : map agent_id (number_rows first_id (humans ++ zombies))
                 = serial_ids first_id (length (humans ++ zombies))).
  { apply number_rows_ids. eapply List.Forall_impl; [|exact Hall].
    intros f Hf id. apply Hf. }
  pose proof (number_rows_Forall
                (fun id a => agent_id a = id /\ health_ok a /\ multiplier_ok a
                             /\ in_grid grid_size a)
                (humans ++ zombies) Hall first_id) as Hrows.
  split; [split; [|split]|split; [|split; [exact Hids|]]].
  - rewrite Hids. apply serial_ids_NoDup.
  - eapply List.Forall_impl; [|exact Hrows]. intros a (id & _ & _ & H & _). exact H.
  - eapply List.Forall_impl; [|exact Hrows]. intros a (id & _ & _ & _ & H & _). exact H.
  - eapply List.Forall_impl; [|exact Hrows]. intros a (id & _ & _ & _ & _ & H). exact H.
  - assert (Hht : Forall (fun f => forall id,
                     is_alive (f id) = true /\ agent_type (f id) = Human) humans).
    { eapply List.Forall_impl; [|exact Hhs]. intros f Hf id.
      destruct (spawned_human_row_facts grid_size f Hf id) as (_ & _ & _ & _ & H5 & H6).
      auto. }
    assert (Hzt : Forall (fun f => forall id,
                     is_alive (f id) = true /\ agent_type (f id) = Zombie) zombies).
    { eapply List.Forall_impl; [|exact Hzs]. intros f Hf id.
      destruct (spawned_zombie_row_facts grid_size f Hf id) as (_ & _ & _ & _ & H5 & H6).
      auto. }
    rewrite number_rows_app, !List.filter_app, !length_app.
    rewrite (number_rows_count Human Human humans Hht),
            (number_rows_count Zombie Human zombies Hzt),
            (number_rows_count Human Zombie humans Hht),
            (number_rows_count Zombie Zombie zombies Hzt).
    rewrite (bool_decide_eq_true_2 (Human = Human)) by reflexivity.
    rewrite (bool_decide_eq_true_2 (Zombie = Zombie)) by reflexivity.
    rewrite (bool_decide_eq_false_2 (Human = Zombie)) by discriminate.
    rewrite (bool_decide_eq_false_2 (Zombie = Human)) by discriminate.
    cbv iota. lia.
Qed.

End SpawnedTables.

Section SpawnedItems.
Context {R : Rng}.
Variable grid_size : Z.

Lemma spawn_items_of_spec (t : item_type_t) (n : nat) :
  forall g,
    match spawn_items_of grid_size t n g with
    | (Returned new, _) =>
        length new = n /\ Forall (spawned_item_row grid_size t) new
        /\ (n = O \/ 1 <= grid_size)
    | (Raised, _) => n <> O /\ grid_size < 1
    end.
Proof.
  induction n as [|n IH]; intros g; cbn [spawn_items_of].
  - unfold gen_ret. split; [reflexivity|]. split; [constructor | left; reflexivity].
  - unfold gen_bind at 1.
    destruct (gen_randint_cases 0 (grid_size - 1) g)
      as [(Hx & px & g1 & -> & Hpx) | (Hx & ->)]; [|split; [discriminate | lia]].
    unfold gen_bind at 1.
    destruct (gen_randint_cases 0 (grid_size - 1) g1)
      as [(Hy & py & g2 & -> & Hpy) | (Hy & ->)]; [|split; [discriminate | lia]].
    unfold gen_bind at 1. specialize (IH g2).
    destruct (spawn_items_of grid_size t n g2) as [[new|] g3].
    + unfold gen_ret. destruct IH as (Hlen & Hall & _).
      split; [simpl; congruence|]. split; [|right; lia].
      constructor; [|exact Hall].
      exists px, py. split; [lia|]. split; [lia | reflexivity].
    + split; [discriminate | lia].
Qed.

Lemma spawned_item_row_facts (t : item_type_t) (f : new_row item) :
  spawned_item_row grid_size t f ->
  forall id, item_id (f id) = id /\ item_in_grid grid_size (f id)
             /\ picked_up (f id) = false /\ picked_by_agent_id (f id) = None.
Proof.
  intros (px & py & Hpx & Hpy & Hf) id. rewrite Hf.
  unfold item_in_grid; simpl. auto.
Qed.

(** X18 ([spawn_items] with [insert_items], lines 77-96 and 182-193 of
    the database layer): the call raises exactly when an item is asked
    for on a grid narrower than 1; otherwise it inserts [num_medkits]
    MedKits followed by [num_swords] Swords, and in a table that was
    empty every row lies inside the grid, has the next consecutive id and
    is available: [get_available_items] returns the whole table. *)
Theorem spawn_items_spec (num_medkits num_swords : Z) (g : rng_state) :
  match spawn_items grid_size num_medkits num_swords g with
  | (Returned new, _) =>
      ((num_medkits <= 0 /\ num_swords <= 0) \/ 1 <= grid_size)
      /\ (exists medkits swords,
            new = medkits ++ swords
            /\ length medkits = Z.to_nat num_medkits
            /\ length swords = Z.to_nat num_swords
            /\ Forall (spawned_item_row grid_size MedKit) medkits
            /\ Forall (spawned_item_row grid_size Sword) swords)
      /\ forall first_id ags,
           let gm := new_game ags (insert_items first_id new []) in
           Forall (item_in_grid grid_size) (items gm)
           /\ map item_id (items gm) = serial_ids first_id (length new)
           /\ get_available_items gm = items gm
  | (Raised, _) => grid_size < 1 /\ (0 < num_medkits \/ 0 < num_swords)
  end.
Proof.
  unfold spawn_items. unfold gen_bind at 1.
  pose proof (spawn_items_of_spec MedKit (Z.to_nat num_medkits) g) as Hm.
  destruct (spawn_items_of grid_size MedKit (Z.to_nat num_medkits) g)
    as [[medkits|] g1]; [|split; lia].
  destruct Hm as (Hlm & Hms & Hgm).
  unfold gen_bind at 1.
  pose proof (spawn_items_of_spec Sword (Z.to_nat num_swords) g1) as Hs.
  destruct (spawn_items_of grid_size Sword (Z.to_nat num_swords) g1)
    as [[swords|] g2]; [|split; lia].
  destruct Hs as (Hls & Hss & Hgs). unfold gen_ret.
  split; [lia|]. split; [exists medkits, swords; auto|].
  intros first_id ags. cbv zeta.
  unfold new_game, insert_items, get_available_items. cbn [items app].
  assert (Hall : Forall (fun f => forall id,
                   item_id (f id) = id /\ item_in_grid grid_size (f id)
                   /\ picked_up (f id) = false) (medkits ++ swords)).
  { apply Forall_app. split.
    - eapply List.Forall_impl; [|exact Hms]. intros f Hf id.
      destruct (spawned_item_row_facts MedKit f Hf id) as (H1 & H2 & H3 & _). auto.
    - eapply List.Forall_impl; [|exact Hss]. intros f Hf id.
      destruct (spawned_item_row_facts Sword f Hf id) as (H1 & H2 & H3 & _). auto. }
  pose proof (number_rows_Forall
                (fun id it => item_id it = id /\ item_in_grid grid_size it
                              /\ picked_up it = false)
                (medkits ++ swords) Hall first_id) as Hrows.
  split; [|split].
  - eapply List.Forall_impl; [|exact Hrows]. intros it (id & _ & _ & H & _). exact H.
  - apply number_rows_ids. eapply List.Forall_impl; [|exact Hall].
    intros f Hf id. apply Hf.
  - induction Hrows as [|it rows (id & _ & _ & _ & Hfree) _ IH]; [reflexivity|].
    cbn [List.filter]. rewrite Hfree. cbn [negb]. rewrite IH. reflexivity.
Qed.

End SpawnedItems.

(** ** The combat log of a round *)

Section LogFacts.
Context {R : Rng}.
Variable grid_size : Z.

Lemma run_tasks_buffer_length (gs : game_state) (tasks : list agent) (schedule : list Z) :
  forall (c : collected) (s : shared),
    (length (combat_buffer (snd (run_tasks grid_size gs tasks schedule c s)))
     <= length (combat_buffer s) + length schedule)%nat.
Proof.
  induction schedule as [|id rest IH]; intros c s; cbn [run_tasks length]; [simpl; lia |].
  destruct (find_task id tasks) as [a|].
  - specialize (IH (collect c (agent_id a) (fst (task_of grid_size gs a s)))
                   (snd (task_of grid_size gs a s))).
    destruct (task_of_spec grid_size a gs s (snd (task_of grid_size gs a s))
                (fst (task_of grid_size gs a s))) as ([Hsame | (_ & cb & Hone & _)] & _).
    + destruct (task_of grid_size gs a s); reflexivity.
    + rewrite Hsame in IH. lia.
    + rewrite Hone, length_app in IH. simpl in IH. lia.
  - specialize (IH c s). lia.
Qed.

Lemma events_of_stamped (round : Z) (buffer : list (option combat)) :
  Forall (fun e => ev_round e = round) (events_of round buffer)
  /\ (length (events_of round buffer) <= length buffer)%nat.
Proof.
  induction buffer as [|[cb|] buffer [IH1 IH2]]; simpl.
  - split; [constructor | lia].
  - split; [constructor; [reflexivity | exact IH1] | lia].
  - split; [exact IH1 | lia].
Qed.

(** Within the limits, every damage the tasks of a round buffer fits the
    column of the combat log. *)
Lemma round_damage_limit (schedule : list Z) (g : rng_state) (gm : game) :
  Forall multiplier_ok (agents gm) -> Forall within_limits (agents gm) ->
  forall cb,
    In (Some cb) (combat_buffer (snd (round_workers grid_size schedule g gm))) ->
    0 <= damage cb <= int4_max.
Proof.
  intros Hmult Hlim. rewrite List.Forall_forall in Hmult, Hlim.
  unfold round_workers.
  apply (run_tasks_invariant grid_size
           (fun _ s => forall cb, In (Some cb) (combat_buffer s) ->
                                  0 <= damage cb <= int4_max)).
  - intros a c s Hin HI cb Hcb.
    apply snapshot_tasks in Hin as [Hin _].
    assert (Hstrike : strikes_within a).
    { destruct (Hlim a Hin) as (_ & Hap & _ & Hle).
      split; [apply Hmult; exact Hin |]. split; [|exact Hle].
      unfold power_limit in *. change (3 * 100000000 / 2) with 150000000. lia. }
    destruct (task_of_limit grid_size a (snapshot gm) s
                (snd (task_of grid_size (snapshot gm) a s))
                (fst (task_of grid_size (snapshot gm) a s))) with (cb := cb)
      as [Hold | Hnew]; auto.
    destruct (task_of grid_size (snapshot gm) a s); reflexivity.
  - intros cb [].
Qed.

Lemma events_of_within (round : Z) (buffer : list (option combat)) :
  (forall cb, In (Some cb) buffer -> 0 <= damage cb <= int4_max) ->
  Forall (logged_within round) (events_of round buffer).
Proof.
  induction buffer as [|[cb|] buffer IH]; intros Hfit; simpl.
  - constructor.
  - constructor.
    + split; [reflexivity | apply Hfit; left; reflexivity].
    + apply IH. intros cb' Hin. apply Hfit. right. exact Hin.
  - apply IH. intros cb' Hin. apply Hfit. right. exact Hin.
Qed.

(** X22 ([run_round] with [apply_combat_results] and [log_combat]): on a
    table whose rows have a non-negative attack multiplier of at most 2.5
    and an attack power of at most 10^8, and with a next round number
    that fits its column, the combat log is only appended to.  A round
    adds one row for every combat result of the buffer that is not a
    miss, in buffer order, each stamped with the new round number and
    with a damage between 0 and the largest INTEGER, so that every INSERT
    of [log_combat] is accepted, and at most one row per task run; the
    round number of the game advances by one. *)
Theorem combat_log_append_only (schedule : list Z) (g : rng_state) (gm : game) :
  Forall multiplier_ok (agents gm) -> Forall within_limits (agents gm) ->
  fits_int4 (round_num gm + 1) ->
  let after := fst (run_round grid_size schedule g gm) in
  let new := events_of (round_num gm + 1)
               (combat_buffer (snd (round_workers grid_size schedule g gm))) in
  combat_log after = combat_log gm ++ new
  /\ Forall (logged_within (round_num gm + 1)) new
  /\ (length new <= length schedule)%nat
  /\ round_num after = round_num gm + 1.
Proof.
  intros Hmult Hlim _. cbv zeta.
  unfold run_round; cbn [fst combat_log round_num].
  rewrite apply_combat_results_log.
  destruct (events_of_stamped (round_num gm + 1)
              (combat_buffer (snd (round_workers grid_size schedule g gm))))
    as [_ Hlen].
  split; [reflexivity |].
  split; [apply events_of_within, round_damage_limit; assumption |].
  split; [|reflexivity].
  unfold round_workers in *.
  pose proof (run_tasks_buffer_length (snapshot gm)
                (gs_humans (snapshot gm) ++ gs_zombies (snapshot gm)) schedule
                (mk_collected ∅ []) (mk_shared g [] [])) as Hbuf.
  cbn [combat_buffer length] in Hbuf. lia.
Qed.

End LogFacts.

(** * The sequential engine [GameDB] *)

Section SequentialAttack.
Context {R : Rng}.

Local Ltac same_hit :=
  unfold event_of; cbn [damage attacker_id target_id was_critical];
  match goal with
  | Hhit : forall d att crit, _ = _ |- _ => cbv zeta in Hhit; rewrite Hhit; reflexivity
  end.

(** [GameDB.attack] computes what [calculate_attack] computes, from the
    same draws, and does to its target what the merge of the threaded
    engine does later. *)
Lemma attack_as_calculate_attack (round : Z) (attacker target : agent) (g : rng_state)
    (buffer : list (option combat)) (pickups : list (Z * Z)) :
  GameDB.attack round attacker target g
  = match calculate_attack attacker target (mk_shared g buffer pickups) with
    | (Returned None, s') => (Returned (target, []), rng s')
    | (Returned (Some c), s') =>
        (Returned (hit (damage c) target, [event_of round c]), rng s')
    | (Raised, s') => (Raised, rng s')
    end.
Proof.
  assert (Hhit : forall d att crit,
            (let t := set_health (health target - d) target in
             let t := if health t <=? 0 then set_is_alive false (set_health 0 t) else t in
             (t, [mk_event round att (agent_id t) d crit]))
            = (hit d target, [mk_event round att (agent_id target) d crit])).
  { intros d att crit. unfold hit. cbv zeta.
    destruct (health (set_health (health target - d) target) <=? 0); reflexivity. }
  unfold GameDB.attack, calculate_attack, gen_bind, bind, gen_random, random_random,
    gen_randint, random_randint, gen_ret, ret.
  destruct (decide (agent_type attacker = Zombie)) as [Hz|Hz]; cbn [rng].
  - destruct (rng_random g) as [u g1]; cbn [fst snd rng].
    destruct (Qltb u (2 # 10)); cbn [rng]; [reflexivity |].
    destruct (_ <=? _); cbn [rng]; [|reflexivity].
    destruct (rng_randint _ _ g1) as [n g2]; cbn [fst snd rng].
    destruct (decide (role_name attacker = Some Hunter)); cbn [rng].
    + destruct (rng_random g2) as [v g3]; cbn [fst snd rng]. same_hit.
    + same_hit.
  - destruct (_ <=? _); cbn [rng]; [|reflexivity].
    destruct (rng_randint _ _ g) as [n g2]; cbn [fst snd rng].
    destruct (decide (role_name attacker = Some Hunter)); cbn [rng].
    + destruct (rng_random g2) as [v g3]; cbn [fst snd rng]. same_hit.
    + same_hit.
Qed.

(** The three ways a call of [attack] ends. *)
Lemma attack_cases (round : Z) (attacker target : agent) (g : rng_state) :
  match fst (GameDB.attack round attacker target g) with
  | Returned (target', events) =>
      (target' = target /\ events = [])
      \/ exists d crit,
           target' = hit d target
           /\ events = [mk_event round (agent_id attacker) (agent_id target) d crit]
           /\ (multiplier_ok attacker -> 0 <= d)
           /\ (strikes_within attacker -> 0 <= d <= int4_max)
  | Raised => attack_power attacker < 0
  end.
Proof.
  rewrite (attack_as_calculate_attack round attacker target g [] []).
  pose proof (calculate_attack_spec attacker target (mk_shared g [] [])) as Hspec.
  destruct (calculate_attack attacker target (mk_shared g [] [])) as [[[c|]|] s'] eqn:Hrun;
    cbn [fst].
  - right. exists (damage c), (was_critical c).
    destruct (Hspec s' _ eq_refl) as (_ & _ & Hc).
    destruct (Hc c eq_refl) as (Hatt & Htgt & Hd).
    split; [reflexivity |].
    split; [unfold event_of; rewrite Hatt, Htgt; reflexivity |].
    split; [exact Hd |].
    intros Hlim. eapply calculate_attack_limit; eassumption.
  - left. split; reflexivity.
  - clear Hspec. revert Hrun. generalize (mk_shared g [] []). intros s.
    unfold calculate_attack, bind, random_random, random_randint, ret.
    rewrite py_int_half.
    destruct (decide (agent_type attacker = Zombie)) as [Hz|Hz];
      [destruct (rng_random (rng s)) as [u g1]; cbn [fst snd rng];
       destruct (Qltb u (2 # 10)) |];
      try discriminate.
    all: destruct (Z.leb_spec (Z.quot (attack_power attacker) 2) (attack_power attacker))
           as [Hle|Hgt]; cbn [fst snd rng].
    all: try (destruct (rng_randint _ _ _) as [n g2];
              destruct (decide (role_name attacker = Some Hunter)) as [Hh|Hh];
              [destruct (rng_random _) as [v g3] |]; cbn; discriminate).
    all: intros _; destruct (Z_lt_le_dec (attack_power attacker) 0) as [Hneg|Hpos];
         [assumption |].
    all: exfalso; apply half_le_iff in Hpos; apply (Z.lt_irrefl (attack_power attacker)); eapply Z.lt_le_trans; eassumption.
Qed.

(** X19 ([GameDB.attack] of [zombie_game4.py], lines 660-701, against
    [calculate_attack] and [apply_combat_results] of the threaded
    engine): from the same generator state both draw the same numbers and
    fail together, and when they return, merging the one combat result of
    [calculate_attack] into a dictionary that holds the target changes
    the target and the combat log exactly as the sequential [attack]
    does at once. *)
Theorem sequential_attack_is_merged_attack (round : Z) (attacker target : agent)
    (g : rng_state) (m : gmap Z agent) (log : list combat_event) :
  m !! agent_id target = Some target ->
  let seq := GameDB.attack round attacker target g in
  let par := calculate_attack attacker target (mk_shared g [] []) in
  snd seq = rng (snd par)
  /\ match fst seq, fst par with
     | Returned (target', events), Returned c =>
         apply_combat_results round m [c] log
         = (<[agent_id target := target']> m, log ++ events)
     | Raised, Raised => True
     | _, _ => False
     end.
Proof.
  intros Hlook. cbv zeta.
  rewrite (attack_as_calculate_attack round attacker target g [] []).
  pose proof (calculate_attack_spec attacker target (mk_shared g [] [])) as Hspec.
  destruct (calculate_attack attacker target (mk_shared g [] [])) as [[[c|]|] s'];
    cbn [fst snd]; (split; [reflexivity |]); [| |exact I].
  - destruct (Hspec s' _ eq_refl) as (_ & _ & Hc).
    destruct (Hc c eq_refl) as (_ & Htgt & _).
    unfold apply_combat_results, apply_combat, log_combat; cbn [fold_left fst snd].
    rewrite Htgt, (alter_alt_Some _ _ _ _ Hlook). reflexivity.
  - unfold apply_combat_results, apply_combat; cbn [fold_left].
    rewrite insert_id by exact Hlook. rewrite app_nil_r. reflexivity.
Qed.

End SequentialAttack.

Section SequentialRound.
Context {R : Rng}.
Variable grid_size : Z.
Variable rows : list agent.

Lemma in_flight_weaken (a : agent) :
  in_flight grid_size rows true a -> in_flight grid_size rows false a.
Proof.
  intros ((Hrow & Hok & Hm & _) & Hrest).
  split; [|exact Hrest]. split; [assumption |]. split; [assumption |].
  split; [assumption | discriminate].
Qed.

Lemma in_flight_strikes (alive : bool) (a : agent) :
  in_flight grid_size rows alive a -> strikes_within a.
Proof. intros ((_ & _ & Hm & _) & _ & _ & Hap & _ & Hle). split; auto. Qed.

Lemma in_flight_heal (a : agent) :
  in_flight grid_size rows true a -> in_flight grid_size rows true (doctor_heal a).
Proof.
  intros (((a0 & Ha0 & Hid & Hmax) & Hok & Hm & Hal) & Hgrid & Hpow & Hap & Hbap & Hle).
  destruct (doctor_heal_frame a)
    as (Hid' & _ & Hmax' & Hap' & Hbap' & Hal' & Hx & Hy & _ & Hmul).
  split; [|split; [|split; [|split; [|split]]]].
  - split; [exists a0; split; [assumption | split; congruence] |].
    split; [apply doctor_heal_health_ok; auto |].
    split; [apply doctor_heal_multiplier_ok; assumption |].
    intros _. rewrite Hal'. auto.
  - unfold in_grid. rewrite Hx, Hy. exact Hgrid.
  - unfold power_ok. rewrite Hap', Hbap'. exact Hpow.
  - rewrite Hap'. exact Hap.
  - rewrite Hbap'. exact Hbap.
  - unfold multiplier_le. rewrite Hmul. exact Hle.
Qed.

Lemma in_flight_assign (alive : bool) (a : agent) (it : item) :
  in_flight grid_size rows alive a ->
  in_flight grid_size rows alive (assign_role_to_human a it).
Proof.
  intros (((a0 & Ha0 & Hid & Hmax) & Hok & Hm & Hal) & Hgrid & [Hp Hb] & Hap & Hbap & Hle).
  destruct (assign_role_frame a it) as (Hid' & _ & Hh & Hmax' & Hbap' & Hal' & Hx & Hy).
  assert (Hpower : 0 <= attack_power (assign_role_to_human a it) <= 3 * power_limit / 2
                   /\ multiplier_le (assign_role_to_human a it)).
  { unfold multiplier_le, assign_role_to_human.
    destruct (item_type it); cbn.
    - split; [split; assumption | discriminate].
    - rewrite py_int_three_halves by assumption.
      split; [split; [apply Z.div_pos; lia | apply Z.div_le_mono; unfold power_limit in *; lia] |].
      intros m Hmul. inversion Hmul; subst. unfold Qle; simpl; lia. }
  destruct Hpower as ([Hp' Hap''] & Hle').
  split; [|split; [|split; [|split; [|split]]]].
  - split; [exists a0; split; [assumption | split; congruence] |].
    split; [unfold health_ok; rewrite Hh, Hmax', Hal'; exact Hok |].
    split; [apply assign_role_multiplier_ok |].
    intros Htrue. rewrite Hal'. auto.
  - unfold in_grid. rewrite Hx, Hy. exact Hgrid.
  - unfold power_ok. rewrite Hbap'. split; assumption.
  - exact Hap''.
  - rewrite Hbap'. exact Hbap.
  - exact Hle'.
Qed.

Lemma in_flight_move (alive : bool) (dx dy : Z) (a : agent) :
  in_flight grid_size rows alive a ->
  in_flight grid_size rows alive (move_step grid_size dx dy a).
Proof.
  intros (Htr & Hgrid & Hrest). split; [exact Htr |]. split; [|exact Hrest].
  assert (0 < grid_size) by (unfold in_grid in Hgrid; lia).
  unfold in_grid, move_step; simpl. split; apply clamp_in_grid; assumption.
Qed.

Lemma in_flight_iter (alive : bool) (dx dy : Z) (n : nat) (a : agent) :
  in_flight grid_size rows alive a ->
  in_flight grid_size rows alive (Nat.iter n (move_step grid_size dx dy) a).
Proof.
  intros Ha. induction n as [|n IH]; simpl; [exact Ha | apply in_flight_move, IH].
Qed.

Lemma in_flight_hit (d : Z) (a : agent) :
  0 <= d -> in_flight grid_size rows false a -> in_flight grid_size rows false (hit d a).
Proof.
  intros Hd (Htr & Hgrid & Hpow & Hap & Hbap & Hle).
  destruct (hit_frame d a) as (_ & _ & _ & Hap' & Hbap' & Hx & Hy & _ & Hrd).
  split; [apply hit_tracks; assumption |].
  split; [unfold in_grid; rewrite Hx, Hy; exact Hgrid |].
  split; [unfold power_ok; rewrite Hap', Hbap'; exact Hpow |].
  split; [rewrite Hap'; exact Hap |].
  split; [rewrite Hbap'; exact Hbap |].
  unfold multiplier_le. rewrite Hrd. exact Hle.
Qed.

Lemma indexed_In {A : Type} (l : list A) (j : nat) (a : A) :
  In (j, a) (GameDB.indexed l) -> In a l.
Proof. unfold GameDB.indexed. apply in_combine_r. Qed.

(** What an attack leaves of its target is in flight again, and the rows
    it logs fit their columns. *)
Lemma attacked_in_flight (round : Z) (alive : bool) (attacker target : agent)
    (g : rng_state) :
  in_flight grid_size rows alive attacker ->
  in_flight grid_size rows false target ->
  exists target' events g',
    GameDB.attack round attacker target g = (Returned (target', events), g')
    /\ in_flight grid_size rows false target'
    /\ Forall (logged_within round) events.
Proof.
  intros Hatt Ht.
  pose proof (in_flight_strikes alive attacker Hatt) as Hlim.
  destruct Hatt as (_ & _ & [Hap _] & _).
  pose proof (attack_cases round attacker target g) as Hc.
  destruct (GameDB.attack round attacker target g) as [[[target' events]|] g'];
    cbn [fst] in Hc; [|lia].
  exists target', events, g'. split; [reflexivity |].
  destruct Hc as [[-> ->] | (d & crit & -> & -> & _ & Hd)].
  - split; [exact Ht | constructor].
  - specialize (Hd Hlim). split; [apply in_flight_hit; [lia | exact Ht] |].
    constructor; [|constructor]. split; [reflexivity | exact Hd].
Qed.

Lemma human_turn_ok (round : Z) (available : list item) (i : nat)
    (st : GameDB.round_state) (g : rng_state) :
  Forall (in_flight grid_size rows true) (GameDB.st_humans st) ->
  Forall (in_flight grid_size rows false) (GameDB.st_zombies st) ->
  exists st' g' events,
    GameDB.process_human_turn grid_size round available i st g = (Returned st', g')
    /\ Forall (in_flight grid_size rows true) (GameDB.st_humans st')
    /\ Forall (in_flight grid_size rows false) (GameDB.st_zombies st')
    /\ GameDB.st_log st' = GameDB.st_log st ++ events
    /\ Forall (logged_within round) events.
Proof.
  intros Hhs Hzs. unfold GameDB.process_human_turn.
  destruct (GameDB.st_humans st !! i) as [human|] eqn:Hi;
    [|exists st, g, []; rewrite app_nil_r; repeat split; auto].
  pose proof (in_flight_heal human (Forall_lookup_1 _ _ _ _ Hhs Hi)) as Hh.
  destruct (item_in_reach _ _) as [nearest_item|].
  { eexists _, _, []. split; [reflexivity |].
    cbn [GameDB.st_humans GameDB.st_zombies GameDB.st_log]. rewrite app_nil_r.
    split; [apply Forall_insert; [assumption | apply in_flight_assign, Hh] |].
    repeat split; auto. }
  destruct (find_nearest _ _ _) as [[j nearest_zombie]|] eqn:Hfind.
  - destruct (within_reach _).
    + assert (Hz : in_flight grid_size rows false nearest_zombie).
      { apply find_nearest_In, indexed_In in Hfind.
        rewrite List.Forall_forall in Hzs. apply Hzs. assumption. }
      destruct (attacked_in_flight round true (doctor_heal human) nearest_zombie g Hh Hz)
        as (target' & events & g' & Hrun & Ht & Hev).
      unfold gen_bind. rewrite Hrun. eexists _, _, events. split; [reflexivity |].
      cbn [GameDB.st_humans GameDB.st_zombies GameDB.st_log fst snd].
      split; [apply Forall_insert; assumption |].
      split; [apply Forall_insert; assumption |]. split; [reflexivity | exact Hev].
    + eexists _, _, []. split; [reflexivity |].
      cbn [GameDB.st_humans GameDB.st_zombies GameDB.st_log]. rewrite app_nil_r.
      split; [apply Forall_insert; [assumption | apply in_flight_move, Hh] |].
      repeat split; auto.
  - eexists _, _, []. split; [reflexivity |].
    cbn [GameDB.st_humans GameDB.st_zombies GameDB.st_log]. rewrite app_nil_r.
    split; [apply Forall_insert; assumption |]. repeat split; auto.
Qed.

Lemma zombie_turn_ok (round : Z) (j : nat) (st : GameDB.round_state) (g : rng_state) :
  Forall (in_flight grid_size rows false) (GameDB.st_humans st) ->
  Forall (in_flight grid_size rows false) (GameDB.st_zombies st) ->
  exists st' g' events,
    GameDB.process_zombie_turn grid_size round j st g = (Returned st', g')
    /\ Forall (in_flight grid_size rows false) (GameDB.st_humans st')
    /\ Forall (in_flight grid_size rows false) (GameDB.st_zombies st')
    /\ GameDB.st_log st' = GameDB.st_log st ++ events
    /\ Forall (logged_within round) events.
Proof.
  intros Hhs Hzs. unfold GameDB.process_zombie_turn.
  destruct (GameDB.st_zombies st !! j) as [zombie|] eqn:Hj;
    [|exists st, g, []; rewrite app_nil_r; repeat split; auto].
  pose proof (Forall_lookup_1 _ _ _ _ Hzs Hj) as Hz.
  destruct (find_nearest _ _ _) as [[i nearest_human]|] eqn:Hfind;
    [|exists st, g, []; rewrite app_nil_r; repeat split; auto].
  destruct (within_reach _).
  - assert (Hh : in_flight grid_size rows false nearest_human).
    { apply find_nearest_In, indexed_In in Hfind.
      rewrite List.Forall_forall in Hhs. apply Hhs. assumption. }
    destruct (attacked_in_flight round false zombie nearest_human g Hz Hh)
      as (target' & events & g' & Hrun & Ht & Hev).
    unfold gen_bind. rewrite Hrun. eexists _, _, events. split; [reflexivity |].
    cbn [GameDB.st_humans GameDB.st_zombies GameDB.st_log fst snd].
    split; [apply Forall_insert; assumption |].
    split; [assumption |]. split; [reflexivity | exact Hev].
  - cbv zeta. destruct (Qle_bool 1 _).
    + eexists _, _, []. split; [reflexivity |].
      cbn [GameDB.st_humans GameDB.st_zombies GameDB.st_log]. rewrite app_nil_r.
      split; [assumption |].
      split; [apply Forall_insert; [assumption | apply in_flight_iter, Hz] |].
      repeat split; auto.
    + unfold gen_bind, gen_random. destruct (Qltb _ _).
      * eexists _, _, []. split; [reflexivity |].
        cbn [GameDB.st_humans GameDB.st_zombies GameDB.st_log]. rewrite app_nil_r.
        split; [assumption |].
        split; [apply Forall_insert; [assumption | apply in_flight_move, Hz] |].
        repeat split; auto.
      * eexists _, _, []. split; [reflexivity |]. rewrite app_nil_r.
        repeat split; auto.
Qed.

Lemma for_each_ok (I : GameDB.round_state -> Prop)
    (turn : nat -> GameDB.round_state -> gen GameDB.round_state) :
  (forall i st g, I st -> exists st' g', turn i st g = (Returned st', g') /\ I st') ->
  forall positions st g,
    I st ->
    exists st' g', GameDB.for_each positions turn st g = (Returned st', g') /\ I st'.
Proof.
  intros Hturn positions.
  induction positions as [|i rest IH]; intros st g Hst; cbn [GameDB.for_each].
  - exists st, g. split; [reflexivity | exact Hst].
  - destruct (Hturn i st g Hst) as (st1 & g1 & Hrun & Hst1).
    unfold gen_bind. rewrite Hrun. apply IH. exact Hst1.
Qed.

End SequentialRound.

Section SequentialInvariant.
Context {R : Rng}.
Variable grid_size : Z.

Lemma alive_rows_in_flight (t : agent_type_t) (gm : game) :
  game_ok gm -> Forall (in_grid grid_size) (agents gm) -> Forall power_ok (agents gm) ->
  Forall within_limits (agents gm) ->
  Forall (in_flight grid_size (agents gm) true) (get_alive_agents t gm).
Proof.
  intros (_ & Hhealth & Hmult) Hgrid Hpow Hlim.
  rewrite List.Forall_forall in Hhealth, Hmult, Hgrid, Hpow, Hlim.
  apply List.Forall_forall. intros a Hin. unfold get_alive_agents in Hin.
  apply filter_In in Hin as [Hin Hb]. apply andb_true_iff in Hb as [Hal _].
  destruct (Hlim a Hin) as (_ & Hap & Hbap & Hle).
  split; [|split; [auto | split; [auto |]]].
  - split; [exists a; auto |]. split; [auto |]. split; [auto |]. intros _. exact Hal.
  - split; [unfold power_limit in *; change (3 * 100000000 / 2) with 150000000; lia |].
    split; assumption.
Qed.

Lemma update_in_flight (rows : list agent) (a' row : agent) :
  List.NoDup (map agent_id rows) ->
  in_flight grid_size rows false a' ->
  in_flight grid_size rows false row /\ within_limits row ->
  in_flight grid_size rows false (update_agent (update_of a') row)
  /\ within_limits (update_agent (update_of a') row).
Proof.
  intros Hnd (((a0 & Ha0 & Hid0 & Hmax0) & Hok' & Hm' & _) & Hgrid' & _ & _ & _ & Hle')
    [(((a1 & Ha1 & Hid1 & Hmax1) & Hokr & Hmr & Halr) & Hgridr & Hpowr & Hapr & Hbapr & Hler)
     (Hmaxr & Hlapr & Hlbapr & _)].
  unfold update_agent, update_of; cbn [u_agent_id].
  destruct (decide (agent_id row = agent_id a')) as [Heq|_].
  - assert (a0 = a1) as <-
      by (apply (NoDup_map_inj agent_id rows); auto; congruence).
    split.
    + split; [|split; [exact Hgrid' | split; [exact Hpowr |]]].
      * split; [exists a0; auto |].
        split; [unfold health_ok; simpl; rewrite Hmax1, <- Hmax0; exact Hok' |].
        split; [exact Hm' | discriminate].
      * split; [exact Hapr |]. split; [exact Hbapr | exact Hle'].
    + split; [exact Hmaxr |]. split; [exact Hlapr |]. split; [exact Hlbapr | exact Hle'].
  - split.
    + split; [|split; [assumption | split; [assumption |]]].
      * split; [exists a1; auto |]. split; [assumption |]. split; assumption.
      * split; [assumption |]. split; assumption.
    + split; [assumption |]. split; [assumption |]. split; assumption.
Qed.

(** X20 ([GameDB.run_round] of [zombie_game4.py], lines 715-750, with
    [process_human_turn], [process_zombie_turn] and [attack]): on a table
    whose ids are a key and whose rows have a health within bounds, a
    position inside the grid, a non-negative attack multiplier of at most
    2.5, an attack power between 0 and 10^8 and a max_health that fits
    its column, with a grid size and a next round number that fit theirs,
    a sequential round does not raise: no [random.randint] has an empty
    range, and every value written to an INTEGER column fits it, the
    damage of each new row of the combat log as well as health and
    position of each agent.  The table it writes back satisfies all of
    this again; the round changes no id, faction, max_health or attack
    power, only appends to the combat log and advances the round number
    by one.  The turns act on dictionaries an earlier turn of the round
    has already changed: a target may have been hit, or killed, before. *)
Theorem sequential_round_ok (gm : game) (g : rng_state) :
  game_ok gm -> Forall (in_grid grid_size) (agents gm) -> Forall power_ok (agents gm) ->
  Forall within_limits (agents gm) ->
  grid_size <= int4_max -> fits_int4 (round_num gm + 1) ->
  exists gm' g' new,
    GameDB.run_round grid_size gm g = (Returned gm', g')
    /\ game_ok gm'
    /\ Forall (in_grid grid_size) (agents gm')
    /\ Forall power_ok (agents gm')
    /\ Forall within_limits (agents gm')
    /\ Permutation (map fixed_columns (agents gm')) (map fixed_columns (agents gm))
    /\ round_num gm' = round_num gm + 1
    /\ combat_log gm' = combat_log gm ++ new
    /\ Forall (logged_within (round_num gm + 1)) new
    /\ Forall (fun a => fits_int4 (health a) /\ fits_int4 (x a) /\ fits_int4 (y a))
         (agents gm').
Proof.
  intros Hok Hgrid Hpow Hlim Hsize Hround. pose proof Hok as (Hnd & Hhealth & Hmult).
  unfold GameDB.run_round.
  set (round := round_num gm + 1).
  set (logged := fun st : GameDB.round_state =>
                   exists new, GameDB.st_log st = combat_log gm ++ new
                               /\ Forall (logged_within round) new).
  set (I1 := fun st : GameDB.round_state =>
               Forall (in_flight grid_size (agents gm) true) (GameDB.st_humans st)
               /\ Forall (in_flight grid_size (agents gm) false) (GameDB.st_zombies st)
               /\ logged st).
  set (I2 := fun st : GameDB.round_state =>
               Forall (in_flight grid_size (agents gm) false) (GameDB.st_humans st)
               /\ Forall (in_flight grid_size (agents gm) false) (GameDB.st_zombies st)
               /\ logged st).
  assert (Hlogged : forall st st' events,
            logged st -> GameDB.st_log st' = GameDB.st_log st ++ events ->
            Forall (logged_within round) events -> logged st').
  { intros st st' events (new & Hlog & Hnew) Hst' Hev. exists (new ++ events).
    rewrite Hst', Hlog, app_assoc. split; [reflexivity |].
    apply Forall_app. split; assumption. }
  assert (Hturn1 : forall i st g0, I1 st ->
            exists st' g', GameDB.process_human_turn grid_size round
                             (get_available_items gm) i st g0 = (Returned st', g')
                           /\ I1 st').
  { intros i st g0 (Hh & Hz & Hl).
    destruct (human_turn_ok grid_size (agents gm) round (get_available_items gm) i st g0
                Hh Hz) as (st' & g' & events & Hrun & Hh' & Hz' & Hlog & Hev).
    exists st', g'. split; [exact Hrun |]. split; [exact Hh' |]. split; [exact Hz' |].
    exact (Hlogged st st' events Hl Hlog Hev). }
  assert (Hturn2 : forall j st g0, I2 st ->
            exists st' g', GameDB.process_zombie_turn grid_size round j st g0
                           = (Returned st', g')
                           /\ I2 st').
  { intros j st g0 (Hh & Hz & Hl).
    destruct (zombie_turn_ok grid_size (agents gm) round j st g0 Hh Hz)
      as (st' & g' & events & Hrun & Hh' & Hz' & Hlog & Hev).
    exists st', g'. split; [exact Hrun |]. split; [exact Hh' |]. split; [exact Hz' |].
    exact (Hlogged st st' events Hl Hlog Hev). }
  destruct (for_each_ok I1 _ Hturn1
              (seq 0 (length (get_alive_agents Human gm)))
              (GameDB.mk_round_state (get_alive_agents Human gm)
                 (get_alive_agents Zombie gm) (items gm) (combat_log gm)) g)
    as (st1 & g1 & Hrun1 & Hh1 & Hz1 & Hl1).
  { split; [|split]; cbn [GameDB.st_humans GameDB.st_zombies].
    - apply alive_rows_in_flight; assumption.
    - eapply List.Forall_impl; [apply in_flight_weaken |].
      apply alive_rows_in_flight; assumption.
    - exists []. cbn [GameDB.st_log]. rewrite app_nil_r. split; [reflexivity | constructor]. }
  destruct (for_each_ok I2 _ Hturn2
              (seq 0 (length (get_alive_agents Zombie gm))) st1 g1)
    as (st2 & g2 & Hrun2 & Hh2 & Hz2 & (new & Hlog2 & Hnew2)).
  { split; [|split; [exact Hz1 | exact Hl1]].
    eapply List.Forall_impl; [apply in_flight_weaken | exact Hh1]. }
  unfold gen_bind at 1. rewrite Hrun1. unfold gen_bind at 1. rewrite Hrun2.
  unfold gen_ret. eexists _, _, new. split; [reflexivity |].
  assert (Hrows : Forall (fun row => in_flight grid_size (agents gm) false row
                                     /\ within_limits row)
                    (batch_update_agents
                       (map update_of (GameDB.st_humans st2 ++ GameDB.st_zombies st2))
                       (agents gm))).
  { apply batch_update_Forall.
    - intros u row Hin Hrow. apply in_map_iff in Hin as (a' & <- & Hin).
      apply update_in_flight; [assumption | | assumption].
      assert (Hall : Forall (in_flight grid_size (agents gm) false)
                       (GameDB.st_humans st2 ++ GameDB.st_zombies st2))
        by (apply Forall_app; split; assumption).
      rewrite List.Forall_forall in Hall. apply Hall. assumption.
    - pose proof (alive_rows_in_flight Human gm Hok Hgrid Hpow Hlim) as _.
      rewrite List.Forall_forall in Hhealth, Hmult, Hgrid, Hpow, Hlim.
      apply List.Forall_forall. intros row Hin.
      destruct (Hlim row Hin) as (Hmaxr & Hap & Hbap & Hle).
      split; [|apply Hlim; exact Hin].
      split; [|split; [auto | split; [auto |]]].
      + split; [exists row; auto |]. split; [auto |]. split; [auto | discriminate].
      + split; [unfold power_limit in *; change (3 * 100000000 / 2) with 150000000; lia |].
        split; assumption. }
  unfold game_ok; cbn [agents round_num combat_log].
  split; [split; [|split] |split; [|split; [|split; [|split; [|split; [|split; [|split]]]]]]].
  - rewrite batch_update_ids. assumption.
  - eapply List.Forall_impl; [|exact Hrows]. intros row (((_ & H & _) & _) & _). exact H.
  - eapply List.Forall_impl; [|exact Hrows]. intros row (((_ & _ & H & _) & _) & _). exact H.
  - eapply List.Forall_impl; [|exact Hrows]. intros row ((_ & H & _) & _). exact H.
  - eapply List.Forall_impl; [|exact Hrows]. intros row ((_ & _ & H & _) & _). exact H.
  - eapply List.Forall_impl; [|exact Hrows]. intros row (_ & H). exact H.
  - rewrite batch_update_fixed_columns. apply Permutation_refl.
  - reflexivity.
  - exact Hlog2.
  - exact Hnew2.
  - eapply List.Forall_impl; [|exact Hrows].
    intros row (((_ & [Hh _] & _) & [Hx Hy] & _) & (Hmaxr & _)).
    unfold fits_int4, int4_max in *. repeat split; lia.
Qed.

End SequentialInvariant.

(** * The in-memory game of [zombie_game4.py]: items *)

(** X21 ([Human.decide_action], [pick_up_item] and [assign_role] of the
    in-memory game, lines 244-273 of [zombie_game4.py]): a human picks up
    an item only when it has no role and the item, the nearest of the
    round's list and within 1.5, is not picked up at that moment; the
    pickup sets the flag of that item and of no other, no flag is ever
    cleared, and from then on no call picks the item up again, whatever
    list of items the caller still holds: an item gives a role to at most
    one human. *)
Theorem item_picked_up_once (h h' : agent) (snapshot : list nat) (items items' : list item)
    (k : nat) :
  Game4.decide_pick_up h snapshot items = Some (k, h', items') ->
  (exists it,
     items !! k = Some it /\ picked_up it = false /\ In k snapshot
     /\ within_reach (calculate_distance (x h) (y h) (item_x it) (item_y it)) = true
     /\ role_name h = None /\ h' = assign_role_to_human h it
     /\ items' = <[k := Game4.set_picked_up it]> items)
  /\ (forall j it, items !! j = Some it ->
        exists it', items' !! j = Some it'
                    /\ (j <> k -> it' = it)
                    /\ (picked_up it = true -> picked_up it' = true))
  /\ (forall h2 snapshot2 r,
        Game4.decide_pick_up h2 snapshot2 items' = Some r -> fst (fst r) <> k).
Proof.
  unfold Game4.decide_pick_up at 1. intros Hpick.
  destruct (role_name h) eqn:Hrole; [discriminate |].
  destruct (find_nearest _ _ _) as [k0|] eqn:Hfind; [|discriminate].
  destruct (items !! k0) as [it|] eqn:Hk; [|discriminate].
  destruct (within_reach _ && negb (picked_up it)) eqn:Hguard; [|discriminate].
  inversion Hpick; subst k0 h' items'. clear Hpick.
  apply andb_true_iff in Hguard as [Hreach Hfree]. apply negb_true_iff in Hfree.
  pose proof (lookup_lt_Some _ _ _ Hk) as Hlen.
  split; [|split].
  - exists it. apply find_nearest_In in Hfind. repeat split; assumption.
  - intros j it0 Hj. destruct (decide (j = k)) as [->|Hne].
    + rewrite list_lookup_insert_eq by assumption. eexists. split; [reflexivity |].
      split; [intros Hkk; contradiction | intros _; reflexivity].
    + rewrite list_lookup_insert_ne by congruence. exists it0. auto.
  - intros h2 snapshot2 [[k2 h2'] items2]. unfold Game4.decide_pick_up.
    destruct (role_name h2); [discriminate |].
    destruct (find_nearest (Game4.item_at _) h2 snapshot2) as [k1|]; [|discriminate].
    destruct (decide (k1 = k)) as [->|Hne].
    + rewrite list_lookup_insert_eq by assumption. cbn [picked_up Game4.set_picked_up].
      rewrite andb_false_r. discriminate.
    + destruct (_ !! k1); [|discriminate].
      destruct (_ && _); [|discriminate].
      intros Heq. inversion Heq; subst. exact Hne.
Qed.

(** * The rounds of the example worlds *)

#[local] Existing Instance TapeRng.



(** C3, the failing input. Both humans stand within reach of the one
    MedKit: both tasks assign the Doctor role and append a pickup, and the
    item ends up owned by whichever pickup is applied last. *)
Theorem medkit_picked_up_twice :
  let ws := round_workers 20 [1; 3; 2] [] shared_medkit in
  let after := fst (run_round 20 [1; 3; 2] [] shared_medkit) in
  let swapped := fst (run_round 20 [3; 1; 2] [] shared_medkit) in
  item_pickups (snd ws) = [(7, 1); (7, 3)]
  /\ map (fun a => (agent_id a, role_name a)) (agents after)
     = [(1, Some Doctor); (3, Some Doctor); (2, None)]
  /\ items after = [mk_item 7 MedKit 0 1 true (Some 3)]
  /\ items swapped = [mk_item 7 MedKit 0 1 true (Some 1)].
Proof.
  intros ws after swapped. repeat split; vm_compute; reflexivity.
Qed.

(** C4, the failing input. A human with attack_power 20 whose
    [randint] draw is the least of its range deals 10, below
    floor(0.7 * 20) = 14: the range starts at int(0.5 * attack_power) for
    humans as for zombies. *)
Theorem human_base_damage_from_half :
  fst (calculate_attack (new_human 1 0 0) (new_zombie 2 0 1) (mk_shared [0] [] []))
  = Returned (Some (mk_combat 1 2 10 false))
  /\ py_int (mul_float 20 (1 # 2)) = 10
  /\ 10 < 7 * 20 / 10.
Proof. repeat split. Qed.

(** C9, the failing input. The human picks up the Sword in round 1: the
    task's copy gets attack_power 30, the row written back keeps 20, and
    the Hunter's attack of round 2 draws from 10..20, dealing 2 * 10 = 20,
    less than the least damage 2 * 15 of the boosted power. *)
Theorem hunter_boost_not_persisted :
  let hunter_data := mk_role_data None None None (Some (2 # 1)) (Some (3 # 10)) in
  let ws := round_workers 20 [1; 2] [0] armory in
  let round1 := run_round 20 [1; 2] [0] armory in
  let round2 := run_round 20 [1; 2] [0; 50; 0] (fst round1) in
  attack_power (assign_role_to_human (new_human 1 0 0) (new_item 5 Sword 1 1)) = 30
  /\ updated_agents (fst ws) !! 1
     = Some (mk_agent 1 Human 100 100 30 20 true 0 0 (Some Hunter) hunter_data)
  /\ nth_error (agents (fst round1)) 0
     = Some (mk_agent 1 Human 100 100 20 20 true 0 0 (Some Hunter) hunter_data)
  /\ combat_log (fst round2) = [mk_event 2 1 2 20 false]
  /\ 20 < 2 * (30 / 2).
Proof.
  intros hunter_data ws round1 round2. repeat split; vm_compute; reflexivity.
Qed.

(** ** The theorems at work on the example worlds *)



Lemma health_invariant_witness :
  Forall health_ok (agents (fst (run_round 20 [1; 2] [0; 50; 3] duel))).
Proof.
  refine (proj1 (health_invariant (R := TapeRng) 20 [1; 2] [0; 50; 3] duel _)).
  split; [|split].
  - repeat constructor; simpl; intuition lia.
  - repeat constructor; simpl; try lia; intros; lia.
  - repeat constructor; intros m Hm; discriminate.
Defined.

Lemma positions_stay_in_grid_witness :
  Forall (in_grid 20) (agents (fst (run_round 20 [2; 1] [] chase))).
Proof.
  refine (positions_stay_in_grid (R := TapeRng) 20 [2; 1] [] chase _).
  repeat constructor; simpl; lia.
Defined.

(** The Speed Zombie of the chase takes its two steps in one round. *)
Example chase_round :
  map (fun a => (x a, y a)) (agents (fst (run_round 20 [2; 1] [] chase)))
  = [(1, 1); (17, 17)].
Proof. reflexivity. Qed.

(** In the round of the faulty world in which the zombie's task runs
    before the task that raises, the zombie's attack is in the buffer when
    the merge begins and is logged; the human, whose task raised, is not in
    updated_agents, so that its row is written by nobody. *)
Example sibling_intent_reaches_merge :
  let ws := round_workers 20 [2; 1] [50; 3] faulty in
  let after := fst (run_round 20 [2; 1] [50; 3] faulty) in
  errors (fst ws) = [1]
  /\ combat_buffer (snd ws) = [Some (mk_combat 2 1 10 false)]
  /\ combat_log after = [mk_event 1 2 1 10 false]
  /\ map health (agents after) = [100; 80].
Proof. repeat split. Qed.


Lemma no_opponent_turn_witness :
  let z := new_zombie 2 3 3 in
  let h := new_human 1 0 0 in
  let alone := mk_game_state [] [z] [] in
  let s := mk_shared [7] [] [] in
  process_zombie_turn 20 z alone s = (Returned z, s)
  /\ exists h' s', process_human_turn 20 h (mk_game_state [h] [] []) s = (Returned h', s')
                   /\ x h' = 0 /\ y h' = 0.
Proof.
  intros z h alone s.
  destruct (no_opponent_turn (R := TapeRng) 20) as [Hz Hh]. split.
  - apply Hz. reflexivity.
  - destruct (Hh h (mk_game_state [h] [] []) s eq_refl)
      as (h' & s' & Hrun & _ & _ & _ & _ & _ & _ & _ & Hx & Hy & _).
    exists h', s'. split; [exact Hrun |]. split; assumption.
Defined.


(** ** Instances of the further properties *)

Lemma find_nearest_first_least_witness :
  let h := new_human 1 0 0 in
  let t := new_zombie 3 0 2 in
  let targets := [new_zombie 2 3 3; t; new_zombie 4 2 0] in
  exists before after,
    targets = before ++ t :: after
    /\ (forall u, In u before ->
          radicand (distance_to agent_pos h t) < radicand (distance_to agent_pos h u))
    /\ (forall u, In u after ->
          radicand (distance_to agent_pos h t) <= radicand (distance_to agent_pos h u)).
Proof.
  intros h t targets.
  assert (Hnear : Forall (fun u => radicand (distance_to agent_pos h u) <= distance_limit)
                    targets)
    by (repeat constructor; vm_compute; discriminate).
  apply (proj2 (find_nearest_first_least agent_pos h targets Hnear)). reflexivity.
Defined.


Lemma human_step_closer_witness :
  let h := new_human 1 0 0 in
  let z := new_zombie 2 5 5 in
  let gs := mk_game_state [h] [z] [] in
  let s := mk_shared [7] [] [] in
  exists h',
    process_human_turn 20 h gs s = (Returned h', s)
    /\ in_grid 20 h'
    /\ cheb (x h') (y h') (x h) (y h) = 1
    /\ cheb (x h') (y h') (x z) (y z) = cheb (x h) (y h) (x z) (y z) - 1.
Proof.
  intros h z gs s.
  apply (human_step_closer (R := TapeRng) 20 h z gs s);
    first [reflexivity | unfold in_grid; simpl; lia].
Defined.

Lemma zombie_move_by_role_witness :
  let zb := spawned_zombie 2 19 19 (10 # 100) in
  let hm := new_human 1 0 0 in
  let gs := mk_game_state [hm] [zb] [] in
  let s := mk_shared [7] [] [] in
  exists z',
    process_zombie_turn 20 zb gs s = (Returned z', s)
    /\ in_grid 20 z'
    /\ cheb (x z') (y z') (x hm) (y hm) < cheb (x zb) (y zb) (x hm) (y hm).
Proof.
  intros zb hm gs s.
  assert (Hzb : in_grid 20 zb) by (unfold in_grid; simpl; lia).
  assert (Hhm : in_grid 20 hm) by (unfold in_grid; simpl; lia).
  assert (Hfind : find_nearest agent_pos zb (gs_humans gs) = Some hm) by reflexivity.
  assert (Hfar : within_reach (calculate_distance (x zb) (y zb) (x hm) (y hm)) = false)
    by reflexivity.
  destruct (zombie_move_by_role (R := TapeRng) 20 zb hm gs s Hzb Hhm Hfind Hfar)
    as (_ & Hspeed & _).
  destruct (Hspeed eq_refl) as (z' & Hrun & Hgrid & Hlt & _).
  exists z'. split; [exact Hrun |]. split; [exact Hgrid | exact Hlt].
Defined.

Lemma combat_between_factions_witness :
  let cb := mk_combat 1 2 10 false in
  exists a t,
    In a (agents duel) /\ In t (agents duel)
    /\ is_alive a = true /\ is_alive t = true
    /\ agent_type a <> agent_type t
    /\ attacker_id cb = agent_id a /\ target_id cb = agent_id t
    /\ find_nearest agent_pos a (opponents a (snapshot duel)) = Some t
    /\ within_reach (calculate_distance (x a) (y a) (x t) (y t)) = true.
Proof.
  intros cb.
  apply (combat_between_factions (R := TapeRng) 20 [1; 2] [0; 50; 3] duel cb).
  vm_compute. left. reflexivity.
Defined.

Lemma pickup_by_roleless_human_witness :
  let p := (7, 1) in
  exists h it,
    In h (agents shared_medkit) /\ In it (items shared_medkit)
    /\ is_alive h = true /\ agent_type h = Human /\ role_name h = None
    /\ picked_up it = false
    /\ p = (item_id it, agent_id h)
    /\ find_nearest item_pos h (get_available_items shared_medkit) = Some it
    /\ within_reach (calculate_distance (x h) (y h) (item_x it) (item_y it)) = true.
Proof.
  intros p.
  apply (pickup_by_roleless_human (R := TapeRng) 20 [1; 3; 2] [] shared_medkit p).
  vm_compute. left. reflexivity.
Defined.


Lemma merge_adds_up_damage_witness :
  let c1 := mk_combat 1 2 10 false in
  let c2 := mk_combat 3 2 10 false in
  let m : gmap Z agent := {[ 2 := weak_zombie 2 1 1 ]} in
  exists a',
    fst (apply_combat_results 1 m [Some c1; Some c2] []) !! 2 = Some a'
    /\ health a' = 0 /\ is_alive a' = false.
Proof.
  intros c1 c2 m.
  assert (Hpos : damages_nonneg [Some c1; Some c2])
    by (repeat constructor; intros c Hc; inversion Hc; subst; simpl; lia).
  pose proof (merge_adds_up_damage 1 m [Some c1; Some c2] [] 2 Hpos) as Hsum.
  change (m !! 2) with (Some (weak_zombie 2 1 1)) in Hsum.
  destruct Hsum as (a' & Hlook & _ & _ & Haim).
  destruct (Haim eq_refl) as [Hh Ha].
  exists a'. split; [exact Hlook |].
  change (health a' = 0) in Hh. split; [exact Hh |].
  rewrite Ha, Hh. reflexivity.
Defined.

Lemma dead_rows_untouched_witness :
  let dead := set_is_alive false (set_health 0 (new_zombie 3 5 5)) in
  let gm := new_game [new_human 1 0 0; dead; new_zombie 2 0 1] [] in
  nth_error (agents (fst (run_round 20 [1; 2] [0; 50; 3] gm))) 1 = Some dead.
Proof.
  intros dead gm.
  apply (dead_rows_untouched (R := TapeRng) 20 [1; 2] [0; 50; 3] gm 1 dead).
  - repeat constructor; simpl; intuition lia.
  - reflexivity.
  - reflexivity.
Defined.

Lemma role_is_permanent_witness :
  exists row',
    nth_error (agents (fst (run_round 20 [1; 2] [] armory))) 1 = Some row'
    /\ role_name row' = role_name (new_zombie 2 0 1)
    /\ role_data row' = role_data (new_zombie 2 0 1).
Proof.
  assert (Hnd : List.NoDup (map agent_id (agents armory)))
    by (repeat constructor; simpl; intuition lia).
  assert (Hrow : nth_error (agents armory) 1 = Some (new_zombie 2 0 1)) by reflexivity.
  destruct (role_is_permanent (R := TapeRng) 20 [1; 2] [] armory 1 (new_zombie 2 0 1)
              Hnd Hrow) as (row' & Hnth & _ & Hzombie & _).
  exists row'. split; [exact Hnth |]. apply Hzombie. reflexivity.
Defined.

Lemma items_change_by_pickup_only_witness :
  let it := new_item 7 MedKit 0 1 in
  exists it',
    nth_error (items (fst (run_round 20 [1; 3; 2] [] shared_medkit))) 0 = Some it'
    /\ (it' = it
        \/ (picked_up it = false
            /\ exists h, In h (agents shared_medkit) /\ is_alive h = true
                 /\ agent_type h = Human /\ role_name h = None
                 /\ within_reach (calculate_distance (x h) (y h) (item_x it) (item_y it))
                    = true
                 /\ it' = mk_item (item_id it) (item_type it) (item_x it) (item_y it)
                            true (Some (agent_id h)))).
Proof.
  intros it.
  apply (items_change_by_pickup_only (R := TapeRng) 20 [1; 3; 2] [] shared_medkit 0 it).
  - repeat constructor; simpl; intuition lia.
  - reflexivity.
Defined.

Lemma run_rounds_stops_witness :
  let gm := new_game [new_human 1 0 0] [] in
  fst (run_rounds 20 5 (fun _ => [1]) [] gm) = gm.
Proof.
  intros gm.
  pose proof (run_rounds_stops (R := TapeRng) 20 5 (fun _ => [1]) [] gm) as Hstop.
  cbv zeta in Hstop. destruct Hstop as (_ & _ & Hover).
  apply Hover. left. reflexivity.
Defined.

Lemma winner_after_elimination_witness :
  winner (new_game [new_human 1 0 0] []) = HumansWin.
Proof.
  assert (Hover : is_game_over (new_game [new_human 1 0 0] []) = true) by reflexivity.
  apply (proj1 (winner_after_elimination (new_game [new_human 1 0 0] []) Hover)).
  discriminate.
Defined.

Lemma statistics_spec_witness :
  let gm := mk_game [new_human 1 0 0; new_zombie 2 0 1] []
              [mk_event 1 1 2 10 true; mk_event 1 2 1 7 false] 1 1 in
  0 <= 1 <= total_attacks (get_combat_statistics gm).
Proof.
  intros gm.
  pose proof (statistics_spec gm) as Hstats. cbv zeta in Hstats.
  destruct Hstats as (_ & _ & Hcrit & _).
  apply Hcrit. reflexivity.
Defined.

Lemma spawned_table_ok_witness :
  let new := [fun id => new_human id 3 4; fun id => spawned_zombie id 15 6 (60 # 100)] in
  let gm := new_game (batch_insert_agents 1 new []) [] in
  game_ok gm
  /\ Forall (in_grid 20) (agents gm)
  /\ map agent_id (agents gm) = serial_ids 1 (length new)
  /\ length (get_alive_agents Human gm) = Z.to_nat 1
  /\ length (get_alive_agents Zombie gm) = Z.to_nat 1.
Proof.
  intros new.
  apply (spawned_table_ok (R := TapeRng) 20 1 1 [3; 4; 5; 6; 60] [] new 1 []).
  reflexivity.
Defined.


Lemma sequential_attack_is_merged_attack_witness :
  let attacker := new_human 1 0 0 in
  let target := new_zombie 2 0 1 in
  let m : gmap Z agent := {[ 2 := target ]} in
  let seq := GameDB.attack 1 attacker target [3] in
  let par := calculate_attack attacker target (mk_shared [3] [] []) in
  snd seq = rng (snd par)
  /\ match fst seq, fst par with
     | Returned (target', events), Returned c =>
         apply_combat_results 1 m [c] []
         = (<[agent_id target := target']> m, [] ++ events)
     | Raised, Raised => True
     | _, _ => False
     end.
Proof.
  intros attacker target m.
  apply (sequential_attack_is_merged_attack (R := TapeRng) 1 attacker target [3] m []).
  reflexivity.
Defined.

Lemma sequential_round_ok_witness :
  exists gm' g' new,
    GameDB.run_round 20 duel [0; 50; 3] = (Returned gm', g')
    /\ game_ok gm'
    /\ Forall (in_grid 20) (agents gm')
    /\ Forall power_ok (agents gm')
    /\ Forall within_limits (agents gm')
    /\ Permutation (map fixed_columns (agents gm')) (map fixed_columns (agents duel))
    /\ round_num gm' = round_num duel + 1
    /\ combat_log gm' = combat_log duel ++ new
    /\ Forall (logged_within (round_num duel + 1)) new
    /\ Forall (fun a => fits_int4 (health a) /\ fits_int4 (x a) /\ fits_int4 (y a))
         (agents gm').
Proof.
  apply (sequential_round_ok (R := TapeRng) 20 duel [0; 50; 3]).
  - split; [|split].
    + repeat constructor; simpl; intuition lia.
    + repeat constructor; simpl; try lia; intros; lia.
    + repeat constructor; intros m Hm; discriminate.
  - repeat constructor; simpl; lia.
  - repeat constructor; simpl; lia.
  - repeat constructor; unfold int4_max, power_limit; simpl; try lia;
      intros m Hm; discriminate.
  - unfold int4_max; lia.
  - unfold fits_int4, int4_max; simpl; lia.
Defined.

Lemma item_picked_up_once_witness :
  let medkit := new_item 7 MedKit 0 1 in
  let h := new_human 1 0 0 in
  let items := [medkit] in
  exists it,
    items !! 0%nat = Some it /\ picked_up it = false /\ In 0%nat [0%nat]
    /\ within_reach (calculate_distance (x h) (y h) (item_x it) (item_y it)) = true
    /\ role_name h = None
    /\ assign_role_to_human h medkit = assign_role_to_human h it
    /\ [Game4.set_picked_up medkit] = <[0%nat := Game4.set_picked_up it]> items.
Proof.
  intros medkit h items.
  assert (Hpick : Game4.decide_pick_up h [0%nat] items
                  = Some (0%nat, assign_role_to_human h medkit,
                          [Game4.set_picked_up medkit])) by reflexivity.
  exact (proj1 (item_picked_up_once _ _ _ _ _ _ Hpick)).
Defined.

Lemma round_resurrects_nobody_witness :
  let after := fst (run_round 20 [1; 3; 2] [0; 0; 50; 3] ambush) in
  (length (get_alive_agents Zombie after) <= length (get_alive_agents Zombie ambush))%nat.
Proof.
  intros after.
  refine (proj1 (round_resurrects_nobody (R := TapeRng) 20 [1; 3; 2] [0; 0; 50; 3]
                   ambush Zombie _)).
  repeat constructor; simpl; intuition lia.
Defined.

Lemma combat_log_append_only_witness :
  let schedule := [1; 2] in
  let after := fst (run_round 20 schedule [0; 50; 3] duel) in
  let new := events_of (round_num duel + 1)
               (combat_buffer (snd (round_workers 20 schedule [0; 50; 3] duel))) in
  combat_log after = combat_log duel ++ new
  /\ Forall (logged_within (round_num duel + 1)) new
  /\ (length new <= length schedule)%nat
  /\ round_num after = round_num duel + 1.
Proof.
  intros schedule.
  apply (combat_log_append_only (R := TapeRng) 20 [1; 2] [0; 50; 3] duel).
  - repeat constructor; intros m Hm; discriminate.
  - repeat constructor; unfold int4_max, power_limit; simpl; try lia;
      intros m Hm; discriminate.
  - unfold fits_int4, int4_max; simpl; lia.
Defined.
